(** * vis/server.py: index builder, query engines and label queue

    A shallow embedding of the data engine of [vis/server.py]
    ([DataEngine], the [/api/flows], [/api/hourly], [/api/heat] handlers,
    the low-traffic filter of [/api/label_queue/start] and the queue
    pointer handlers), followed by the properties of the specification
    that are checked against it.

    Conventions of the embedding.
    - Python [int] and SQL [BIGINT]/[INTEGER] are [Z].
    - SQL [DOUBLE] / Python [float]: the builder and the flow queries are
      written once over a carrier with the operations they use ([Arith],
      [Num]), instantiated at exact carriers ([Z], [Q]) and at binary64
      ([float]); the other query engines read rationals [Q].
    - The artifact directory is a finite map from [(kind, year)] to the
      table stored in that parquet file.
    - Code that raises is modelled with [result]; builds, which change the
      file system before they raise, run in a state-and-error monad. *)

From Stdlib Require Import ZArith QArith Qround Floats Lia Lqa Sorted.
From stdpp Require Import base option list gmap strings sorting.

Set Warnings "-inexact-float".
Local Open Scope Z_scope.

(** ** Results of code that can raise *)

Inductive error :=
  | AssertionError        (* a failed [assert] *)
  | EngineError           (* DuckDB raised (missing file, bad LIMIT, I/O) *)
  | KeyError              (* missing dict key *)
  | IndexError            (* list index out of range *)
  | ValueError            (* [int] of a string that is no integer *)
  | AttributeError.       (* a method the value does not have *)

Inductive result (A : Type) :=
  | Ok (a : A)
  | Err (e : error).
Arguments Ok {A} a.
Arguments Err {A} e.

Global Instance result_ret : MRet result := λ A a, Ok a.
Global Instance result_bind : MBind result := λ A B k r,
  match r with Ok a => k a | Err e => Err e end.
Global Instance result_fmap : FMap result := λ A B f r,
  match r with Ok a => Ok (f a) | Err e => Err e end.

(** ** Numbers *)

(** The two operations the builder needs from the column type: the [0] of
    [COALESCE(_, 0)] and the [+] of [SUM] and of [out_total + in_total]. *)
Class Arith (A : Type) := { zero : A; add : A → A → A }.

Global Instance Q_arith : Arith Q := {| zero := 0%Q; add := Qplus |}.
Global Instance float_arith : Arith float := {| zero := 0%float; add := PrimFloat.add |}.
Global Instance Z_arith : Arith Z := {| zero := 0; add := Z.add |}.

(** [SUM] of several columns at once is the componentwise sum. *)
Global Instance prod_arith {A B} `{Arith A, Arith B} : Arith (A * B) :=
  {| zero := (zero, zero); add := λ x y, (add x.1 y.1, add x.2 y.2) |}.

(** What the flow queries need besides: the [1.0] of the clamp, the [*] of
    [? * tot] and the comparisons [<=] and [<]. *)
Class Num (A : Type) `{Arith A} := {
  one : A;
  mul : A → A → A;
  leb : A → A → bool;
  ltb : A → A → bool;
}.

(** The laws [SUM] relies on when it is read as a mathematical sum. *)
Class ExactArith (A : Type) `{Arith A} : Prop := {
  add_comm' : ∀ x y : A, add x y = add y x;
  add_assoc' : ∀ x y z : A, add x (add y z) = add (add x y) z;
}.

Global Instance Qle_dec (x y : Q) : Decision (x <= y)%Q.
Proof. destruct (Qlt_le_dec y x); [right; by apply Qlt_not_le | by left]. Defined.

Global Instance Qlt_dec (x y : Q) : Decision (x < y)%Q.
Proof. destruct (Qlt_le_dec x y); [by left | right; by apply Qle_not_lt]. Defined.

Global Instance Q_num : Num Q :=
  {| one := 1%Q; mul := Qmult;
     leb := λ x y, bool_decide (x <= y)%Q; ltb := λ x y, bool_decide (x < y)%Q |}.
Global Instance float_num : Num float :=
  {| one := 1%float; mul := PrimFloat.mul; leb := PrimFloat.leb; ltb := PrimFloat.ltb |}.

Definition Qsum (l : list Q) : Q := foldr Qplus 0%Q l.

(** ** Sorting: [ORDER BY] and Python's [sorted]

    A stable insertion sort.  [leb x y = true] means that [x] may stay in
    front of [y]. *)

Section sorting.
Context {A : Type} (leb : A → A → bool).

Fixpoint insert_sorted (x : A) (l : list A) : list A :=
  match l with
  | [] => [x]
  | y :: l' => if leb x y then x :: l else y :: insert_sorted x l'
  end.

Definition sort_by (l : list A) : list A := foldr insert_sorted [] l.

(** Adjacent elements are in [leb] order. *)
Definition sorted_by (l : list A) : Prop := Sorted (λ x y, leb x y = true) l.

End sorting.

(** [ORDER BY key DESC] and [ORDER BY key] (ascending) on a numeric key. *)
Definition order_by_desc {A B} `{Num B} (key : A → B) : list A → list A :=
  sort_by (λ x y, leb (key y) (key x)).
Definition order_by_asc {A B} `{Num B} (key : A → B) : list A → list A :=
  sort_by (λ x y, leb (key x) (key y)).
(** [ORDER BY] on integer keys, compared lexicographically. *)
Fixpoint Zlist_leb (ks ks' : list Z) : bool :=
  match ks, ks' with
  | [], _ => true
  | _ :: _, [] => false
  | k :: ks, k' :: ks' => (k <? k') || ((k =? k') && Zlist_leb ks ks')
  end.
Definition order_by_keys {A} (keys : A → list Z) : list A → list A :=
  sort_by (λ x y, Zlist_leb (keys x) (keys y)).

(** ** Data model *)

(** The years the server is configured for ([YEARS]). *)
Definition YEARS : list Z := [2018; 2021; 2024].

(** One row of the grid metadata CSV ([load_metadata]). *)
Record GridCell := {
  gc_grid_id : Z;
  gc_lon : Q;
  gc_lat : Q;
  gc_area_name : string;
  gc_city_name : string;
}.

(** A canonical raw row as [_read_csv_sql] selects it. *)
Record RawRow (A : Type) := {
  date_dt : string;
  raw_hour : Z;
  raw_o_grid : Z;
  raw_d_grid : Z;
  raw_num_total : A;
}.
Arguments date_dt {A} _.
Arguments raw_hour {A} _.
Arguments raw_o_grid {A} _.
Arguments raw_d_grid {A} _.
Arguments raw_num_total {A} _.

(** A row of [edges_by_o_<y>.parquet] / [edges_by_d_<y>.parquet]. *)
Record Edge (A : Type) := { o_grid : Z; d_grid : Z; num_total : A }.
Arguments o_grid {A} _.
Arguments d_grid {A} _.
Arguments num_total {A} _.

(** A row of [hourly_<y>.parquet]. *)
Record HourlyRow (A : Type) := {
  h_grid_id : Z; h_week : Z; h_hour : Z;
  h_out_total : A; h_in_total : A; h_total : A;
}.
Arguments h_grid_id {A} _.
Arguments h_week {A} _.
Arguments h_hour {A} _.
Arguments h_out_total {A} _.
Arguments h_in_total {A} _.
Arguments h_total {A} _.

(** A row of [totals_<y>.parquet]. *)
Record TotalRow (A : Type) := {
  t_grid_id : Z; t_out_total : A; t_in_total : A; t_total : A;
}.
Arguments t_grid_id {A} _.
Arguments t_out_total {A} _.
Arguments t_in_total {A} _.
Arguments t_total {A} _.

(** ** The SQL operators the builder uses *)

Section sql.
Context {K : Type} `{EqDecision K}.

(** [GROUP BY k] with [SUM(v)]: one output row per key, in order of first
    appearance; a key's values are added in input order. *)
Fixpoint group_add {V} `{Arith V} (k : K) (v : V) (acc : list (K * V)) : list (K * V) :=
  match acc with
  | [] => [(k, v)]
  | (k', v') :: acc' =>
      if decide (k' = k) then (k', add v' v) :: acc'
      else (k', v') :: group_add k v acc'
  end.

Definition group_sum {V} `{Arith V} (rows : list (K * V)) : list (K * V) :=
  foldl (λ acc r, group_add r.1 r.2 acc) [] rows.

(** The row of a keyed relation with key [k], if any. *)
Definition assoc {V} (k : K) (rel : list (K * V)) : option V :=
  snd <$> List.find (λ r, bool_decide (r.1 = k)) rel.

(** [l FULL OUTER JOIN r ON l.k = r.k] followed by
    [COALESCE(l.k, r.k), COALESCE(l.v, 0), COALESCE(r.v, 0)]: every left
    row with its partner (or [0]), then the right rows without partner. *)
Definition full_outer_join {V W} `{Arith V, Arith W}
    (l : list (K * V)) (r : list (K * W)) : list (K * (V * W)) :=
  ((λ kv, (kv.1, (kv.2, default zero (assoc kv.1 r)))) <$> l) ++
  ((λ kw, (kw.1, (zero, kw.2))) <$>
     List.filter (λ kw, bool_decide (¬ is_Some (assoc kw.1 l))) r).

End sql.

(** ** Dates

    [TRY_STRPTIME(s, '%Y%m%d')::DATE] and [DATE_PART('week', dt)] are
    functions of the SQL engine; the builder is written against this
    interface, and [iso_dates] below implements it for the proleptic
    Gregorian calendar and ISO-8601 week numbers. *)

Class DateEngine := {
  date : Type;
  date_eq_dec :: EqDecision date;
  try_strptime_ymd : string → option date;
  date_part_week : date → Z;
}.

Record ymd := { ymd_year : Z; ymd_month : Z; ymd_day : Z }.

Global Instance ymd_eq_dec : EqDecision ymd.
Proof. solve_decision. Defined.

Definition digit_value (c : Ascii.ascii) : option Z :=
  let n := Z.of_N (Ascii.N_of_ascii c) in
  if bool_decide (48 ≤ n ≤ 57) then Some (n - 48) else None.

Fixpoint digits_value (acc : Z) (s : string) : option Z :=
  match s with
  | EmptyString => Some acc
  | String c s' =>
      match digit_value c with
      | Some d => digits_value (10 * acc + d) s'
      | None => None
      end
  end.

Definition is_leap (y : Z) : bool :=
  bool_decide (y mod 4 = 0 ∧ (y mod 100 ≠ 0 ∨ y mod 400 = 0)).

Definition days_in_month (y m : Z) : Z :=
  if bool_decide (m = 2) then (if is_leap y then 29 else 28)
  else if bool_decide (m ∈ [4; 6; 9; 11]) then 30 else 31.

Definition parse_ymd (s : string) : option ymd :=
  y ← digits_value 0 (String.substring 0 4 s);
  m ← digits_value 0 (String.substring 4 2 s);
  d ← digits_value 0 (String.substring 6 2 s);
  if bool_decide (String.length s = 8%nat ∧ 1 ≤ m ≤ 12 ∧ 1 ≤ d ≤ days_in_month y m)
  then Some {| ymd_year := y; ymd_month := m; ymd_day := d |} else None.

(** Day of the year, 1-based. *)
Definition day_of_year (dt : ymd) : Z :=
  foldr Z.add 0 (days_in_month (ymd_year dt) <$> seqZ 1 (ymd_month dt - 1)) + ymd_day dt.

(** Days from 0001-01-01 (day 1, a Monday) to 1 January of year [y]. *)
Definition days_before_year (y : Z) : Z :=
  let p := y - 1 in 365 * p + p / 4 - p / 100 + p / 400.

(** ISO weekday, Monday = 1 .. Sunday = 7. *)
Definition iso_weekday (dt : ymd) : Z :=
  (days_before_year (ymd_year dt) + day_of_year dt - 1) mod 7 + 1.

(** Number of ISO weeks (52 or 53) of year [y]. *)
Definition iso_weeks_in_year (y : Z) : Z :=
  let p := λ y, (y + y / 4 - y / 100 + y / 400) mod 7 in
  if bool_decide (p y = 4 ∨ p (y - 1) = 3) then 53 else 52.

Definition iso_week (dt : ymd) : Z :=
  let w := (day_of_year dt - iso_weekday dt + 10) / 7 in
  if bool_decide (w < 1) then iso_weeks_in_year (ymd_year dt - 1)
  else if bool_decide (w > iso_weeks_in_year (ymd_year dt)) then 1
  else w.

Definition iso_dates : DateEngine :=
  {| date := ymd; try_strptime_ymd := parse_ymd; date_part_week := iso_week |}.

(** ** The index builder ([DataEngine._build_year]) *)

Section builder.
Context {A : Type} `{Arith A} `{DateEngine}.

(** View [edges]: [SELECT o_grid, d_grid, SUM(num_total) FROM src
    GROUP BY o_grid, d_grid]. *)
Definition edges_view (src : list (RawRow A)) : list (Edge A) :=
  (λ kv, {| o_grid := kv.1.1; d_grid := kv.1.2; num_total := kv.2 |}) <$>
  group_sum ((λ r, ((raw_o_grid r, raw_d_grid r), raw_num_total r)) <$> src).

(** [COPY (SELECT * FROM edges ORDER BY o_grid)] and [... ORDER BY d_grid]. *)
Definition edges_by_o_rows (src : list (RawRow A)) : list (Edge A) :=
  order_by_keys (λ e, [o_grid e]) (edges_view src).
Definition edges_by_d_rows (src : list (RawRow A)) : list (Edge A) :=
  order_by_keys (λ e, [d_grid e]) (edges_view src).

(** View [t]: the rows whose [date_dt] has length 8 and parses as
    [%Y%m%d] ([WHERE dt IS NOT NULL]). *)
Definition t_view (src : list (RawRow A)) : list (date * RawRow A) :=
  omap (λ r, dt ← (if bool_decide (String.length (date_dt r) = 8%nat)
                   then try_strptime_ymd (date_dt r) else None);
             Some (dt, r)) src.

(** Views [out_by] and [in_by]: [GROUP BY grid_id, dt, hour]. *)
Definition out_by (t : list (date * RawRow A)) : list ((Z * date * Z) * A) :=
  group_sum ((λ dr, ((raw_o_grid dr.2, dr.1, raw_hour dr.2), raw_num_total dr.2)) <$> t).
Definition in_by (t : list (date * RawRow A)) : list ((Z * date * Z) * A) :=
  group_sum ((λ dr, ((raw_d_grid dr.2, dr.1, raw_hour dr.2), raw_num_total dr.2)) <$> t).

(** View [merged]: the full outer join of [out_by] and [in_by] on
    [(grid_id, dt, hour)] with [COALESCE(_, 0)] on both totals. *)
Definition merged (t : list (date * RawRow A)) : list ((Z * date * Z) * (A * A)) :=
  full_outer_join (out_by t) (in_by t).

(** View [hourly]: [SUM(out_total), SUM(in_total), SUM(out_total + in_total)]
    grouped by [(grid_id, week, hour)]. *)
Definition hourly_view (src : list (RawRow A)) : list (HourlyRow A) :=
  (λ kv, {| h_grid_id := kv.1.1.1; h_week := kv.1.1.2; h_hour := kv.1.2;
            h_out_total := kv.2.1.1; h_in_total := kv.2.1.2; h_total := kv.2.2 |}) <$>
  group_sum ((λ m, ((m.1.1.1, date_part_week m.1.1.2, m.1.2),
                    (m.2.1, m.2.2, add m.2.1 m.2.2))) <$> merged (t_view src)).

(** [COPY (SELECT * FROM hourly ORDER BY grid_id, week, hour)]. *)
Definition hourly_rows (src : list (RawRow A)) : list (HourlyRow A) :=
  order_by_keys (λ r, [h_grid_id r; h_week r; h_hour r]) (hourly_view src).

(** Views [gout], [gin] and [gt], ordered by [grid_id]: the per-grid totals
    of an outbound and an inbound edge relation. *)
Definition gout (e : list (Edge A)) : list (Z * A) :=
  group_sum ((λ r, (o_grid r, num_total r)) <$> e).
Definition gin (e : list (Edge A)) : list (Z * A) :=
  group_sum ((λ r, (d_grid r, num_total r)) <$> e).
Definition gt_view (e_out e_in : list (Edge A)) : list (TotalRow A) :=
  (λ kv, {| t_grid_id := kv.1; t_out_total := kv.2.1; t_in_total := kv.2.2;
            t_total := add kv.2.1 kv.2.2 |}) <$>
  full_outer_join (gout e_out) (gin e_in).
Definition totals_rows (e_out e_in : list (Edge A)) : list (TotalRow A) :=
  order_by_keys (λ r, [t_grid_id r]) (gt_view e_out e_in).

End builder.

(** ** The artifact directory *)

(** The [kind] argument of [DataEngine._parquet_path]. *)
Inductive kind := edges_by_o | edges_by_d | hourly | totals.

Global Instance kind_eq_dec : EqDecision kind.
Proof. solve_decision. Defined.

Global Instance kind_countable : Countable kind.
Proof.
  refine (inj_countable'
    (λ k, match k with edges_by_o => 0%nat | edges_by_d => 1%nat
                     | hourly => 2%nat | totals => 3%nat end)
    (λ n, match n with 0%nat => edges_by_o | 1%nat => edges_by_d
                     | 2%nat => hourly | _ => totals end) _).
  by intros [].
Defined.

(** The content of one parquet file. *)
Inductive table (A : Type) :=
  | TEdges (rows : list (Edge A))
  | THourly (rows : list (HourlyRow A))
  | TTotals (rows : list (TotalRow A)).
Arguments TEdges {A} rows.
Arguments THourly {A} rows.
Arguments TTotals {A} rows.

(** [appdata_dir]: the file [<kind>_<year>.parquet] is the entry at
    [(kind, year)]. *)
Abbreviation appdata A := (gmap (kind * Z) (table A)).

(** [_parquet_path(kind, y).exists()]. *)
Definition exists_ {A} (fs : appdata A) (k : kind) (y : Z) : bool :=
  bool_decide (is_Some (fs !! (k, y))).

(** [read_parquet] of an edge, hourly or totals file: the engine raises
    when the file is absent or does not have the selected columns. *)
Definition read_edges {A} (fs : appdata A) (k : kind) (y : Z) : result (list (Edge A)) :=
  match fs !! (k, y) with Some (TEdges rows) => Ok rows | _ => Err EngineError end.
Definition read_hourly {A} (fs : appdata A) (y : Z) : result (list (HourlyRow A)) :=
  match fs !! (hourly, y) with Some (THourly rows) => Ok rows | _ => Err EngineError end.
Definition read_totals {A} (fs : appdata A) (y : Z) : result (list (TotalRow A)) :=
  match fs !! (totals, y) with Some (TTotals rows) => Ok rows | _ => Err EngineError end.

(** ** Builds: state and errors

    A build step changes the artifact directory and may raise; what it did
    to the directory before raising stays done. *)

Definition build (S X : Type) : Type := S → S * result X.

Global Instance build_ret {S} : MRet (build S) := λ X x s, (s, Ok x).
Global Instance build_bind {S} : MBind (build S) := λ X Y k m s,
  match m s with
  | (s', Ok x) => k x s'
  | (s', Err e) => (s', Err e)
  end.
Definition blift {S X} (r : result X) : build S X := λ s, (s, r).
Definition bget {S} : build S S := λ s, (s, Ok s).

(** [when b: m]. *)
Definition bwhen {S} (b : bool) (m : build S unit) : build S unit :=
  if b then m else mret tt.

(** What a build finds outside the artifact directory: the raw CSV of each
    year that has one ([year_paths] / [year_colmaps]), and the [COPY]
    statements on which the engine raises (a conversion error in a scanned
    row, an I/O error while writing). *)
Record BuildEnv (A : Type) := {
  year_csv : gmap Z (list (RawRow A));
  copy_raises : kind → Z → bool;
}.
Arguments year_csv {A} _.
Arguments copy_raises {A} _.

Section build_year.
Context {A : Type} `{Arith A} `{DateEngine} (env : BuildEnv A).

(** [path.unlink(missing_ok=True)] inside [try: ... except: pass]. *)
Definition unlink (k : kind) (y : Z) : build (appdata A) unit :=
  λ fs, (delete (k, y) fs, Ok tt).

(** [COPY (...) TO '<path>' (FORMAT PARQUET, ...)]: the file appears when
    the statement completes; when the engine raises there is no complete
    file at the path. *)
Definition copy_to (k : kind) (y : Z) (t : table A) : build (appdata A) unit :=
  λ fs, if copy_raises env k y then (delete (k, y) fs, Err EngineError)
        else (<[(k, y) := t]> fs, Ok tt).

(** [_read_csv_sql(y)] and the binding of the view [src] on the CSV. *)
Definition _read_csv_sql (y : Z) : build (appdata A) (list (RawRow A)) :=
  blift (match year_csv env !! y with Some rows => Ok rows | None => Err KeyError end).

Definition _build_year (y : Z) (build_edges_o build_edges_d build_hourly : bool)
    : build (appdata A) unit :=
  src ← _read_csv_sql y;
  bwhen (build_edges_o || build_edges_d) (
    bwhen build_edges_o (
      unlink edges_by_o y;;
      copy_to edges_by_o y (TEdges (edges_by_o_rows src)));;
    bwhen build_edges_d (
      unlink edges_by_d y;;
      copy_to edges_by_d y (TEdges (edges_by_d_rows src))));;
  bwhen build_hourly (
    unlink hourly y;;
    copy_to hourly y (THourly (hourly_rows src)));;
  (* Always (re)build per-grid totals *)
  unlink totals y;;
  copy_to totals y (TTotals (totals_rows (edges_view src) (edges_view src))).

Fixpoint ensure_built (years : list Z) : build (appdata A) unit :=
  match years with
  | [] => mret tt
  | y :: years' =>
      fs ← bget;
      let need_edges_o := negb (exists_ fs edges_by_o y) in
      let need_edges_d := negb (exists_ fs edges_by_d y) in
      let need_hourly := negb (exists_ fs hourly y) in
      bwhen (need_edges_o || need_edges_d || need_hourly)
        (_build_year y need_edges_o need_edges_d need_hourly);;
      ensure_built years'
  end.

Definition build_totals_for_year (y : Z) : build (appdata A) unit :=
  fs ← bget;
  bwhen (negb (exists_ fs edges_by_o y) || negb (exists_ fs edges_by_d y))
    (_build_year y (negb (exists_ fs edges_by_o y)) (negb (exists_ fs edges_by_d y)) false);;
  fs ← bget;
  e_out ← blift (read_edges fs edges_by_o y);
  e_in ← blift (read_edges fs edges_by_d y);
  unlink totals y;;
  copy_to totals y (TTotals (totals_rows e_out e_in)).

End build_year.

(** ** The query engines *)

(** The grid metadata held by [DataEngine]: [meta_items] in file order and
    [meta_by_id], the same rows keyed by [grid_id]. *)
Record Engine := {
  meta_items : list GridCell;
  meta_by_id : gmap Z GridCell;
}.

(** [load_metadata]: a later row with the same [grid_id] replaces the
    earlier one in [by_id]. *)
Definition load_metadata (rows : list GridCell) : Engine :=
  {| meta_items := rows;
     meta_by_id := foldl (λ by_id item, <[gc_grid_id item := item]> by_id) ∅ rows |}.

(** Python's [l[i]]: negative indices count from the end. *)
Definition py_index {A} (l : list A) (i : Z) : result A :=
  let j := if bool_decide (i < 0) then i + Z.of_nat (length l) else i in
  if bool_decide (j < 0) then Err IndexError
  else match l !! Z.to_nat j with Some x => Ok x | None => Err IndexError end.

(** *** Flow queries ([DataEngine.flows_for_grid]) *)

(** [LIMIT ?]: the engine rejects a negative row count. *)
Definition limit {A} (topk : Z) (rows : list A) : result (list A) :=
  if bool_decide (topk < 0) then Err EngineError else Ok (take (Z.to_nat topk) rows).

(** The flow queries, over the arithmetic of the [DOUBLE] column. *)
Section flow_queries.
Context {A : Type} `{Num A}.

(** [SUM(v) OVER (ORDER BY ... ROWS UNBOUNDED PRECEDING)] on rows already in
    window order: the sum of each row and all rows before it. *)
Fixpoint running_sum (acc : A) (vs : list A) : list A :=
  match vs with
  | [] => []
  | v :: vs' => add acc v :: running_sum (add acc v) vs'
  end.

(** [SUM(v) OVER ()]: the values added up in the order of the rows. *)
Definition sum_over (vs : list A) : A := foldl add zero vs.

(** The query without coverage:
    [SELECT .. WHERE <key> = ? ORDER BY num_total DESC LIMIT ?]
    on the counterpart/flow pairs [e] of the grid. *)
Definition topk_query (e : list (Z * A)) (topk : Z) : result (list (Z * A)) :=
  limit topk (order_by_desc snd e).

(** The query with coverage: columns [cs] (running sum in descending order)
    and [tot] (sum of all rows), [WHERE cs <= ? * tot],
    [ORDER BY num_total DESC LIMIT ?]. *)
Definition coverage_rows (e : list (Z * A)) (cov : A) : list (Z * A) :=
  let sorted := order_by_desc snd e in
  let cs := running_sum zero (snd <$> sorted) in
  let tot := sum_over (snd <$> e) in
  fst <$> filter (λ rc, leb rc.2 (mul cov tot) = true) (zip sorted cs).

Definition coverage_query (e : list (Z * A)) (cov : A) (topk : Z) : result (list (Z * A)) :=
  limit topk (order_by_desc snd (coverage_rows e cov)).

(** [cov = float(cov or 0.0)], clamped to [[0, 1]]. *)
Definition clamp_cov (cov : A) : A :=
  if ltb cov zero then zero
  else if ltb one cov then one else cov.

(** The rows of one direction ([result["out"]] with [key := o_grid] and
    [other := d_grid] on [edges_by_o]; [result["in"]] the other way round
    on [edges_by_d]). *)
Definition select_edges (fs : appdata A) (k : kind) (key other : Edge A → Z)
    (year grid_id topk : Z) (cov : A) : result (list (Z * A)) :=
  rows ← read_edges fs k year;
  let e := (λ r, (other r, num_total r)) <$> filter (λ r, key r = grid_id) rows in
  if ltb zero (clamp_cov cov) then coverage_query e (clamp_cov cov) topk
  else topk_query e topk.

End flow_queries.

(** Literals in coverage position are read as rationals. *)
Arguments clamp_cov {A _ _} cov%_Q.
Arguments coverage_rows {A _ _} e cov%_Q.
Arguments coverage_query {A _ _} e cov%_Q topk%_Z.
Arguments select_edges {A _ _} fs k key other (year grid_id topk)%_Z cov%_Q.

(** An entry of [out_edges] / [in_edges]. *)
Record FlowEdge (A : Type) := {
  fe_o_grid : Z;
  fe_d_grid : Z;
  fe_num_total : A;
  fe_o : option GridCell;
  fe_d : option GridCell;
}.
Arguments fe_o_grid {A} _.
Arguments fe_d_grid {A} _.
Arguments fe_num_total {A} _.
Arguments fe_o {A} _.
Arguments fe_d {A} _.

Record FlowsResult (A : Type) := {
  center : option GridCell;
  out_edges : list (FlowEdge A);
  in_edges : list (FlowEdge A);
}.
Arguments center {A} _.
Arguments out_edges {A} _.
Arguments in_edges {A} _.

(** The local function [coord] of [flows_for_grid]. *)
Definition coord (eng : Engine) (gid : Z) : option GridCell :=
  m ← meta_by_id eng !! gid;
  Some {| gc_grid_id := gid; gc_lon := gc_lon m; gc_lat := gc_lat m;
          gc_area_name := gc_area_name m; gc_city_name := gc_city_name m |}.

Definition flows_for_grid {A} `{Num A} (eng : Engine) (fs : appdata A)
    (year grid_id : Z) (direction : string) (topk : Z) (cov : A)
    : result (FlowsResult A) :=
  if bool_decide (direction ∉ ["out"; "in"; "both"]) then Err AssertionError else
  out ← (if bool_decide (direction ∈ ["out"; "both"])
         then select_edges fs edges_by_o o_grid d_grid year grid_id topk cov
         else Ok []);
  inn ← (if bool_decide (direction ∈ ["in"; "both"])
         then select_edges fs edges_by_d d_grid o_grid year grid_id topk cov
         else Ok []);
  (* enrich with coords *)
  let center := meta_by_id eng !! grid_id in
  Ok {| center := center;
        out_edges := omap (λ e, tgt ← coord eng e.1;
                             Some {| fe_o_grid := grid_id; fe_d_grid := e.1;
                                     fe_num_total := e.2;
                                     fe_o := center; fe_d := Some tgt |}) out;
        in_edges := omap (λ e, src ← coord eng e.1;
                            Some {| fe_o_grid := e.1; fe_d_grid := grid_id;
                                    fe_num_total := e.2;
                                    fe_o := Some src; fe_d := center |}) inn |}.

Arguments flows_for_grid {A _ _} eng fs (year grid_id)%_Z direction topk%_Z cov%_Q.

(** *** [/api/flows] *)

(** The [year] parameter: ["all"], a string [int] accepts, or any other. *)
Inductive year_param := YearAll | YearInt (y : Z) | YearOther.

Inductive flows_response (A : Type) :=
  | FlowsGridRequired                      (* 400, "grid_id required" *)
  | FlowsNoIndexes                         (* 404, "no indexes available" *)
  | FlowsIndexMissing (years : list Z)     (* 409, "index missing" *)
  | FlowsYears (data : gmap Z (FlowsResult A)) (* 200, {"years": data} *)
  | FlowsOne (data : FlowsResult A)        (* 200 *)
  | FlowsUnhandled (e : option error).     (* an exception leaves the handler *)
Arguments FlowsGridRequired {A}.
Arguments FlowsNoIndexes {A}.
Arguments FlowsIndexMissing {A} years.
Arguments FlowsYears {A} data.
Arguments FlowsOne {A} data.
Arguments FlowsUnhandled {A} e.

(** The loop over [YEARS] of the ["all"] branch: the dict [data] and the
    list [available], in loop order. *)
Fixpoint flows_all_years {A} `{Num A} (eng : Engine) (fs : appdata A) (years : list Z)
    (grid_id : Z) (direction : string) (topk : Z) (cov : A)
    (data : gmap Z (FlowsResult A)) (available : list Z)
    : result (gmap Z (FlowsResult A) * list Z) :=
  match years with
  | [] => Ok (data, available)
  | y :: years' =>
      if exists_ fs edges_by_o y && exists_ fs edges_by_d y then
        r ← flows_for_grid eng fs y grid_id direction topk cov;
        flows_all_years eng fs years' grid_id direction topk cov
          (<[y := r]> data) (available ++ [y])
      else flows_all_years eng fs years' grid_id direction topk cov data available
  end.

Definition api_flows {A} `{Num A} (eng : Engine) (fs : appdata A) (year : year_param)
    (grid_id : Z) (direction : string) (topk : Z) (cov : A) : flows_response A :=
  if bool_decide (grid_id = 0) then FlowsGridRequired else
  match year with
  | YearAll =>
      match flows_all_years eng fs YEARS grid_id direction topk cov ∅ [] with
      | Err e => FlowsUnhandled (Some e)
      | Ok (data, available) =>
          if bool_decide (available = []) then FlowsNoIndexes else FlowsYears data
      end
  | YearInt y =>
      if negb (exists_ fs edges_by_o y) || negb (exists_ fs edges_by_d y)
      then FlowsIndexMissing [y]
      else match flows_for_grid eng fs y grid_id direction topk cov with
           | Err e => FlowsUnhandled (Some e)
           | Ok data => FlowsOne data
           end
  | YearOther => FlowsUnhandled None
  end.
Arguments flows_all_years {A _ _} eng fs years grid_id%_Z direction topk%_Z cov%_Q
  data available.
Arguments api_flows {A _ _} eng fs year grid_id%_Z direction topk%_Z cov%_Q.

(** *** Hourly series ([DataEngine.hourly_series_for_grid]) *)

(** The value stored for one year: under each of ["out"], ["in"] and
    ["total"] a list holding the series of the single week that is kept. *)
Record HourlySeries := {
  hs_out : list (list Q);
  hs_in : list (list Q);
  hs_total : list (list Q);
}.

(** [[0.0]*24]. *)
Definition zeros24 : list Q := replicate 24 0%Q.

(** The loop over the fetched rows: a row of a week in [weeks] (the
    [week_map] keys) with [0 <= h < 24] overwrites slot [h] of the three
    ["W1"] lists. *)
Definition hourly_fill (weeks : list Z) (tmp : list Q * list Q * list Q)
    (r : HourlyRow Q) : list Q * list Q * list Q :=
  if bool_decide (h_week r ∈ weeks) then
    if bool_decide (0 ≤ h_hour r < 24) then
      let h := Z.to_nat (h_hour r) in
      (<[h := h_out_total r]> tmp.1.1, <[h := h_in_total r]> tmp.1.2,
       <[h := h_total r]> tmp.2)
    else tmp
  else tmp.

(** The body of the loop over [years] for one year whose file exists. *)
Definition hourly_year (table : list (HourlyRow Q)) (grid_id : Z) : HourlySeries :=
  (* SELECT ... WHERE grid_id = ? ORDER BY week, hour *)
  let rows := order_by_keys (λ r, [h_week r; h_hour r])
                (filter (λ r, h_grid_id r = grid_id) table) in
  let weeks_all := order_by_keys (λ w, [w]) (remove_dups (h_week <$> rows)) in
  (* Only keep earliest week *)
  let weeks := take 1 weeks_all in
  let tmp := foldl (hourly_fill weeks) (zeros24, zeros24, zeros24) rows in
  {| hs_out := [tmp.1.1]; hs_in := [tmp.1.2]; hs_total := [tmp.2] |}.

Fixpoint hourly_series_loop (fs : appdata Q) (grid_id : Z) (years : list Z)
    (out : gmap Z HourlySeries) : result (gmap Z HourlySeries) :=
  match years with
  | [] => Ok out
  | y :: years' =>
      if negb (exists_ fs hourly y) then hourly_series_loop fs grid_id years' out
      else
        table ← read_hourly fs y;
        hourly_series_loop fs grid_id years' (<[y := hourly_year table grid_id]> out)
  end.

(** [years = years or YEARS]: an empty list stands for the default too. *)
Definition hourly_series_for_grid (fs : appdata Q) (grid_id : Z) (years : list Z)
    : result (gmap Z HourlySeries) :=
  hourly_series_loop fs grid_id (if bool_decide (years = []) then YEARS else years) ∅.

(** *** [/api/hourly] *)

Inductive hourly_response :=
  | HourlyGridRequired                      (* 400, "grid_id required" *)
  | HourlyOk (out : gmap Z HourlySeries)    (* 200 *)
  | HourlyUnhandled (e : error).

Fixpoint api_hourly_loop (fs : appdata Q) (grid_id : Z) (years : list Z)
    (out : gmap Z HourlySeries) : result (gmap Z HourlySeries) :=
  match years with
  | [] => Ok out
  | y :: years' =>
      if exists_ fs hourly y then
        series ← hourly_series_for_grid fs grid_id [];
        s ← (match series !! y with Some s => Ok s | None => Err KeyError end);
        api_hourly_loop fs grid_id years' (<[y := s]> out)
      else api_hourly_loop fs grid_id years' out
  end.

Definition api_hourly (fs : appdata Q) (grid_id : Z) : hourly_response :=
  if bool_decide (grid_id = 0) then HourlyGridRequired else
  match api_hourly_loop fs grid_id YEARS ∅ with
  | Ok out => HourlyOk out
  | Err e => HourlyUnhandled e
  end.

(** *** Heatmap ([/api/heat]) *)

Inductive heat_response :=
  | HeatBadMetric                                (* 400 *)
  | HeatCannotBuild                              (* 500, "cannot build totals" *)
  | HeatOk (values : list (Z * Q)) (q95 mx : Q) (n : Z)
  | HeatUnhandled (e : error).

(** The rows that pass the metadata and name filters, with the value of the
    requested metric. *)
Definition heat_items (eng : Engine) (metric city area : string)
    (rows : list (TotalRow Q)) : list (Z * Q) :=
  omap (λ r,
    m ← meta_by_id eng !! t_grid_id r;
    if bool_decide (city ≠ "" ∧ gc_city_name m ≠ city) then None
    else if bool_decide (area ≠ "" ∧ gc_area_name m ≠ area) then None
    else Some (t_grid_id r,
               if bool_decide (metric = "total") then t_total r
               else if bool_decide (metric = "in") then t_in_total r
               else t_out_total r)) rows.

(** [int(math.floor(0.95 * (n - 1)))]. *)
Definition q95_index (n : nat) : Z := Qfloor ((95 # 100) * inject_Z (Z.of_nat n - 1)).

(** The same index computed as Python computes it, in binary64:
    [math.floor] of the rounded product of the double nearest to 0.95 and
    [n - 1]. *)
Definition floor_binary64 (x : float) : Z :=
  match Prim2SF x with
  | S754_finite s m e =>
      let q := if bool_decide (0 ≤ e) then Z.pos m * 2 ^ e else Z.pos m / 2 ^ (- e) in
      let exact := bool_decide (0 ≤ e ∨ Z.pos m mod 2 ^ (- e) = 0) in
      if s then (if exact then - q else - q - 1) else q
  | _ => 0
  end.

Definition q95_index_binary64 (n : nat) : Z :=
  floor_binary64 (0.95 * PrimFloat.of_uint63 (Uint63.of_Z (Z.of_nat n - 1)))%float.

(** [vs[int(math.floor(0.95 * (len(vs)-1)))] if len(vs) > 1 else vs[0]]
    on the sorted values. *)
Definition q95_of (vs : list Q) : result Q :=
  if bool_decide (1 < length vs)%nat then py_index vs (q95_index (length vs))
  else py_index vs 0.

(** The summary computed from the filtered items. *)
Definition heat_summary (items : list (Z * Q)) : result heat_response :=
  if bool_decide (items = []) then Ok (HeatOk [] 0 0 0) else
  let vs := order_by_asc id (snd <$> items) in
  q95 ← q95_of vs;
  mx ← py_index vs (-1);
  Ok (HeatOk items q95 mx (Z.of_nat (length items))).

(** The handler from [metric = ...] on, for the [year] that
    [int(request.args.get("year", YEARS[0]))] returned: a missing totals
    file is first built from the edge files. *)
Definition api_heat `{DateEngine} (env : BuildEnv Q) (eng : Engine)
    (year : Z) (metric city area : string) (fs : appdata Q)
    : appdata Q * heat_response :=
  if bool_decide (metric ∉ ["total"; "in"; "out"]) then (fs, HeatBadMetric) else
  let built := if exists_ fs totals year then (fs, Ok tt)
               else build_totals_for_year env year fs in
  match built with
  | (fs', Err _) => (fs', HeatCannotBuild)
  | (fs', Ok _) =>
      (fs', match (rows ← read_totals fs' year;
                   heat_summary (heat_items eng metric city area rows)) with
            | Ok resp => resp
            | Err e => HeatUnhandled e
            end)
  end.

(** *** The low-traffic filter of [/api/label_queue/start] *)

(** [max(0.0, min(100.0, low_pct))]. *)
Definition clamp_pct (p : Q) : Q :=
  let m := if bool_decide (p < 100)%Q then p else 100%Q in
  if bool_decide (0 < m)%Q then m else 0%Q.

(** [low_value], with a negative value replaced by [0]. *)
Definition clamp_low_value (v : Q) : Q := if bool_decide (v < 0)%Q then 0%Q else v.

(** [years_try] and the first of them that has an hourly file. *)
Definition years_try (filter_year : option Z) : list Z :=
  let first := match filter_year with Some y => [y] | None => [] end in
  first ++ filter (λ y, y ∉ first) YEARS.

Definition chosen_year (fs : appdata Q) (filter_year : option Z) : option Z :=
  List.find (λ y, exists_ fs hourly y) (years_try filter_year).

(** [SELECT DISTINCT week FROM read_parquet(p) ORDER BY week]. *)
Definition distinct_weeks (table : list (HourlyRow Q)) : list Z :=
  order_by_keys (λ w, [w]) (remove_dups (h_week <$> table)).

(** [AVG(total) ... GROUP BY grid_id, hour]: the sum and the number of
    rows of each group. *)
Definition avg_by_grid_hour (rows : list (Z * Z * Q)) : list ((Z * Z) * Q) :=
  (λ kv, (kv.1, (kv.2.1 / inject_Z kv.2.2)%Q)) <$>
  group_sum ((λ r, ((r.1.1, r.1.2), (r.2, 1))) <$> rows).

(** The CTEs [hrs], [full24], [h] and [zr], and the final [SELECT]: the
    grids of [gids] whose share of low hours reaches [low_pct / 100]. *)
Definition low_ratio_rows (base : list ((Z * Z) * Q)) (gids : list Z)
    (low_value : Q) : list (Z * Q) :=
  let hrs := seqZ 0 24 in
  let full24 : list (Z * Z) := g ← gids; h ← hrs; [(g, h)] in
  let h : list (Z * Q) := (λ f, (f.1, default 0%Q (assoc f base))) <$> full24 in
  (λ kv, (kv.1, (inject_Z kv.2 / 24)%Q)) <$>
  group_sum ((λ r, (r.1, if bool_decide (r.2 <= low_value)%Q then 1 else 0)) <$> h).

Definition low_grids_sql (table : list (HourlyRow Q)) (weeks : list Z)
    (pool : list Z) (use_pool : bool) (low_value low_pct : Q) : list Z :=
  let base_raw : list (Z * Z * Q) :=
    (λ r, (h_grid_id r, h_hour r, h_total r)) <$>
    filter (λ r, h_week r ∈ weeks) table in
  let zr : list (Z * Q) :=
    if use_pool then
      (* base: base_raw JOIN pool ON grid_id = gid;  gids: the pool *)
      let base := avg_by_grid_hour (br ← base_raw; p ← pool;
                                    if bool_decide (br.1.1 = p) then [br] else []) in
      low_ratio_rows base pool low_value
    else
      (* fallback: gids are the grids that occur in the file *)
      let base := avg_by_grid_hour base_raw in
      low_ratio_rows base (remove_dups ((λ b, b.1.1) <$> base)) low_value in
  fst <$> filter (λ gr : Z * Q, low_pct / 100 <= gr.2)%Q zr.

(** The set [bad_set] of the handler.  [low_pct] and [low_value] are the
    request fields after [float]; [use_pool] tells whether the temporary
    table [pool] could be created.  An exception inside the [try] leaves
    the pool as it was. *)
Definition bad_set (fs : appdata Q) (pool : list Z) (filter_year : option Z)
    (low_value : option Q) (low_pct : option Q) (use_pool : bool) : gset Z :=
  let low_pct := clamp_pct <$> low_pct in
  let low_value := clamp_low_value (default 0%Q low_value) in
  match low_pct with
  | Some pct =>
      if bool_decide (pool ≠ [] ∧ (0 < pct)%Q) then
        match chosen_year fs filter_year with
        | Some y =>
            match read_hourly fs y with
            | Ok table =>
                let weeks := distinct_weeks table in
                if bool_decide (weeks ≠ []) then
                  list_to_set (low_grids_sql table weeks pool use_pool low_value pct)
                else ∅
            | Err _ => ∅
            end
        | None => ∅
        end
      else ∅
  | None => ∅
  end.

(** [pool = [gid for gid in pool if gid not in bad_set]]. *)
Definition pool_after (fs : appdata Q) (pool : list Z) (filter_year : option Z)
    (low_value : option Q) (low_pct : option Q) (use_pool : bool) : list Z :=
  filter (λ gid, gid ∉ bad_set fs pool filter_year low_value low_pct use_pool) pool.

(** ** The label queue pointer *)

(** The fields of [label_queue.json] the pointer handlers use. *)
Record QueueState := { queue : list Z; index : Z }.

(** [_read_queue]: the stored state, or the empty queue when the file is
    missing or unreadable. *)
Definition _read_queue (queue_json : option QueueState) : QueueState :=
  default {| queue := []; index := 0 |} queue_json.

Record PointerResponse := {
  resp_index : Z;
  resp_has_more : option bool;   (* absent from the answer of [set] *)
  resp_current : option Z;
  resp_total : Z;
}.

(** Each handler returns the file it wrote and its answer; the answer is an
    error when computing [current] raises, after the write. *)
Definition api_label_queue_advance (queue_json : option QueueState)
    : option QueueState * result PointerResponse :=
  let q := _read_queue queue_json in
  let len := Z.of_nat (length (queue q)) in
  let idx := if bool_decide (index q < len) then index q + 1 else index q in
  let has_more := bool_decide (idx < len) in
  (Some {| queue := queue q; index := idx |},
   cur ← (if has_more then Some <$> py_index (queue q) idx else Ok None);
   Ok {| resp_index := idx; resp_has_more := Some has_more;
         resp_current := cur; resp_total := len |}).

Definition api_label_queue_back (queue_json : option QueueState)
    : option QueueState * result PointerResponse :=
  let q := _read_queue queue_json in
  let len := Z.of_nat (length (queue q)) in
  let idx := if bool_decide (index q > 0) then index q - 1 else index q in
  let has_more := bool_decide (idx < len) in
  (Some {| queue := queue q; index := idx |},
   cur ← (if bool_decide (idx < len) then Some <$> py_index (queue q) idx else Ok None);
   Ok {| resp_index := idx; resp_has_more := Some has_more;
         resp_current := cur; resp_total := len |}).

(** [queue.index(gid)]: the first position of [gid]. *)
Definition list_index (gid : Z) (l : list Z) : option Z :=
  (λ ix, Z.of_nat ix.1) <$> list_find (λ x, x = gid) l.

(** The body of [set] for a request whose JSON body [data] is an object.
    [req_index] is [int(data.get("index"))] when that succeeds and [None]
    when it raises; [req_grid_id] is [None] when ["grid_id"] is absent or
    null, and otherwise [int(gid)] when that succeeds. *)
Definition api_label_queue_set (queue_json : option QueueState)
    (req_index : option Z) (req_grid_id : option (option Z))
    : option QueueState * result PointerResponse :=
  let q := _read_queue queue_json in
  let len := Z.of_nat (length (queue q)) in
  let idx :=
    match req_grid_id with
    | Some gid =>
        if bool_decide (queue q ≠ []) then
          Some (default (index q) (g ← gid; list_index g (queue q)))
        else req_index
    | None => req_index
    end in
  let idx := default (index q) idx in
  let idx := if bool_decide (idx < 0) then 0 else idx in
  let idx := if bool_decide (idx > len) then len else idx in
  (Some {| queue := queue q; index := idx |},
   cur ← (if bool_decide (idx < len) then Some <$> py_index (queue q) idx else Ok None);
   Ok {| resp_index := idx; resp_has_more := None;
         resp_current := cur; resp_total := len |}).

(** ** Predicates used in the statements *)

(** The pointer of a queue state lies between [0] and the queue length. *)
Definition queue_inv (q : QueueState) : Prop :=
  0 ≤ index q ≤ Z.of_nat (length (queue q)).

(** [total_sum = out_sum + in_sum] on a row of the hourly aggregate and on
    a row of the grid totals. *)
Definition hourly_sum_inv {A} `{Arith A} (r : HourlyRow A) : Prop :=
  h_total r = add (h_out_total r) (h_in_total r).
Definition total_sum_inv {A} `{Arith A} (r : TotalRow A) : Prop :=
  t_total r = add (t_out_total r) (t_in_total r).

(** Raw rows with binary64 counts: grid 100 sends 0.1 and 0.2 on two days of
    ISO week 1 of 2021 and receives 0.3 on the second day, all at hour 8. *)
Definition rounding_rows : list (RawRow float) :=
  [ {| date_dt := "20210104"; raw_hour := 8; raw_o_grid := 100; raw_d_grid := 200;
       raw_num_total := 0.1%float |};
    {| date_dt := "20210105"; raw_hour := 8; raw_o_grid := 100; raw_d_grid := 200;
       raw_num_total := 0.2%float |};
    {| date_dt := "20210105"; raw_hour := 8; raw_o_grid := 300; raw_d_grid := 100;
       raw_num_total := 0.3%float |} ].

(** The same rows with integer counts. *)
Definition integer_rows : list (RawRow Z) :=
  [ {| date_dt := "20210104"; raw_hour := 8; raw_o_grid := 100; raw_d_grid := 200;
       raw_num_total := 1 |};
    {| date_dt := "20210105"; raw_hour := 8; raw_o_grid := 100; raw_d_grid := 200;
       raw_num_total := 2 |};
    {| date_dt := "20210105"; raw_hour := 8; raw_o_grid := 300; raw_d_grid := 100;
       raw_num_total := 3 |} ].

(** *** Builds *)

Section build_plan.
Context {A : Type} `{Arith A} `{DateEngine}.

(** The files a call [_build_year(y, build_edges_o, build_edges_d,
    build_hourly)] writes from the raw rows [src], in the order in which it
    writes them, each with its new content. *)
Definition build_plan (src : list (RawRow A)) (build_edges_o build_edges_d build_hourly : bool)
    : list (kind * table A) :=
  (if build_edges_o then [(edges_by_o, TEdges (edges_by_o_rows src))] else []) ++
  (if build_edges_d then [(edges_by_d, TEdges (edges_by_d_rows src))] else []) ++
  (if build_hourly then [(hourly, THourly (hourly_rows src))] else []) ++
  [(totals, TTotals (totals_rows (edges_view src) (edges_view src)))].

(** One step of a build: remove the published file, then write the new one. *)
Definition build_step (env : BuildEnv A) (y : Z) (kt : kind * table A)
    : build (appdata A) unit :=
  unlink kt.1 y;; copy_to env kt.1 y kt.2.

Fixpoint run_plan (env : BuildEnv A) (y : Z) (plan : list (kind * table A))
    : build (appdata A) unit :=
  match plan with
  | [] => mret tt
  | kt :: plan' => build_step env y kt;; run_plan env y plan'
  end.

(** The directory after the steps of [plan] have all been written. *)
Definition written (y : Z) (plan : list (kind * table A)) (fs : appdata A) : appdata A :=
  foldl (λ fs kt, <[(kt.1, y) := kt.2]> fs) fs plan.

(** The reading of C1: a build that raises leaves every file of the year as
    it was published before the build. *)
Definition failed_build_keeps_published (env : BuildEnv A) (y : Z)
    (build_edges_o build_edges_d build_hourly : bool) (fs : appdata A) : Prop :=
  ∀ k e,
    (_build_year env y build_edges_o build_edges_d build_hourly fs).2 = Err e →
    (_build_year env y build_edges_o build_edges_d build_hourly fs).1 !! (k, y) = fs !! (k, y).

End build_plan.

(** A published by-origin index of 2021, and a rebuild of 2021 during which
    the engine raises while it writes the new by-origin index. *)
Definition published_2021 : appdata Z :=
  {[ (edges_by_o, 2021) := TEdges [ {| o_grid := 100; d_grid := 200; num_total := 5 |} ] ]}.

Definition failing_env : BuildEnv Z :=
  {| year_csv := {[ 2021 := integer_rows ]};
     copy_raises := λ k y, bool_decide (k = edges_by_o ∧ y = 2021) |}.

(** *** Flow queries *)

(** The counterpart/flow pairs of the rows of [rows] incident to [grid_id]
    ([key := o_grid], [other := d_grid] for outbound edges). *)
Definition incident {A} (key other : Edge A → Z) (grid_id : Z) (rows : list (Edge A))
    : list (Z * A) :=
  (λ r, (other r, num_total r)) <$> filter (λ r, key r = grid_id) rows.

(** "Keep the prefix whose cumulative sum is at most [bound]": the rows of
    [l] from the front, as long as the running sum, the current row
    included, stays at or below [bound]. *)
Fixpoint coverage_prefix {A} `{Num A} (bound acc : A) (l : list (Z * A)) : list (Z * A) :=
  match l with
  | [] => []
  | e :: l' =>
      if leb (add acc e.2) bound
      then e :: coverage_prefix bound (add acc e.2) l' else []
  end.

(** The counterpart/flow pairs of the outbound and inbound result edges. *)
Definition out_pairs {A} (r : FlowsResult A) : list (Z * A) :=
  (λ e, (fe_d_grid e, fe_num_total e)) <$> out_edges r.
Definition in_pairs {A} (r : FlowsResult A) : list (Z * A) :=
  (λ e, (fe_o_grid e, fe_num_total e)) <$> in_edges r.

(** The pairs whose counterpart is in the grid metadata. *)
Definition known {A} (eng : Engine) (l : list (Z * A)) : list (Z * A) :=
  filter (λ e, is_Some (meta_by_id eng !! e.1)) l.

(** The laws of the arithmetic that the coverage rule relies on.  They
    speak of non-negative values only; exact rational arithmetic has them
    and so has binary64, where a sum is rounded and a comparison with NaN
    is false. *)
Class NumLaws (A : Type) `{Num A} : Prop := {
  leb_zero_zero : leb zero zero = true;
  leb_trans : ∀ x y z : A, leb x y = true → leb y z = true → leb x z = true;
  leb_total : ∀ x y : A,
    leb zero x = true → leb zero y = true → leb x y = true ∨ leb y x = true;
  ltb_asym : ∀ x y : A, ltb x y = true → ltb y x = false;
  add_nonneg_le : ∀ a x : A,
    leb zero a = true → leb zero x = true → leb a (add a x) = true;
  mul_cov_nonneg : ∀ c t : A,
    ltb zero c = true → ltb one c = false → leb zero t = true →
    leb zero (mul c t) = true;
}.

(** The selection the specification describes for the edges [e] of a grid,
    coverage [c] and cap [topk]: [sel] is the front of a ranking of [e] by
    descending flow; it has at most [topk] edges; the running sum of every
    edge it keeps, that edge included, is at most [c × total]; and unless
    the cap cut it, the first edge it leaves out passes that bound. *)
Definition coverage_cut {A} `{Num A} (e : list (Z * A)) (c : A) (topk : Z)
    (sel : list (Z * A)) : Prop :=
  ∃ rest,
    sel ++ rest ≡ₚ e ∧
    StronglySorted (λ x y, leb y.2 x.2 = true) (sel ++ rest) ∧
    Z.of_nat (length sel) ≤ topk ∧
    (∀ n, (0 < n ≤ length sel)%nat →
       leb (sum_over (take n sel).*2) (mul c (sum_over e.*2)) = true) ∧
    (Z.of_nat (length sel) < topk →
     ∀ x, head rest = Some x →
       leb (sum_over (sel ++ [x]).*2) (mul c (sum_over e.*2)) = false).

(** The 2021 edge files of a grid 100 with three outbound partners (200,
    300 and 400) and one inbound partner (300), and metadata that knows the
    grids 100, 200 and 300 but not 400. *)
Definition flows_cell (gid : Z) : GridCell :=
  {| gc_grid_id := gid; gc_lon := 113; gc_lat := 23;
     gc_area_name := "area"; gc_city_name := "city" |}.

Definition flows_meta : Engine := load_metadata [flows_cell 100; flows_cell 200; flows_cell 300].

Definition flows_edges : list (Edge Q) :=
  [ {| o_grid := 100; d_grid := 200; num_total := 5%Q |};
    {| o_grid := 100; d_grid := 300; num_total := 15%Q |};
    {| o_grid := 100; d_grid := 400; num_total := 30%Q |};
    {| o_grid := 300; d_grid := 100; num_total := 2%Q |} ].

Definition flows_fs : appdata Q :=
  {[ (edges_by_o, 2021) := TEdges (order_by_keys (λ e, [o_grid e]) flows_edges);
     (edges_by_d, 2021) := TEdges (order_by_keys (λ e, [d_grid e]) flows_edges) ]}.

(** The 2021 edge files with binary64 flows: grid 100 sends [v1] to grid
    200 and [v2] to grid 300. *)
Definition flows_edges64 (v1 v2 : float) : list (Edge float) :=
  [ {| o_grid := 100; d_grid := 200; num_total := v1 |};
    {| o_grid := 100; d_grid := 300; num_total := v2 |} ].

Definition flows_fs64 (v1 v2 : float) : appdata float :=
  {[ (edges_by_o, 2021) := TEdges (flows_edges64 v1 v2);
     (edges_by_d, 2021) := TEdges (flows_edges64 v1 v2) ]}.

(** Both edge files of year [y] exist. *)
Definition has_edges {A} (fs : appdata A) (y : Z) : bool :=
  exists_ fs edges_by_o y && exists_ fs edges_by_d y.

(** The years of a list whose edge artifacts exist, and those of the
    configured years. *)
Definition years_with_edges {A} (fs : appdata A) (years : list Z) : list Z :=
  filter (λ y, has_edges fs y) years.
Definition available_years {A} (fs : appdata A) : list Z := years_with_edges fs YEARS.

(** *** Hourly series *)

(** The rows of a grid as the hourly query fetches them, and the smallest
    ISO week number among them. *)
Definition fetched_rows (table : list (HourlyRow Q)) (grid_id : Z) : list (HourlyRow Q) :=
  order_by_keys (λ r, [h_week r; h_hour r]) (filter (λ r, h_grid_id r = grid_id) table).

Definition earliest_week (table : list (HourlyRow Q)) (grid_id : Z) : option Z :=
  head (order_by_keys (λ w, [w]) (remove_dups (h_week <$> fetched_rows table grid_id))).

(** Readable hourly files: a file that exists holds an hourly table. *)
Definition hourly_files_readable (fs : appdata Q) : Prop :=
  ∀ y, exists_ fs hourly y = true → ∃ table, read_hourly fs y = Ok table.

(** The three ["W1"] lists have their 24 slots. *)
Definition tmp_ok (tmp : list Q * list Q * list Q) : Prop :=
  length tmp.1.1 = 24%nat ∧ length tmp.1.2 = 24%nat ∧ length tmp.2 = 24%nat.

(** The row of the grid's earliest week at hour [h]: the last one in file
    order, should the file hold several. *)
Definition earliest_row (table : list (HourlyRow Q)) (grid_id h : Z) : option (HourlyRow Q) :=
  w ← earliest_week table grid_id;
  last (filter (λ r, h_grid_id r = grid_id ∧ h_week r = w ∧ h_hour r = h) table).

(** The value of one slot: the column [proj] of that row, and zero when
    there is no such row. *)
Definition slot (proj : HourlyRow Q → Q) (table : list (HourlyRow Q)) (grid_id h : Z) : Q :=
  from_option proj 0%Q (earliest_row table grid_id h).

(** The series of one year, slot by slot. *)
Definition earliest_week_series (table : list (HourlyRow Q)) (grid_id : Z) : HourlySeries :=
  {| hs_out := [(λ h, slot h_out_total table grid_id h) <$> seqZ 0 24];
     hs_in := [(λ h, slot h_in_total table grid_id h) <$> seqZ 0 24];
     hs_total := [(λ h, slot h_total table grid_id h) <$> seqZ 0 24] |}.

(** An hourly file of 2021: grid 100 has rows in the weeks 3 and 2, grid 5
    in week 1; hour 30 is out of range. *)
Definition hourly_sample : list (HourlyRow Q) :=
  [ {| h_grid_id := 5; h_week := 1; h_hour := 0;
       h_out_total := 8%Q; h_in_total := 8%Q; h_total := 16%Q |};
    {| h_grid_id := 100; h_week := 2; h_hour := 7;
       h_out_total := 3%Q; h_in_total := 4%Q; h_total := 7%Q |};
    {| h_grid_id := 100; h_week := 2; h_hour := 30;
       h_out_total := 9%Q; h_in_total := 9%Q; h_total := 18%Q |};
    {| h_grid_id := 100; h_week := 3; h_hour := 5;
       h_out_total := 1%Q; h_in_total := 2%Q; h_total := 3%Q |};
    {| h_grid_id := 100; h_week := 3; h_hour := 7;
       h_out_total := 50%Q; h_in_total := 50%Q; h_total := 100%Q |} ].

Definition hourly_fs : appdata Q := {[ (hourly, 2021) := THourly hourly_sample ]}.

(** *** The low-traffic filter *)

(** The reading of C3: raising [low_pct] never removes a grid from the
    flagged set. *)
Definition low_pct_monotone (fs : appdata Q) (pool : list Z) (filter_year : option Z)
    (low_value : option Q) (use_pool : bool) : Prop :=
  ∀ p1 p2 : Q, (p1 < p2)%Q →
    bad_set fs pool filter_year low_value (Some p1) use_pool ⊆
    bad_set fs pool filter_year low_value (Some p2) use_pool.

(** The grid has no row in the hourly table. *)
Definition no_hourly_rows (table : list (HourlyRow Q)) (grid_id : Z) : Prop :=
  ∀ r, r ∈ table → h_grid_id r ≠ grid_id.

(** The reading of C9: a candidate without hourly rows in the chosen year's
    file is flagged with [low_value = 0] and [low_pct = 50]. *)
Definition zero_row_grid_flagged (fs : appdata Q) (pool : list Z)
    (filter_year : option Z) (grid_id : Z) : Prop :=
  ∀ y table,
    chosen_year fs filter_year = Some y → read_hourly fs y = Ok table →
    grid_id ∈ pool → no_hourly_rows table grid_id →
    grid_id ∈ bad_set fs pool filter_year (Some 0%Q) (Some 50%Q) true.

(** An hourly file of 2021 in which grid 100 is busy (total 5) in the hours
    0 to 11 of week 1 and has no row for the hours 12 to 23, and grid 7 has
    one row. *)
Definition half_busy : list (HourlyRow Q) :=
  ((λ h, {| h_grid_id := 100; h_week := 1; h_hour := h;
            h_out_total := 3%Q; h_in_total := 2%Q; h_total := 5%Q |}) <$> seqZ 0 12) ++
  [ {| h_grid_id := 7; h_week := 2; h_hour := 3;
       h_out_total := 1%Q; h_in_total := 1%Q; h_total := 2%Q |} ].

Definition half_busy_fs : appdata Q := {[ (hourly, 2021) := THourly half_busy ]}.

(** An hourly file of 2021 that exists and has no rows (every raw date
    failed to parse). *)
Definition empty_hourly_fs : appdata Q := {[ (hourly, 2021) := THourly [] ]}.

Definition Zsum (l : list Z) : Z := foldr Z.add 0 l.

(** ** Further definitions used in the statements *)

(** [SUM] over the rows of one group: the values added in input order to
    the first of them; no row, no group. *)
Definition sum1 {V} `{Arith V} (vs : list V) : option V :=
  match vs with [] => None | v :: vs' => Some (foldl add v vs') end.

(** Lexicographic order on [(grid_id, week, hour)], the sort key of the
    hourly file. *)
Definition hourly_key_le {A} (x y : HourlyRow A) : Prop :=
  h_grid_id x < h_grid_id y ∨
  (h_grid_id x = h_grid_id y ∧
   (h_week x < h_week y ∨ (h_week x = h_week y ∧ h_hour x ≤ h_hour y))).

(** A data directory with the raw CSV of 2021 only, on which no [COPY]
    raises. *)
Definition csv_2021_env : BuildEnv Z :=
  {| year_csv := {[ 2021 := integer_rows ]}; copy_raises := λ _ _, false |}.

(** The rows of [integer_rows] with rational counts. *)
Definition rational_rows : list (RawRow Q) :=
  (λ r, {| date_dt := date_dt r; raw_hour := raw_hour r; raw_o_grid := raw_o_grid r;
           raw_d_grid := raw_d_grid r; raw_num_total := inject_Z (raw_num_total r) |}) <$>
  integer_rows.

(** The three files [ensure_built] looks for exist for year [y]. *)
Definition complete {A} (fs : appdata A) (y : Z) : bool :=
  exists_ fs edges_by_o y && exists_ fs edges_by_d y && exists_ fs hourly y.

(** ** [/api/meta/one]

    [gid] is [int(request.args.get('grid_id','0'))], or [0] when that
    raises. *)
Inductive meta_one_response :=
  | MetaGridRequired             (* 400, "grid_id required" *)
  | MetaNotFound                 (* 404, {} *)
  | MetaOne (m : GridCell).      (* 200 *)

Definition api_meta_one (eng : Engine) (gid : Z) : meta_one_response :=
  if bool_decide (gid = 0) then MetaGridRequired else
  match meta_by_id eng !! gid with
  | None => MetaNotFound
  | Some m => MetaOne m
  end.

(** ** [/api/heat], from the request *)

(** A query parameter the handler passes to [int]: the integer, or a
    string that [int] rejects. *)
Inductive int_param := IntParam (z : Z) | NotInt.

(** The handler from its first line:
    [year = int(request.args.get("year", YEARS[0]))] is outside any [try],
    so a year that is no integer raises [ValueError] before anything else
    is done; [api_heat] above is the handler from there on. *)
Definition api_heat_request `{DateEngine} (env : BuildEnv Q) (eng : Engine)
    (year : int_param) (metric city area : string) (fs : appdata Q)
    : appdata Q * heat_response :=
  match year with
  | NotInt => (fs, HeatUnhandled ValueError)
  | IntParam y => api_heat env eng y metric city area fs
  end.

(** ** Sequences of pointer requests *)

(** The JSON body of a [set] request as
    [data = request.get_json(force=True, silent=True) or {}] and the two
    [data.get] see it.  [BodyObject]: an object, with [req_index] and
    [req_grid_id] read as [api_label_queue_set] describes; a body that is
    missing, unparseable or falsy ([null], [0], [""], [[]], [false]) counts
    as the empty object.  [BodyNotObject]: any other value (a non-empty
    array or string, a non-zero number, [true]), which has no [get]. *)
Inductive set_body :=
  | BodyObject (req_index : option Z) (req_grid_id : option (option Z))
  | BodyNotObject.

(** A request to one of the pointer handlers. *)
Inductive queue_op :=
  | OpAdvance
  | OpBack
  | OpSet (body : set_body).

(** [set] on a body that is no object raises [AttributeError] at
    [data.get("index")], after [_read_queue] and before any write. *)
Definition run_op (queue_json : option QueueState) (op : queue_op)
    : option QueueState * result PointerResponse :=
  match op with
  | OpAdvance => api_label_queue_advance queue_json
  | OpBack => api_label_queue_back queue_json
  | OpSet (BodyObject req_index req_grid_id) =>
      api_label_queue_set queue_json req_index req_grid_id
  | OpSet BodyNotObject => (queue_json, Err AttributeError)
  end.

(** The requests of [ops] one after the other, each on the file the one
    before wrote: the file at the end and the answers in order. *)
Fixpoint run_ops (queue_json : option QueueState) (ops : list queue_op)
    : option QueueState * list (result PointerResponse) :=
  match ops with
  | [] => (queue_json, [])
  | op :: ops' =>
      let r := run_op queue_json op in
      let rs := run_ops r.1 ops' in
      (rs.1, r.2 :: rs.2)
  end.

(** What a request is answered on a queue of [queue] whose pointer is in
    range: [set] with a body that is no object raises [AttributeError];
    every other request gets an answer with an index between [0] and the
    queue length, the queue length as [total] and, as [current], the queue
    element at that index (none at the end of the queue). *)
Definition answered (queue : list Z) (op : queue_op) (r : result PointerResponse) : Prop :=
  match op with
  | OpSet BodyNotObject => r = Err AttributeError
  | _ => ∃ resp, r = Ok resp ∧
           0 ≤ resp_index resp ≤ Z.of_nat (length queue) ∧
           resp_total resp = Z.of_nat (length queue) ∧
           resp_current resp = queue !! Z.to_nat (resp_index resp)
  end.

(** ** [/api/label_queue/start] *)

(** The string functions of the Python runtime the handlers call, and the
    permutation [random.Random(seed).shuffle] applies for the seed of the
    request. *)
Class PyRuntime := {
  str_strip : string → string;
  str_lower : string → string;
  shuffle : list Z → list Z;
}.

(** [kw in text]. *)
Definition contains (kw text : string) : bool :=
  bool_decide (is_Some (String.index 0 kw text)).

Section label_queue_start.
Context `{PyRuntime}.

(** [_unlabeled_grid_ids(filters)]; [labeled] is the set of grid ids of the
    rows [_read_labels] returns. *)
Definition _unlabeled_grid_ids (eng : Engine) (labeled : gset Z)
    (city area keyword : string) : list Z :=
  let kw := str_lower (str_strip keyword) in
  omap (λ m,
    if bool_decide (gc_grid_id m ∈ labeled) then None
    else if bool_decide (city ≠ "" ∧ gc_city_name m ≠ city) then None
    else if bool_decide (area ≠ "" ∧ gc_area_name m ≠ area) then None
    else if bool_decide (kw ≠ "") &&
            negb (contains kw (str_lower (gc_city_name m +:+ " " +:+ gc_area_name m)))
         then None
    else Some (gc_grid_id m)) (meta_items eng).

(** The body of the handler after the request fields are read: [count] is
    [int(data.get("count", 20))], [low_pct] and [zero_pct] the two fields
    after [float], [use_pool] whether the temporary table could be created.
    The result is the queue file the handler writes and returns. *)
Definition api_label_queue_start (eng : Engine) (fs : appdata Q) (labeled : gset Z)
    (count : Z) (city area keyword : string)
    (low_pct zero_pct low_value : option Q) (filter_year : option Z) (use_pool : bool)
    : QueueState :=
  let low_pct := match low_pct with Some p => Some p | None => zero_pct end in
  let pool := _unlabeled_grid_ids eng labeled city area keyword in
  let pool := pool_after fs pool filter_year low_value low_pct use_pool in
  if bool_decide (pool = []) then {| queue := []; index := 0 |}
  else
    let pool := shuffle pool in
    {| queue := take (Z.to_nat (Z.max 1 count)) pool; index := 0 |}.

End label_queue_start.

(** ** [/api/low_filter_debug] *)

Inductive debug_response :=
  | DebugNoHourly                      (* 404, "no hourly parquet available" *)
  | DebugNoWeeks (year : Z)            (* 404, "no weeks in parquet" *)
  | DebugError                         (* 500, the engine raised *)
  | DebugOk (year : Z) (ratio : Q) (le_count : Z) (decision_exclude : bool)
            (hours : list (Z * Q * bool)).

(** The rows of the query: for each hour of the day, the average [total]
    of the grid's rows of that hour over the weeks of [weeks] ([0] when
    there is none), and whether it is at most [low_value]. *)
Definition debug_hours (table : list (HourlyRow Q)) (weeks : list Z) (grid_id : Z)
    (low_value : Q) : list (Z * Q * bool) :=
  let base_raw : list (Z * Q) :=
    (λ r, (h_hour r, h_total r)) <$>
    filter (λ r, h_week r ∈ weeks ∧ h_grid_id r = grid_id) table in
  let base : list (Z * Q) :=
    (λ kv, (kv.1, (kv.2.1 / inject_Z kv.2.2)%Q)) <$>
    group_sum ((λ r, (r.1, (r.2, 1))) <$> base_raw) in
  (λ h, let avg := default 0%Q (assoc h base) in
        (h, avg, bool_decide (avg <= low_value)%Q)) <$> seqZ 0 24.

(** The handler, for a request whose [grid_id] parses; [year], [low_value]
    and [low_pct] are the fields after parsing (with their defaults). *)
Definition api_low_filter_debug (fs : appdata Q) (grid_id : Z) (year : option Z)
    (low_value low_pct : Q) : debug_response :=
  match chosen_year fs year with
  | None => DebugNoHourly
  | Some y =>
      match read_hourly fs y with
      | Err _ => DebugError
      | Ok table =>
          let weeks := distinct_weeks table in
          if bool_decide (weeks = []) then DebugNoWeeks y else
          let hours := debug_hours table weeks grid_id low_value in
          let le_cnt := Z.of_nat (length (filter (λ r : Z * Q * bool, r.2 = true) hours)) in
          let ratio := if bool_decide (hours ≠ []) then (inject_Z le_cnt / 24)%Q else 0%Q in
          let decision :=
            if bool_decide (0 < low_pct)%Q then bool_decide (low_pct / 100 <= ratio)%Q
            else false in
          DebugOk y ratio le_cnt decision hours
      end
  end.

(** A runtime for examples: strings without surrounding blanks or upper
    case, and a shuffle that reverses the list. *)
Definition sample_runtime : PyRuntime :=
  {| str_strip := id; str_lower := id; shuffle := reverse |}.

(** ** Column detection ([detect_cols]) *)

(** The local function [pick]: the first candidate that is a column, or the
    default. *)
Definition pick (cols cands : list string) (default : string) : string :=
  match List.find (λ c, bool_decide (c ∈ cols)) cands with
  | Some c => c
  | None => default
  end.

(** The mapping from the canonical names to the columns of the file. *)
Record ColMap := {
  cm_date_dt : string;
  cm_time_ : string;
  cm_o_grid : string;
  cm_d_grid : string;
  cm_num_total : string;
}.

(** The candidate names of each canonical column, in the order tried. *)
Definition date_dt_cands : list string := ["date_dt"; "date"].
Definition time__cands : list string := ["time_"; "time"; "hour"].
Definition o_grid_cands : list string := ["o_grid"; "o_grid_500"; "o"].
Definition d_grid_cands : list string := ["d_grid"; "d_grid_500"; "d"].
Definition num_total_cands : list string := ["num_total"; "flow"; "count"].

(** [detect_cols] on the header row of the CSV. *)
Definition detect_cols `{PyRuntime} (header : list string) : ColMap :=
  let cols := str_strip <$> header in
  {| cm_date_dt := pick cols date_dt_cands "date_dt";
     cm_time_ := pick cols time__cands "time";
     cm_o_grid := pick cols o_grid_cands "o_grid_500";
     cm_d_grid := pick cols d_grid_cands "d_grid_500";
     cm_num_total := pick cols num_total_cands "num_total" |}.

(** ** Simplification of boundary rings ([_rdp]) *)

(** [math.hypot]. *)
Class PyMath := { hypot : Q → Q → Q }.

Definition point : Type := Q * Q.

Section rdp.
Context `{PyMath}.

(** The local function [dist]: the distance from [p] to the segment from
    [a] to [b]. *)
Definition dist (p a b : point) : Q :=
  let '(x, y) := p in
  let '(x1, y1) := a in
  let '(x2, y2) := b in
  if Qeq_bool x1 x2 && Qeq_bool y1 y2 then hypot (x - x1) (y - y1)
  else
    let t := (((x - x1) * (x2 - x1) + (y - y1) * (y2 - y1)) /
              ((x2 - x1) ^ 2 + (y2 - y1) ^ 2))%Q in
    (* t = max(0, min(1, t)) *)
    let t := if bool_decide (t < 1)%Q then t else 1%Q in
    let t := if bool_decide (0 < t)%Q then t else 0%Q in
    let px := (x1 + t * (x2 - x1))%Q in
    let py := (y1 + t * (y2 - y1))%Q in
    hypot (x - px) (y - py).

(** The loop of [rdp_rec]: [dmax] and [idx] after the points
    [pts[1] .. pts[len - 2]] have been compared with the chord from
    [pts[0]] to [pts[-1]]. *)
Definition farthest (pts : list point) : Q * nat :=
  match pts with
  | [] => (0%Q, 0%nat)
  | a :: rest =>
      let b := default a (last rest) in
      foldl (λ acc ip, let d := dist ip.2 a b in
                       if bool_decide (acc.1 < d)%Q then (d, ip.1) else acc)
            (0%Q, 0%nat) (zip (seq 1 (length rest - 1)) rest)
  end.

(** [rdp_rec] with [depth] nested calls available; [None] when the call
    raises: the recursion does not end within that depth
    ([RecursionError]), or [pts] is empty ([IndexError]). *)
Fixpoint rdp_rec (depth : nat) (epsilon : Q) (pts : list point) : option (list point) :=
  match depth with
  | O => None
  | S depth' =>
      let '(dmax, idx) := farthest pts in
      if bool_decide (epsilon < dmax)%Q then
        res1 ← rdp_rec depth' epsilon (take (S idx) pts);
        res2 ← rdp_rec depth' epsilon (drop idx pts);
        Some (removelast res1 ++ res2)
      else
        match pts with
        | [] => None
        | a :: rest => Some [a; default a (last rest)]
        end
  end.

Definition _rdp (depth : nat) (points : list point) (epsilon : Q) : option (list point) :=
  if bool_decide (length points < 3)%nat then Some points
  else rdp_rec depth epsilon points.

(** A simplification within tolerance: the kept points cut the line into
    runs, and every point of a run is within [epsilon] of the chord from
    the first to the last point of the run. *)
Inductive within_tolerance (epsilon : Q) : list point → list point → Prop :=
  | wt_chord (a b : point) (mid : list point) :
      Forall (λ p, dist p a b <= epsilon)%Q mid →
      within_tolerance epsilon (a :: mid ++ [b]) [a; b]
  | wt_split (l1 r1 : list point) (x : point) (l2 r2 : list point) :
      within_tolerance epsilon (l1 ++ [x]) (r1 ++ [x]) →
      within_tolerance epsilon (x :: l2) (x :: r2) →
      within_tolerance epsilon (l1 ++ x :: l2) (r1 ++ x :: r2).

End rdp.

(** A runtime for examples, with the squared length for the length. *)
Definition sample_math : PyMath := {| hypot := λ dx dy, (dx * dx + dy * dy)%Q |}.

Definition sample_ring : list point :=
  [(0, 0); (1, 0); (2, 3); (3, 0); (4, 0)]%Q.

(** * Properties *)

(** ** Sorting and grouping *)

Section sorting_facts.
Context {A : Type} (leb : A → A → bool).

Lemma insert_sorted_perm x l : insert_sorted leb x l ≡ₚ x :: l.
Proof.
  induction l as [|y l IH]; simpl; [done |].
  destruct (leb x y); [done |].
  rewrite IH. apply Permutation_swap.
Qed.

Lemma sort_by_perm l : sort_by leb l ≡ₚ l.
Proof.
  induction l as [|x l IH]; simpl; [done |].
  by rewrite insert_sorted_perm, IH.
Qed.

Lemma sort_by_length l : length (sort_by leb l) = length l.
Proof. by rewrite sort_by_perm. Qed.

Lemma sort_by_Forall (P : A → Prop) l : Forall P l → Forall P (sort_by leb l).
Proof. by rewrite sort_by_perm. Qed.

Lemma sort_by_elem_of x l : x ∈ sort_by leb l ↔ x ∈ l.
Proof. by rewrite sort_by_perm. Qed.

Lemma sort_by_nil_inv l : sort_by leb l = [] → l = [].
Proof.
  intros Hs. apply Permutation_nil_r. by rewrite <- Hs, sort_by_perm.
Qed.

Lemma insert_sorted_head x l :
  l = [] ∨ (∃ y l', l = y :: l' ∧ leb x y = true) → insert_sorted leb x l = x :: l.
Proof. intros [-> | (y & l' & -> & Hxy)]; simpl; [done | by rewrite Hxy]. Qed.

(** The sort leaves a sorted list as it is (it is stable). *)
Lemma sort_by_sorted l : sorted_by leb l → sort_by leb l = l.
Proof.
  induction 1 as [|x l Hl IH Hhd]; simpl; [done |].
  rewrite IH. apply insert_sorted_head.
  destruct Hhd as [|y l' Hxy]; [by left | right; eauto].
Qed.

Lemma insert_sorted_sorted x l :
  (∀ a b, leb a b = false → leb b a = true) →
  sorted_by leb l → sorted_by leb (insert_sorted leb x l).
Proof.
  intros Htot. induction 1 as [|y l Hl IH Hhd]; simpl.
  - by repeat constructor.
  - destruct (leb x y) eqn:Hxy.
    + constructor; [by constructor | by constructor].
    + constructor; [done |].
      destruct Hhd as [|z l' Hyz]; simpl.
      * constructor. by apply Htot.
      * destruct (leb x z); constructor; [by apply Htot | done].
Qed.

Lemma sort_by_is_sorted l :
  (∀ a b, leb a b = false → leb b a = true) → sorted_by leb (sort_by leb l).
Proof.
  intros Htot. induction l as [|x l IH]; simpl; [constructor |].
  by apply insert_sorted_sorted.
Qed.

End sorting_facts.

Section stable.
Context {A : Type} (leb : A → A → bool) (P : A → Prop) `{∀ x, Decision (P x)}.

(** The sort is stable: elements that are mutually in order keep their
    relative order. *)
Lemma insert_sorted_filter x l :
  (∀ a b, P a → P b → leb a b = true) →
  filter P (insert_sorted leb x l) = filter P (x :: l).
Proof.
  intros Hle. induction l as [|y l IH]; simpl; [done |].
  destruct (leb x y) eqn:Hxy; [done |].
  rewrite filter_cons, IH, !filter_cons.
  destruct (decide (P y)) as [Hy|Hy], (decide (P x)) as [Hx|Hx]; try done.
  by rewrite Hle in Hxy.
Qed.

Lemma sort_by_filter l :
  (∀ a b, P a → P b → leb a b = true) →
  filter P (sort_by leb l) = filter P l.
Proof.
  intros Hle. induction l as [|x l IH]; simpl; [done |].
  by rewrite insert_sorted_filter, !filter_cons, IH.
Qed.
End stable.

Section head_min.
Context {A : Type} (leb : A → A → bool).

Lemma sort_by_head_least x l :
  (∀ a b, leb a b = false → leb b a = true) →
  (∀ a b c, leb a b = true → leb b c = true → leb a c = true) →
  (∀ a, leb a a = true) →
  head (sort_by leb l) = Some x → x ∈ l ∧ ∀ y, y ∈ l → leb x y = true.
Proof.
  intros Htot Htrans Hrefl Hhd.
  pose proof (sort_by_is_sorted leb l Htot) as Hs.
  apply Sorted_StronglySorted in Hs; [| intros a b c; apply Htrans].
  split.
  - apply (sort_by_elem_of leb). by apply head_Some_elem_of.
  - intros y Hy. apply (sort_by_elem_of leb) in Hy.
    destruct (sort_by leb l) as [|z s]; [done |]. injection Hhd as ->.
    apply StronglySorted_inv in Hs as [_ Hall].
    apply elem_of_cons in Hy as [-> | Hy]; [apply Hrefl |].
    rewrite Forall_forall in Hall. by apply Hall.
Qed.
End head_min.


Lemma filter_none {A} (P : A → Prop) `{∀ x, Decision (P x)} (l : list A) :
  (∀ x, x ∈ l → ¬ P x) → filter P l = [].
Proof.
  intros Hnone. destruct (filter P l) as [|x l'] eqn:Hf; [done |].
  assert (x ∈ filter P l) as [Hx Hin]%list_elem_of_filter by (rewrite Hf; left).
  by destruct (Hnone x Hin).
Qed.

Lemma filter_all {A} (P : A → Prop) `{∀ x, Decision (P x)} (l : list A) :
  (∀ x, x ∈ l → P x) → filter P l = l.
Proof.
  induction l as [|x l IH]; intros Hall; [done |].
  rewrite filter_cons_True by (apply Hall; left). f_equal. apply IH.
  intros y ?. apply Hall. by right.
Qed.

Lemma remove_dups_nil_inv {A} `{EqDecision A} (l : list A) : remove_dups l = [] → l = [].
Proof.
  destruct l as [|x l]; [done |]. intros Hnil.
  assert (x ∈ remove_dups (x :: l)) as Hin by (apply elem_of_remove_dups; left).
  rewrite Hnil in Hin. by apply elem_of_nil in Hin.
Qed.

Section group_facts.
Context {K V : Type} `{EqDecision K} `{Arith V}.
Implicit Types (acc rows : list (K * V)).

(** A property of the values that [add] preserves holds of every group
    total as soon as it holds of every input row. *)
Lemma group_add_Forall (P : V → Prop) k v acc :
  (∀ x y, P x → P y → P (add x y)) →
  P v → Forall (λ r, P r.2) acc → Forall (λ r, P r.2) (group_add k v acc).
Proof.
  intros Hadd Hv. induction 1 as [|[k' v'] acc' Hv' Hacc' IH]; simpl.
  - by repeat constructor.
  - case_decide; constructor; simpl in *; auto.
Qed.

Lemma group_sum_Forall (P : V → Prop) rows :
  (∀ x y, P x → P y → P (add x y)) →
  Forall (λ r, P r.2) rows → Forall (λ r, P r.2) (group_sum rows).
Proof.
  intros Hadd. unfold group_sum.
  assert (Hgen : ∀ acc, Forall (λ r, P r.2) acc → Forall (λ r, P r.2) rows →
                   Forall (λ r, P r.2) (foldl (λ acc r, group_add r.1 r.2 acc) acc rows)).
  { induction rows as [|r rows IH]; intros acc Hacc Hrows; simpl; [done |].
    inversion_clear Hrows. apply IH; [|done]. by apply group_add_Forall. }
  intros Hrows. by apply Hgen.
Qed.

End group_facts.

Section group_keys.
Context {K V : Type} `{EqDecision K} `{Arith V}.
Implicit Types (acc rows : list (K * V)).

Lemma group_add_keys (P : K → Prop) k v acc :
  P k → Forall (λ r, P r.1) acc → Forall (λ r, P r.1) (group_add k v acc).
Proof.
  intros Hk. induction 1 as [|[k' v'] acc' Hk' Hacc' IH]; simpl.
  - by repeat constructor.
  - case_decide; constructor; simpl in *; auto.
Qed.

(** Every key of the groups is a key of some input row. *)
Lemma group_sum_keys (P : K → Prop) rows :
  Forall (λ r, P r.1) rows → Forall (λ r, P r.1) (group_sum rows).
Proof.
  unfold group_sum.
  assert (Hgen : ∀ acc, Forall (λ r, P r.1) acc → Forall (λ r, P r.1) rows →
                   Forall (λ r, P r.1) (foldl (λ acc r, group_add r.1 r.2 acc) acc rows)).
  { induction rows as [|r rows IH]; intros acc Hacc Hrows; simpl; [done |].
    inversion_clear Hrows. apply IH; [|done]. by apply group_add_keys. }
  intros Hrows. by apply Hgen.
Qed.

Lemma assoc_None k (rel : list (K * V)) :
  Forall (λ r, r.1 ≠ k) rel → assoc k rel = None.
Proof.
  unfold assoc. induction 1 as [|[k' v'] rel Hk _ IH]; simpl; [done |].
  by rewrite bool_decide_eq_false_2.
Qed.

Lemma assoc_Some_elem k v (rel : list (K * V)) :
  assoc k rel = Some v → (k, v) ∈ rel.
Proof.
  unfold assoc. induction rel as [|[k' v'] rel IH]; simpl; [done |].
  case_bool_decide as Hk; simpl in *.
  - intros [= <-]. subst. left.
  - intros ?. right. by apply IH.
Qed.

Lemma assoc_group_add k k' v acc :
  assoc k (group_add k' v acc) =
  if decide (k = k') then Some (from_option (λ a, add a v) v (assoc k acc))
  else assoc k acc.
Proof.
  unfold assoc. induction acc as [|[k0 v0] acc IH]; simpl.
  - case_bool_decide; case_decide; simpl; congruence.
  - destruct (decide (k0 = k')) as [-> | Hne]; simpl.
    + case_bool_decide; case_decide; simpl; try congruence.
    + case_bool_decide as Hk0; simpl.
      * subst. by rewrite decide_False by congruence.
      * apply IH.
Qed.
End group_keys.

Lemma Zsum_cons (x : Z) (l : list Z) : Zsum (x :: l) = x + Zsum l.
Proof. reflexivity. Qed.

(** A group total over [Z] is the sum of the values of the rows of its key. *)
Lemma assoc_group_sum_Z {K} `{EqDecision K} (rows acc : list (K * Z)) (k : K) :
  assoc k (foldl (λ acc r, group_add r.1 r.2 acc) acc rows) =
  let s := Zsum (snd <$> filter (λ r, r.1 = k) rows) in
  match assoc k acc with
  | Some a => Some (a + s)
  | None => if decide (filter (λ r, r.1 = k) rows = []) then None else Some s
  end.
Proof.
  revert acc. induction rows as [|[k' v] rows IH]; intros acc; cbn [foldl].
  - rewrite filter_nil, fmap_nil. change (Zsum []) with 0. cbv zeta.
    rewrite decide_True by done. destruct (assoc k acc); [f_equal; lia | done].
  - rewrite IH, assoc_group_add. cbv zeta. cbn [fst snd]. rewrite filter_cons. cbn [fst].
    destruct (decide (k' = k)) as [-> | Hne].
    + rewrite decide_True by done. rewrite fmap_cons, Zsum_cons. cbn [snd].
      rewrite (decide_False (P := _ :: _ = [])) by done.
      destruct (assoc k acc); cbn [from_option add Z_arith]; f_equal; lia.
    + rewrite decide_False by congruence. done.
Qed.

(** ** Builds and the published files *)

Section build_facts.
Context {A : Type} `{Arith A} `{DateEngine} (env : BuildEnv A) (y : Z).
Implicit Types (fs : appdata A) (plan : list (kind * table A)).

Lemma build_step_ok kt fs :
  copy_raises env kt.1 y = false →
  build_step env y kt fs = (<[(kt.1, y) := kt.2]> fs, Ok tt).
Proof.
  intros Hc. unfold build_step, unlink, copy_to, mbind, build_bind; simpl.
  by rewrite Hc, insert_delete_eq.
Qed.

Lemma build_step_raises kt fs :
  copy_raises env kt.1 y = true →
  build_step env y kt fs = (delete (kt.1, y) fs, Err EngineError).
Proof.
  intros Hc. unfold build_step, unlink, copy_to, mbind, build_bind; simpl.
  by rewrite Hc, delete_delete_eq.
Qed.

Lemma run_plan_cons kt plan fs :
  run_plan env y (kt :: plan) fs =
  match build_step env y kt fs with
  | (fs', Ok _) => run_plan env y plan fs'
  | (fs', Err e) => (fs', Err e)
  end.
Proof. reflexivity. Qed.

Lemma run_plan_ok plan fs :
  Forall (λ kt, copy_raises env kt.1 y = false) plan →
  run_plan env y plan fs = (written y plan fs, Ok tt).
Proof.
  intros Hok. revert fs. induction Hok as [|kt plan Hkt _ IH]; intros fs; [done |].
  by rewrite run_plan_cons, build_step_ok, IH.
Qed.

Lemma run_plan_raises done kt rest fs :
  Forall (λ kt, copy_raises env kt.1 y = false) done →
  copy_raises env kt.1 y = true →
  run_plan env y (done ++ kt :: rest) fs =
  (delete (kt.1, y) (written y done fs), Err EngineError).
Proof.
  intros Hok Hkt. revert fs. induction Hok as [|kt' done Hkt' _ IH]; intros fs; simpl app.
  - by rewrite run_plan_cons, build_step_raises.
  - by rewrite run_plan_cons, build_step_ok, IH.
Qed.

Lemma written_lookup_other plan fs k' y' :
  (y' = y → k' ∉ plan.*1) → written y plan fs !! (k', y') = fs !! (k', y').
Proof.
  revert fs. induction plan as [|kt plan IH]; intros fs Hk; [done |].
  unfold written; simpl. fold (written y plan (<[(kt.1, y) := kt.2]> fs)).
  rewrite IH.
  - apply lookup_insert_ne. intros [= <- <-]. apply Hk; [done | left].
  - intros Hy Hin. apply (Hk Hy). by right.
Qed.

Lemma written_lookup plan fs k t :
  NoDup plan.*1 → (k, t) ∈ plan → written y plan fs !! (k, y) = Some t.
Proof.
  revert fs. induction plan as [|kt plan IH]; intros fs Hnd Hin.
  - by apply elem_of_nil in Hin.
  - simpl in Hnd. apply NoDup_cons in Hnd as [Hk Hnd].
    unfold written; simpl. fold (written y plan (<[(kt.1, y) := kt.2]> fs)).
    apply elem_of_cons in Hin as [<- | Hin].
    + rewrite written_lookup_other by done. apply lookup_insert_eq.
    + by apply IH.
Qed.

Lemma build_plan_NoDup (src : list (RawRow A)) b1 b2 b3 :
  NoDup (build_plan src b1 b2 b3).*1.
Proof.
  destruct b1, b2, b3; by apply (bool_decide_unpack _).
Qed.

(** With a raw source, [_build_year] runs the steps of its plan in order. *)
Lemma _build_year_plan src b1 b2 b3 fs :
  year_csv env !! y = Some src →
  _build_year env y b1 b2 b3 fs = run_plan env y (build_plan src b1 b2 b3) fs.
Proof.
  intros Hsrc.
  unfold _build_year, _read_csv_sql, blift, mbind, build_bind. rewrite Hsrc.
  destruct b1, b2, b3; simpl;
    unfold build_step, bwhen, unlink, copy_to, mbind, build_bind, mret, build_ret; simpl;
    repeat (match goal with |- context [copy_raises env ?k y] =>
              destruct (copy_raises env k y) eqn:? end; simpl);
    done.
Qed.

Lemma _build_year_no_source b1 b2 b3 fs :
  year_csv env !! y = None →
  _build_year env y b1 b2 b3 fs = (fs, Err KeyError).
Proof.
  intros Hsrc.
  unfold _build_year, _read_csv_sql, blift, mbind, build_bind. by rewrite Hsrc.
Qed.

End build_facts.

Section build_totals_facts.
Context {A : Type} `{Arith A} `{DateEngine} (env : BuildEnv A) (y : Z).

(** With both edge files published, [build_totals_for_year] is the single
    step that replaces the totals file. *)
Lemma build_totals_for_year_step (fs : appdata A) e_out e_in :
  fs !! (edges_by_o, y) = Some (TEdges e_out) →
  fs !! (edges_by_d, y) = Some (TEdges e_in) →
  build_totals_for_year env y fs =
  build_step env y (totals, TTotals (totals_rows e_out e_in)) fs.
Proof.
  intros Ho Hd.
  unfold build_totals_for_year, exists_, read_edges, bget, blift, bwhen, mbind, build_bind.
  rewrite !bool_decide_eq_true_2 by (by eexists). simpl. by rewrite Ho, Hd.
Qed.

(** The totals rebuild removes the published totals before it writes: when
    the write raises, no totals file is left. *)
Lemma build_totals_for_year_raises (fs : appdata A) e_out e_in :
  fs !! (edges_by_o, y) = Some (TEdges e_out) →
  fs !! (edges_by_d, y) = Some (TEdges e_in) →
  copy_raises env totals y = true →
  build_totals_for_year env y fs = (delete (totals, y) fs, Err EngineError).
Proof.
  intros Ho Hd Hc. rewrite (build_totals_for_year_step _ e_out e_in) by done.
  by apply build_step_raises.
Qed.

(** A build on which no [COPY] raises publishes every file of its plan and
    touches nothing else. *)
Lemma _build_year_ok (src : list (RawRow A)) (b1 b2 b3 : bool) (fs : appdata A) :
  year_csv env !! y = Some src →
  Forall (λ kt, copy_raises env kt.1 y = false) (build_plan src b1 b2 b3) →
  ∃ fs', _build_year env y b1 b2 b3 fs = (fs', Ok tt) ∧
    (∀ k t, (k, t) ∈ build_plan src b1 b2 b3 → fs' !! (k, y) = Some t) ∧
    (∀ k' y', (y' = y → k' ∉ (build_plan src b1 b2 b3).*1) →
              fs' !! (k', y') = fs !! (k', y')).
Proof.
  intros Hsrc Hok. eexists. split.
  - rewrite (_build_year_plan _ _ src) by done. by apply run_plan_ok.
  - split.
    + intros k t Hin. apply written_lookup; [apply build_plan_NoDup | done].
    + intros k' y' Hk. by apply written_lookup_other.
Qed.

End build_totals_facts.

(** C1 (as amended). Each step of a build removes the published file of its
    [(kind, year)] and then writes the new one.  When the write of kind [k]
    raises, the build stops with an error and [(k, year)] has no file; the
    kinds written before [k] hold their new tables, and every other file
    (kinds not reached, other years) is as it was. *)
Theorem C1_build_unlinks_then_writes {A : Type} `{Arith A} `{DateEngine}
    (env : BuildEnv A) (y : Z) (b1 b2 b3 : bool) (fs : appdata A)
    (src : list (RawRow A)) (done : list (kind * table A)) (k : kind) (t : table A)
    (rest : list (kind * table A)) :
  year_csv env !! y = Some src →
  build_plan src b1 b2 b3 = done ++ (k, t) :: rest →
  Forall (λ kt, copy_raises env kt.1 y = false) done →
  copy_raises env k y = true →
  ∃ fs', _build_year env y b1 b2 b3 fs = (fs', Err EngineError) ∧
    fs' !! (k, y) = None ∧
    (∀ k' t', (k', t') ∈ done → fs' !! (k', y) = Some t') ∧
    (∀ k' y', (y' = y → k' ≠ k ∧ k' ∉ done.*1) → fs' !! (k', y') = fs !! (k', y')).
Proof.
  intros Hsrc Hplan Hdone Hk.
  pose proof (build_plan_NoDup src b1 b2 b3) as Hnd.
  rewrite Hplan, fmap_app in Hnd. apply NoDup_app in Hnd as (Hnd & _ & _).
  eexists. split.
  { rewrite (_build_year_plan _ _ src), Hplan by done.
    by apply (run_plan_raises env y done (k, t)). }
  simpl. split; [apply lookup_delete_eq |]. split.
  - intros k' t' Hin.
    assert (k' ≠ k) as Hne.
    { intros ->. pose proof (build_plan_NoDup src b1 b2 b3) as Hnd'.
      rewrite Hplan, fmap_app in Hnd'. apply NoDup_app in Hnd' as (_ & Hdis & _).
      apply (Hdis k); [by apply (list_elem_of_fmap_2 fst _ (k, t')) | left]. }
    rewrite lookup_delete_ne by congruence. by apply written_lookup.
  - intros k' y' Hother.
    rewrite lookup_delete_ne by (intros [= <- <-]; by destruct Hother).
    apply written_lookup_other. intros Hy. by destruct (Hother Hy).
Qed.

Lemma C1_build_unlinks_then_writes_witness :
  let plan := @build_plan Z _ iso_dates integer_rows true true true in
  year_csv failing_env !! 2021 = Some integer_rows ∧
  plan = [] ++ (edges_by_o, TEdges (edges_by_o_rows integer_rows)) :: tail plan ∧
  Forall (λ kt : kind * table Z, copy_raises failing_env kt.1 2021 = false) [] ∧
  copy_raises failing_env edges_by_o 2021 = true ∧
  ∃ fs', @_build_year Z _ iso_dates failing_env 2021 true true true published_2021
           = (fs', Err EngineError) ∧
    fs' !! (edges_by_o, 2021) = None ∧
    (∀ k' t', (k', t') ∈ [] → fs' !! (k', 2021) = Some t') ∧
    (∀ k' y', (y' = 2021 → k' ≠ edges_by_o ∧ k' ∉ ([] : list (kind * table Z)).*1) →
              fs' !! (k', y') = published_2021 !! (k', y')).
Proof.
  intros plan.
  assert (H1 : year_csv failing_env !! 2021 = Some integer_rows) by reflexivity.
  assert (H2 : plan = [] ++ (edges_by_o, TEdges (edges_by_o_rows integer_rows)) :: tail plan)
    by reflexivity.
  assert (H3 : Forall (λ kt : kind * table Z, copy_raises failing_env kt.1 2021 = false) [])
    by constructor.
  assert (H4 : copy_raises failing_env edges_by_o 2021 = true) by reflexivity.
  split_and!; [exact H1 | exact H2 | exact H3 | exact H4 |].
  exact (@C1_build_unlinks_then_writes Z _ iso_dates failing_env 2021 true true true
           published_2021 integer_rows [] edges_by_o _ (tail plan) H1 H2 H3 H4).
Defined.

(** C1 (as stated) fails: the rebuild of 2021 in [failing_env] raises while
    it writes the by-origin index, and the by-origin index that was
    published before the build is gone. *)
Lemma C1_failed_build_loses_published_counterexample :
  ¬ @failed_build_keeps_published Z _ iso_dates failing_env 2021 true true true
      published_2021.
Proof.
  intros Hkeep. specialize (Hkeep edges_by_o EngineError eq_refl).
  vm_compute in Hkeep. discriminate.
Qed.

(** ** Binary64 has the laws of [NumLaws]

    The comparison and the addition of [float] are specified by [SFleb],
    [SFltb] and [SFadd] on [spec_float]; the laws are proved there. *)

Section spec_float_order.

Ltac cmp_cases :=
  repeat match goal with
  | |- context [Pos.compare_cont Eq ?p ?q] =>
      change (Pos.compare_cont Eq p q) with (Pos.compare p q)
  | H : context [Pos.compare_cont Eq ?p ?q] |- _ =>
      change (Pos.compare_cont Eq p q) with (Pos.compare p q) in H
  end;
  repeat match goal with
  | |- context [Z.compare ?a ?b] => destruct (Z.compare_spec a b)
  | H : context [Z.compare ?a ?b] |- _ => destruct (Z.compare_spec a b)
  | |- context [Pos.compare ?a ?b] => destruct (Pos.compare_spec a b)
  | H : context [Pos.compare ?a ?b] |- _ => destruct (Pos.compare_spec a b)
  end;
  cbn in *; subst; try discriminate; try reflexivity; try lia.

Lemma SFleb_trans (x y z : spec_float) :
  SFleb x y = true → SFleb y z = true → SFleb x z = true.
Proof.
  unfold SFleb, SFcompare.
  destruct x as [[]|[]| |[] mx ex], y as [[]|[]| |[] my ey], z as [[]|[]| |[] mz ez];
    cbn; intros Hxy Hyz; try discriminate; try reflexivity; cmp_cases.
Qed.

Lemma SFleb_total (x y : spec_float) :
  SFleb (S754_zero false) x = true → SFleb (S754_zero false) y = true →
  SFleb x y = true ∨ SFleb y x = true.
Proof.
  unfold SFleb, SFcompare.
  destruct x as [[]|[]| |[] mx ex], y as [[]|[]| |[] my ey];
    cbn; intros Hx Hy; try discriminate; auto;
    cmp_cases; auto.
Qed.

Lemma SFltb_asym (x y : spec_float) : SFltb x y = true → SFltb y x = false.
Proof.
  unfold SFltb, SFcompare.
  destruct x as [[]|[]| |[] mx ex], y as [[]|[]| |[] my ey];
    cbn; intros Hxy; try discriminate; try reflexivity; cmp_cases.
Qed.

End spec_float_order.

Section spec_float_add.

Lemma pow2_pos (a : Z) : 0 ≤ a → 0 < 2 ^ a.
Proof. intros. by apply Z.pow_pos_nonneg. Qed.

Lemma pow2_add (a b : Z) : 0 ≤ a → 0 ≤ b → 2 ^ (a + b) = 2 ^ a * 2 ^ b.
Proof. intros. by apply Z.pow_add_r. Qed.

Lemma pow2_mono (a b : Z) : 0 ≤ a ≤ b → 2 ^ a ≤ 2 ^ b.
Proof. intros. apply Z.pow_le_mono_r; lia. Qed.

Lemma digits2_pos_bounds (m : positive) :
  2 ^ (Z.pos (digits2_pos m) - 1) ≤ Z.pos m < 2 ^ Z.pos (digits2_pos m).
Proof.
  induction m as [m IH|m IH|]; cbn [digits2_pos].
  - rewrite Pos2Z.inj_succ, Z.pow_succ_r by lia.
    replace (Z.succ (Z.pos (digits2_pos m)) - 1)
      with (Z.succ (Z.pos (digits2_pos m) - 1)) by lia.
    rewrite Z.pow_succ_r by lia. lia.
  - rewrite Pos2Z.inj_succ, Z.pow_succ_r by lia.
    replace (Z.succ (Z.pos (digits2_pos m)) - 1)
      with (Z.succ (Z.pos (digits2_pos m) - 1)) by lia.
    rewrite Z.pow_succ_r by lia. lia.
  - cbn. lia.
Qed.

Lemma canonical_mantissa_spec (m : positive) (e : Z) :
  canonical_mantissa prec emax m e = true →
  e = Z.max (Z.pos (digits2_pos m) + e - 53) (-1074).
Proof.
  unfold canonical_mantissa, fexp, emin, prec, emax.
  intros H%Z.eqb_eq. lia.
Qed.

(** Two valid positive numbers compare as their values do; the value of
    [(m, e)] is [m * 2 ^ e], scaled here by [2 ^ 1074] to stay in [Z]. *)
Lemma SFleb_valid_pos (m1 : positive) (e1 : Z) (m2 : positive) (e2 : Z) :
  canonical_mantissa prec emax m1 e1 = true →
  canonical_mantissa prec emax m2 e2 = true →
  Z.pos m1 * 2 ^ (e1 + 1074) ≤ Z.pos m2 * 2 ^ (e2 + 1074) →
  SFleb (S754_finite false m1 e1) (S754_finite false m2 e2) = true.
Proof.
  intros H1%canonical_mantissa_spec H2%canonical_mantissa_spec Hle.
  unfold SFleb, SFcompare.
  change (Pos.compare_cont Eq m1 m2) with (Pos.compare m1 m2).
  destruct (Z.compare_spec e1 e2) as [->|Hlt|Hgt]; [|done|].
  - destruct (Pos.compare_spec m1 m2) as [->|Hm|Hm]; [done|done|].
    pose proof (pow2_pos (e2 + 1074) ltac:(lia)). nia.
  - exfalso.
    pose proof (digits2_pos_bounds m1) as [B1 _].
    pose proof (digits2_pos_bounds m2) as [_ B2].
    assert (Z.pos (digits2_pos m1) = 53) as D1 by lia.
    assert (Z.pos (digits2_pos m2) ≤ 53) as D2 by lia.
    rewrite D1 in B1.
    assert (Z.pos m2 < 2 ^ 53) as B2'.
    { eapply Z.lt_le_trans; [exact B2|]. apply pow2_mono. lia. }
    assert (2 * 2 ^ (e2 + 1074) ≤ 2 ^ (e1 + 1074)) as Hp.
    { rewrite <- Z.pow_succ_r by lia. apply pow2_mono. lia. }
    pose proof (pow2_pos (e2 + 1074) ltac:(lia)) as Hpos.
    change (2 ^ (53 - 1)) with 4503599627370496 in B1.
    change (2 ^ 53) with 9007199254740992 in B2'.
    nia.
Qed.

Lemma shr_1_m (mrs : shr_record) :
  0 ≤ shr_m mrs → shr_m (shr_1 mrs) = shr_m mrs / 2.
Proof.
  destruct mrs as [[|[p|p|]|p] r s]; cbn [shr_m shr_1]; intros Hm; try lia.
  - done.
  - rewrite (Pos2Z.inj_xI p). apply Z.div_unique with 1; lia.
  - rewrite (Pos2Z.inj_xO p). apply Z.div_unique with 0; lia.
  - done.
Qed.

Lemma iter_shr_1_m (p : positive) (mrs : shr_record) :
  0 ≤ shr_m mrs →
  shr_m (SpecFloat.iter_pos shr_1 p mrs) = shr_m mrs / 2 ^ Z.pos p.
Proof.
  assert (∀ x, 0 ≤ shr_m x → 0 ≤ shr_m (shr_1 x)) as Hnn.
  { intros x Hx. rewrite shr_1_m by done. by apply Z.div_pos. }
  revert mrs. induction p as [p IH|p IH|]; intros mrs Hm; cbn [SpecFloat.iter_pos].
  - assert (0 ≤ shr_m (SpecFloat.iter_pos shr_1 p (shr_1 mrs))) as H1.
    { rewrite IH by auto. apply Z.div_pos; [auto|]. by apply pow2_pos. }
    rewrite IH, IH, shr_1_m by auto.
    pose proof (pow2_pos (Z.pos p) ltac:(lia)).
    rewrite !Z.div_div by lia.
    rewrite (Pos2Z.inj_xI p).
    replace (2 * Z.pos p + 1) with (1 + Z.pos p + Z.pos p) by lia.
    rewrite !pow2_add by lia. f_equal. change (2 ^ 1) with 2. lia.
  - assert (0 ≤ shr_m (SpecFloat.iter_pos shr_1 p mrs)) as H1.
    { rewrite IH by auto. apply Z.div_pos; [auto|]. by apply pow2_pos. }
    rewrite IH, IH by auto.
    pose proof (pow2_pos (Z.pos p) ltac:(lia)).
    rewrite !Z.div_div by lia.
    rewrite (Pos2Z.inj_xO p).
    replace (2 * Z.pos p) with (Z.pos p + Z.pos p) by lia.
    rewrite pow2_add by lia. reflexivity.
  - by apply shr_1_m.
Qed.

(** Dropping the low bits of an upper bound [m * 2 ^ e] of a representable
    number leaves an upper bound: the number is on the coarser grid. *)
Lemma shift_ge (ma : positive) (ea m e : Z) :
  canonical_mantissa prec emax ma ea = true →
  0 < m → -1074 ≤ e →
  Z.pos ma * 2 ^ (ea + 1074) ≤ m * 2 ^ (e + 1074) →
  let n := fexp prec emax (Zdigits2 m + e) - e in
  0 < n →
  Z.pos ma * 2 ^ (ea + 1074) ≤ (m / 2 ^ n) * 2 ^ (e + n + 1074).
Proof.
  intros Hc%canonical_mantissa_spec Hm He Hle n Hn.
  destruct m as [|p|p]; try lia.
  unfold fexp, emin, prec, emax in n. cbn [Zdigits2] in n.
  pose proof (digits2_pos_bounds ma) as [A1 A2].
  pose proof (digits2_pos_bounds p) as [P1 P2].
  set (da := Z.pos (digits2_pos ma)) in *.
  set (d := Z.pos (digits2_pos p)) in *.
  assert (0 < da) as Hda by (unfold da; lia).
  assert (n = d - 53) as Hnd by lia.
  assert (-1074 ≤ ea) as Hea by lia.
  pose proof (pow2_pos (e + 1074) ltac:(lia)) as Hpe.
  pose proof (pow2_pos (ea + 1074) ltac:(lia)) as Hpa.
  pose proof (pow2_pos n ltac:(lia)) as Hpn.
  assert (da + ea ≤ d + e) as Hmag.
  { destruct (Z_le_gt_dec (da + ea) (d + e)) as [|Hgt]; [done|exfalso].
    assert (2 ^ d * 2 ^ (e + 1074) ≤ 2 ^ (da - 1) * 2 ^ (ea + 1074)) as Hpw.
    { rewrite <- !pow2_add by lia. apply pow2_mono. lia. }
    nia. }
  destruct (Z.eq_dec (da + ea) (d + e)) as [Heq|Hne].
  - assert (ea = e + n) as -> by lia.
    replace (e + n + 1074) with (e + 1074 + n) in * by lia.
    rewrite pow2_add in Hle by lia.
    assert (Z.pos ma ≤ Z.pos p / 2 ^ n) as Hdiv.
    { apply Z.div_le_lower_bound; [done|]. nia. }
    apply Z.mul_le_mono_nonneg_r; [|done].
    apply Z.lt_le_incl, pow2_pos. lia.
  - assert (2 ^ 52 ≤ Z.pos p / 2 ^ n) as Hdiv.
    { apply Z.div_le_lower_bound; [done|].
      rewrite <- pow2_add by lia.
      replace (n + 52) with (d - 1) by lia. done. }
    assert (2 ^ da * 2 ^ (ea + 1074) ≤ 2 ^ 52 * 2 ^ (e + n + 1074)) as Hpw.
    { rewrite <- !pow2_add by lia. apply pow2_mono. lia. }
    pose proof (pow2_pos (e + n + 1074) ltac:(lia)) as Hpen.
    nia.
Qed.

Lemma shr_fexp_ge (ma : positive) (ea m e : Z) (l : location) :
  canonical_mantissa prec emax ma ea = true →
  0 < m → -1074 ≤ e →
  Z.pos ma * 2 ^ (ea + 1074) ≤ m * 2 ^ (e + 1074) →
  Z.pos ma * 2 ^ (ea + 1074)
    ≤ shr_m (shr_fexp prec emax m e l).1 * 2 ^ ((shr_fexp prec emax m e l).2 + 1074)
  ∧ -1074 ≤ (shr_fexp prec emax m e l).2.
Proof.
  intros Hc Hm He Hle.
  pose proof (shift_ge ma ea m e Hc Hm He Hle) as Hs. cbn zeta in Hs.
  unfold shr_fexp, shr.
  assert (shr_m (shr_record_of_loc m l) = m) as Hrec
    by (by destruct l as [|[]]).
  destruct (fexp prec emax (Zdigits2 m + e) - e) as [|n|n] eqn:Hn;
    cbn [fst snd].
  - by rewrite Hrec.
  - rewrite iter_shr_1_m by (rewrite Hrec; lia).
    rewrite Hrec. split; [apply Hs; lia|lia].
  - by rewrite Hrec.
Qed.

Lemma round_nearest_even_ge (m : Z) (l : location) :
  m ≤ round_nearest_even m l.
Proof.
  destruct l as [|[]]; cbn [round_nearest_even]; try lia.
  destruct (Z.even m); lia.
Qed.

Lemma binary_round_aux_ge (ma : positive) (ea m e : Z) (l : location) :
  canonical_mantissa prec emax ma ea = true →
  0 < m → -1074 ≤ e →
  Z.pos ma * 2 ^ (ea + 1074) ≤ m * 2 ^ (e + 1074) →
  valid_binary (binary_round_aux prec emax false m e l) = true →
  SFleb (S754_finite false ma ea) (binary_round_aux prec emax false m e l) = true.
Proof.
  intros Hc Hm He Hle.
  unfold binary_round_aux.
  pose proof (shr_fexp_ge ma ea m e l Hc Hm He Hle) as [H1 E1].
  destruct (shr_fexp prec emax m e l) as [mrs' e'] eqn:Hs1. cbn [fst snd] in *.
  pose proof (pow2_pos (ea + 1074)
    ltac:(apply canonical_mantissa_spec in Hc; lia)) as Hpa.
  pose proof (pow2_pos (e' + 1074) ltac:(lia)) as Hpe'.
  assert (0 < shr_m mrs') as Hm' by nia.
  set (m1 := round_nearest_even (shr_m mrs') (loc_of_shr_record mrs')).
  pose proof (round_nearest_even_ge (shr_m mrs') (loc_of_shr_record mrs')) as Hr.
  fold m1 in Hr.
  assert (Z.pos ma * 2 ^ (ea + 1074) ≤ m1 * 2 ^ (e' + 1074)) as Hle1 by nia.
  pose proof (shr_fexp_ge ma ea m1 e' loc_Exact Hc ltac:(lia) E1 Hle1) as [H2 E2].
  destruct (shr_fexp prec emax m1 e' loc_Exact) as [mrs'' e''] eqn:Hs2.
  cbn [fst snd] in *.
  pose proof (pow2_pos (e'' + 1074) ltac:(lia)) as Hpe''.
  destruct (shr_m mrs'') as [|m2|m2] eqn:Hm2; [nia| |nia].
  destruct (e'' <=? emax - prec); [|done].
  cbn [SpecFloat.valid_binary]. unfold bounded. intros [Hv _]%andb_prop.
  by apply SFleb_valid_pos.
Qed.

Lemma pos_iter_xO (m d : positive) :
  Z.pos (Pos.iter xO m d) = Z.pos m * 2 ^ Z.pos d.
Proof.
  induction d as [|d IH] using Pos.peano_ind.
  - cbn. lia.
  - rewrite Pos.iter_succ, (Pos2Z.inj_xO (Pos.iter xO m d)), IH, Pos2Z.inj_succ, Z.pow_succ_r by lia.
    lia.
Qed.

Lemma shl_align_value (m : positive) (e e' : Z) :
  -1074 ≤ e → -1074 ≤ e' →
  Z.pos (shl_align m e e').1 * 2 ^ ((shl_align m e e').2 + 1074)
    = Z.pos m * 2 ^ (e + 1074)
  ∧ -1074 ≤ (shl_align m e e').2
  ∧ (e' ≤ e → (shl_align m e e').2 = e').
Proof.
  intros He He'. unfold shl_align.
  destruct (e' - e) as [|d|d] eqn:Hd; cbn [fst snd]; try (split; [done|lia]).
  rewrite pos_iter_xO.
  replace (e + 1074) with (e' + 1074 + Z.pos d) by lia.
  rewrite (pow2_add (e' + 1074)) by lia. split; [lia|]. lia.
Qed.

Lemma binary_round_ge (ma : positive) (ea : Z) (m : positive) (e : Z) :
  canonical_mantissa prec emax ma ea = true →
  -1074 ≤ e →
  Z.pos ma * 2 ^ (ea + 1074) ≤ Z.pos m * 2 ^ (e + 1074) →
  valid_binary (binary_round prec emax false m e) = true →
  SFleb (S754_finite false ma ea) (binary_round prec emax false m e) = true.
Proof.
  intros Hc He Hle. unfold binary_round.
  assert (-1074 ≤ fexp prec emax (Z.pos (digits2_pos m) + e)) as Hf
    by (unfold fexp, emin, prec, emax; lia).
  pose proof (shl_align_value m e _ He Hf) as (Hv & Hb & _).
  destruct (shl_align m e (fexp prec emax (Z.pos (digits2_pos m) + e)))
    as [mz ez]. cbn [fst snd] in *.
  apply binary_round_aux_ge; [done|lia|done|lia].
Qed.

(** Adding a non-negative number never rounds below the first summand. *)
Lemma SFadd_nonneg_le (a x : spec_float) :
  valid_binary a = true → valid_binary x = true →
  valid_binary (SFadd prec emax a x) = true →
  SFleb (S754_zero false) a = true → SFleb (S754_zero false) x = true →
  SFleb a (SFadd prec emax a x) = true.
Proof.
  destruct a as [sa|[]| |[] ma ea], x as [sx|[]| |[] mx ex];
    intros Va Vx Vr Ha Hx; try discriminate; try reflexivity.
  - by destruct sa, sx.
  - cbn [SFadd]. unfold SFleb, SFcompare.
    change (Pos.compare_cont Eq ma ma) with (Pos.compare ma ma).
    by rewrite Z.compare_refl, Pos.compare_refl.
  - cbn [SFadd] in *. cbn [SpecFloat.valid_binary] in Va, Vx.
    unfold bounded in Va, Vx.
    apply andb_prop in Va as [Ca _], Vx as [Cx _].
    pose proof (canonical_mantissa_spec _ _ Ca) as Ea.
    pose proof (canonical_mantissa_spec _ _ Cx) as Ex.
    set (ez := Z.min ea ex) in *.
    pose proof (shl_align_value ma ea ez ltac:(lia) ltac:(lia)) as (Hva & _ & Hza).
    pose proof (shl_align_value mx ex ez ltac:(lia) ltac:(lia)) as (Hvx & _ & Hzx).
    rewrite Hza in Hva by lia. rewrite Hzx in Hvx by lia.
    cbn [cond_Zopp Z.add binary_normalize] in *.
    apply binary_round_ge; [done|lia| |done].
    rewrite <- Hva, Pos2Z.inj_add.
    pose proof (pow2_pos (ez + 1074) ltac:(lia)). nia.
Qed.



Lemma shr_fexp_nonneg (m e : Z) (l : location) :
  0 ≤ m → 0 ≤ shr_m (shr_fexp prec emax m e l).1.
Proof.
  intros Hm. unfold shr_fexp, shr.
  assert (shr_m (shr_record_of_loc m l) = m) as Hrec
    by (by destruct l as [|[]]).
  destruct (fexp prec emax (Zdigits2 m + e) - e) as [|n|n]; cbn [fst];
    [lia| |lia].
  rewrite iter_shr_1_m by lia. rewrite Hrec.
  apply Z.div_pos; [done|]. by apply pow2_pos.
Qed.

Lemma binary_round_aux_nonneg (m e : Z) (l : location) :
  0 ≤ m → SFleb (S754_zero false) (binary_round_aux prec emax false m e l) = true.
Proof.
  intros Hm. unfold binary_round_aux.
  pose proof (shr_fexp_nonneg m e l Hm) as H1.
  destruct (shr_fexp prec emax m e l) as [mrs' e']. cbn [fst] in H1.
  pose proof (round_nearest_even_ge (shr_m mrs') (loc_of_shr_record mrs')) as Hr.
  pose proof (shr_fexp_nonneg
    (round_nearest_even (shr_m mrs') (loc_of_shr_record mrs')) e' loc_Exact
    ltac:(lia)) as H2.
  destruct (shr_fexp prec emax _ e' loc_Exact) as [mrs'' e'']. cbn [fst] in H2.
  destruct (shr_m mrs'') as [|m2|m2]; [done| |lia].
  by destruct (e'' <=? emax - prec).
Qed.

(** The product of a positive finite number and a non-negative one is not
    negative. *)
Lemma SFmul_nonneg (c t : spec_float) :
  SFltb (S754_zero false) c = true → SFltb (Prim2SF 1) c = false →
  SFleb (S754_zero false) t = true →
  SFleb (S754_zero false) (SFmul prec emax c t) = true.
Proof.
  destruct c as [sc|[]| |[] mc ec], t as [st|[]| |[] mt et];
    intros Hc0 Hc1 Ht; try discriminate; try reflexivity.
  cbn [SFmul xorb]. by apply binary_round_aux_nonneg.
Qed.

End spec_float_add.

Lemma Prim2SF_zero : Prim2SF 0%float = S754_zero false.
Proof. reflexivity. Qed.

Lemma float_add_nonneg_le (a x : float) :
  PrimFloat.leb 0 a = true → PrimFloat.leb 0 x = true →
  PrimFloat.leb a (PrimFloat.add a x) = true.
Proof.
  rewrite !leb_spec, add_spec, Prim2SF_zero.
  apply SFadd_nonneg_le; try apply Prim2SF_valid.
  rewrite <- add_spec. apply Prim2SF_valid.
Qed.

(** Binary64, with the comparisons and the rounded sum and product of
    [PrimFloat], has the laws. *)
Global Instance float_num_laws : NumLaws float.
Proof.
  split; cbn [leb ltb zero one add mul float_num float_arith].
  - reflexivity.
  - intros x y z. rewrite !leb_spec. apply SFleb_trans.
  - intros x y. rewrite !leb_spec, Prim2SF_zero. apply SFleb_total.
  - intros x y. rewrite !ltb_spec. apply SFltb_asym.
  - apply float_add_nonneg_le.
  - intros c t. rewrite !ltb_spec, !leb_spec, mul_spec, Prim2SF_zero.
    apply SFmul_nonneg.
Qed.

(** ** Flow queries *)

Section coverage_facts.
Implicit Types (l e : list (Z * Q)) (acc b : Q).

Local Abbreviation nonneg := (Forall (λ e : Z * Q, 0 <= e.2)%Q).

Lemma Qsum_nil : Qsum [] = 0%Q.
Proof. reflexivity. Qed.

Lemma Qsum_cons (x : Q) (vs : list Q) : Qsum (x :: vs) = (x + Qsum vs)%Q.
Proof. reflexivity. Qed.

Lemma Qsum_nonneg l : nonneg l → (0 <= Qsum (snd <$> l))%Q.
Proof.
  induction 1 as [|x l Hx _ IH]; [rewrite fmap_nil, Qsum_nil; lra |].
  rewrite fmap_cons, Qsum_cons. lra.
Qed.

Lemma Qsum_perm l l' : l ≡ₚ l' → (Qsum (snd <$> l) == Qsum (snd <$> l'))%Q.
Proof.
  induction 1; rewrite ?fmap_cons, ?Qsum_cons; lra.
Qed.

Lemma order_by_desc_total {A} (key : A → Q) (a a' : A) :
  bool_decide (key a' <= key a)%Q = false → bool_decide (key a <= key a')%Q = true.
Proof.
  intros Hf. apply bool_decide_eq_false in Hf. apply bool_decide_eq_true. lra.
Qed.

End coverage_facts.

(** Exact rational arithmetic has the laws of [NumLaws]. *)
Global Instance Q_num_laws : NumLaws Q.
Proof.
  split; cbn [leb ltb zero add one mul Q_num Q_arith]; intros;
    repeat match goal with
    | H : bool_decide _ = true |- _ => apply bool_decide_eq_true in H
    | H : bool_decide _ = false |- _ => apply bool_decide_eq_false in H
    end;
    rewrite ?bool_decide_eq_true, ?bool_decide_eq_false; try lra.
  apply Qmult_le_0_compat; lra.
Qed.

(** *** The coverage rule in an arithmetic with the laws *)

Section sorted_on.
Context {B : Type} (le : B → B → bool) (P : B → Prop).
Hypothesis le_total_on : ∀ a b, P a → P b → le a b = false → le b a = true.

Lemma insert_sorted_sorted_on x l :
  P x → Forall P l → sorted_by le l → sorted_by le (insert_sorted le x l).
Proof.
  intros Hx Hl. induction 1 as [|y l Hs IH Hhd]; simpl.
  - by repeat constructor.
  - apply Forall_cons in Hl as [Hy Hl].
    destruct (le x y) eqn:Hxy.
    + constructor; [by constructor | by constructor].
    + constructor; [by apply IH |].
      destruct Hhd as [|z l' Hyz]; simpl.
      * constructor. by apply le_total_on.
      * destruct (le x z); constructor; [by apply le_total_on | done].
Qed.

Lemma sort_by_is_sorted_on l : Forall P l → sorted_by le (sort_by le l).
Proof.
  induction 1 as [|x l Hx Hl IH]; simpl; [constructor |].
  apply insert_sorted_sorted_on; [done | by apply sort_by_Forall | done].
Qed.

End sorted_on.

Section num_facts.
Context {A : Type} `{NumLaws A}.
Implicit Types (l e : list (Z * A)) (vs : list A) (acc a b x : A).

Local Abbreviation nn := (λ x : A, leb zero x = true).
Local Abbreviation nonneg := (Forall (λ p : Z * A, leb zero p.2 = true)).
Local Abbreviation desc := (λ p q : Z * A, leb q.2 p.2 = true).

Lemma leb_refl_nonneg x : nn x → leb x x = true.
Proof. intros Hx. by destruct (leb_total x x Hx Hx). Qed.

Lemma add_nonneg a x : nn a → nn x → nn (add a x).
Proof. intros Ha Hx. exact (leb_trans _ _ _ Ha (add_nonneg_le a x Ha Hx)). Qed.

Lemma foldl_add_nonneg acc vs : nn acc → Forall nn vs → nn (foldl add acc vs).
Proof.
  intros Ha Hvs. revert acc Ha. induction Hvs as [|v vs Hv _ IH]; intros acc Ha; [done |].
  cbn [foldl]. apply IH. by apply add_nonneg.
Qed.

Lemma sum_over_nonneg vs : Forall nn vs → nn (sum_over vs).
Proof. apply foldl_add_nonneg, leb_zero_zero. Qed.

Lemma nonneg_snd l : nonneg l → Forall nn l.*2.
Proof. intros Hl. by apply Forall_fmap. Qed.

(** [ORDER BY num_total DESC] ranks non-negative flows in descending
    order. *)
Lemma order_by_desc_sorted l : nonneg l → sorted_by (λ p q, leb q.2 p.2) (order_by_desc snd l).
Proof.
  intros Hl. unfold order_by_desc.
  apply (sort_by_is_sorted_on _ (λ p : Z * A, leb zero p.2 = true)); [| done].
  intros p q Hp Hq Hpq. destruct (leb_total q.2 p.2 Hq Hp) as [Hle | Hle]; [congruence | done].
Qed.

Lemma order_by_desc_StronglySorted_num l :
  nonneg l → StronglySorted desc (order_by_desc snd l).
Proof.
  intros Hl. apply Sorted_StronglySorted; [| by apply order_by_desc_sorted].
  intros p q r Hpq Hqr. cbn beta in *. by eapply leb_trans.
Qed.

(** Once the running sum has passed the bound, no later row is kept. *)
Lemma filter_running_exceeded b acc l :
  nonneg l → nn acc → leb acc b = false →
  filter (λ rc : Z * A * A, leb rc.2 b = true) (zip l (running_sum acc (snd <$> l))) = [].
Proof.
  intros Hl. revert acc. induction Hl as [|p l Hp _ IH]; intros acc Ha Hacc; [done |].
  rewrite fmap_cons. cbn [running_sum zip zip_with].
  assert (leb (add acc p.2) b = false) as Hnext.
  { destruct (leb (add acc p.2) b) eqn:Hle; [| done].
    rewrite <- Hacc. symmetry.
    exact (leb_trans _ _ _ (add_nonneg_le acc p.2 Ha Hp) Hle). }
  rewrite filter_cons_False by (cbn [snd]; congruence).
  apply IH; [by apply add_nonneg | done].
Qed.

(** On non-negative flows the rows with [cs <= bound] are a prefix: the
    [WHERE] clause keeps exactly [coverage_prefix]. *)
Lemma filter_running_prefix b acc l :
  nonneg l → nn acc →
  fst <$> filter (λ rc : Z * A * A, leb rc.2 b = true) (zip l (running_sum acc (snd <$> l)))
  = coverage_prefix b acc l.
Proof.
  intros Hl. revert acc. induction Hl as [|p l Hp Hl IH]; intros acc Ha; [done |].
  rewrite fmap_cons. cbn [running_sum zip zip_with coverage_prefix].
  destruct (leb (add acc p.2) b) eqn:Hle.
  - rewrite filter_cons_True by done. rewrite fmap_cons. cbn [fst].
    f_equal. apply IH. by apply add_nonneg.
  - rewrite filter_cons_False by (cbn [snd]; congruence).
    rewrite filter_running_exceeded; [done | done | by apply add_nonneg | done].
Qed.

Lemma coverage_prefix_prefix_num b acc l : coverage_prefix b acc l `prefix_of` l.
Proof.
  revert acc. induction l as [|p l IH]; intros acc; cbn [coverage_prefix]; [done |].
  destruct (leb _ _); [by apply prefix_cons | apply prefix_nil].
Qed.

Lemma prefix_sorted_by {B} (le : B → B → bool) (l l' : list B) :
  l `prefix_of` l' → sorted_by le l' → sorted_by le l.
Proof.
  intros [k ->]. unfold sorted_by. induction l as [|p l IH]; intros Hs; [constructor |].
  rewrite <- app_comm_cons in Hs. apply Sorted_inv in Hs as [Hs Hhd].
  constructor; [by apply IH |].
  destruct l; [constructor |]. apply HdRel_inv in Hhd. by constructor.
Qed.

(** The running sum of every row the prefix keeps is within the bound. *)
Lemma coverage_prefix_running b acc l (n : nat) :
  (0 < n ≤ length (coverage_prefix b acc l))%nat →
  leb (foldl add acc (take n (coverage_prefix b acc l)).*2) b = true.
Proof.
  revert acc n. induction l as [|p l IH]; intros acc n; cbn [coverage_prefix].
  { cbn [length]. lia. }
  destruct (leb (add acc p.2) b) eqn:Hle; [| cbn [length]; lia].
  cbn [length]. intros Hn. destruct n as [|n]; [lia |].
  rewrite firstn_cons, fmap_cons. cbn [foldl].
  destruct n as [|n]; [by rewrite take_0 |].
  apply IH. lia.
Qed.

(** The first row the prefix leaves out passes the bound. *)
Lemma coverage_prefix_next b acc l (q : Z * A) (rest : list (Z * A)) :
  l = coverage_prefix b acc l ++ q :: rest →
  leb (foldl add acc (coverage_prefix b acc l ++ [q]).*2) b = false.
Proof.
  revert acc. induction l as [|p l IH]; intros acc; cbn [coverage_prefix].
  { by intros ?%app_cons_not_nil. }
  destruct (leb (add acc p.2) b) eqn:Hle.
  - rewrite <- !app_comm_cons. intros [= Hl]. rewrite fmap_cons. cbn [foldl]. by apply IH.
  - rewrite app_nil_l. intros [= <- _]. done.
Qed.

(** The rows the coverage query keeps, on non-negative flows. *)
Lemma coverage_query_prefix_num e c (topk : Z) :
  nonneg e → 0 ≤ topk →
  coverage_query e c topk =
  Ok (take (Z.to_nat topk)
        (coverage_prefix (mul c (sum_over e.*2)) zero (order_by_desc snd e))).
Proof.
  intros He Hk. unfold coverage_query, coverage_rows. cbv zeta.
  rewrite filter_running_prefix; [| by apply sort_by_Forall | apply leb_zero_zero].
  unfold order_by_desc at 1. rewrite sort_by_sorted.
  - unfold limit. by rewrite bool_decide_eq_false_2 by lia.
  - eapply prefix_sorted_by; [apply coverage_prefix_prefix_num |].
    by apply order_by_desc_sorted.
Qed.

(** The prefix within the bound, capped, is the selection the
    specification describes. *)
Lemma coverage_prefix_cut e c (topk : Z) :
  nonneg e → 0 ≤ topk →
  coverage_cut e c topk
    (take (Z.to_nat topk)
       (coverage_prefix (mul c (sum_over e.*2)) zero (order_by_desc snd e))).
Proof.
  intros He Hk. set (b := mul c _). set (ranked := order_by_desc snd e).
  set (cp := coverage_prefix b zero ranked).
  destruct (coverage_prefix_prefix_num b zero ranked) as [r1 Hr1]. fold cp in Hr1.
  exists (drop (Z.to_nat topk) cp ++ r1).
  assert (take (Z.to_nat topk) cp ++ drop (Z.to_nat topk) cp ++ r1 = ranked) as Hranked
    by (by rewrite app_assoc, take_drop).
  split; [rewrite Hranked; apply sort_by_perm |].
  split; [rewrite Hranked; by apply order_by_desc_StronglySorted_num |].
  split; [rewrite length_take; lia |].
  split.
  - intros n Hn. rewrite length_take in Hn.
    rewrite take_take. replace (n `min` Z.to_nat topk)%nat with n by lia.
    apply coverage_prefix_running. change (0 < n ≤ length cp)%nat. lia.
  - rewrite length_take. intros Hlt q Hq.
    assert (length cp < Z.to_nat topk)%nat as Hshort by lia.
    rewrite take_ge by lia. rewrite drop_ge in Hq by lia.
    destruct r1 as [|y r1]; [done |]. injection Hq as ->.
    apply coverage_prefix_next with (rest := r1). exact Hr1.
Qed.

End num_facts.

Section flows_facts.
Context {A : Type} `{Num A} (eng : Engine) (fs : appdata A).
Implicit Types (year grid_id topk : Z) (cov c : A) (direction : string).

Lemma limit_Ok {B} topk (rows l : list B) :
  limit topk rows = Ok l → 0 ≤ topk ∧ l = take (Z.to_nat topk) rows.
Proof.
  unfold limit. case_bool_decide; [done |]. intros [= <-]. split; [lia | done].
Qed.

Lemma limit_length {B} topk (rows l : list B) :
  limit topk rows = Ok l → Z.of_nat (length l) ≤ topk.
Proof.
  intros [Hk ->]%limit_Ok. rewrite length_take. lia.
Qed.

(** Whatever the coverage, a direction never selects more than [topk] rows. *)
Lemma select_edges_length k key other year grid_id topk cov l :
  select_edges fs k key other year grid_id topk cov = Ok l →
  Z.of_nat (length l) ≤ topk.
Proof.
  unfold select_edges. destruct (read_edges fs k year) as [rows|]; [simpl | done].
  destruct (ltb _ _); apply limit_length.
Qed.

(** Enrichment keeps the selected rows whose counterpart has metadata, in
    order, and drops the others. *)
Lemma enrich_out_pairs grid_id (center : option GridCell) (sel : list (Z * A)) :
  (λ e, (fe_d_grid e, fe_num_total e)) <$>
    omap (λ e, tgt ← coord eng e.1;
               Some {| fe_o_grid := grid_id; fe_d_grid := e.1; fe_num_total := e.2;
                       fe_o := center; fe_d := Some tgt |}) sel
  = known eng sel.
Proof.
  unfold known. induction sel as [|[g v] sel IH]; [done |].
  cbn [omap list_omap]. unfold coord at 1. cbn [fst snd].
  destruct (meta_by_id eng !! g) as [m|] eqn:Hm; cbn [mbind option_bind].
  - rewrite filter_cons_True by (simpl; rewrite Hm; by eexists).
    rewrite fmap_cons. cbn [fe_d_grid fe_o_grid fe_num_total]. by rewrite <- IH.
  - rewrite filter_cons_False by (simpl; rewrite Hm; by intros [??]). done.
Qed.

Lemma enrich_in_pairs grid_id (center : option GridCell) (sel : list (Z * A)) :
  (λ e, (fe_o_grid e, fe_num_total e)) <$>
    omap (λ e, src ← coord eng e.1;
               Some {| fe_o_grid := e.1; fe_d_grid := grid_id; fe_num_total := e.2;
                       fe_o := Some src; fe_d := center |}) sel
  = known eng sel.
Proof.
  unfold known. induction sel as [|[g v] sel IH]; [done |].
  cbn [omap list_omap]. unfold coord at 1. cbn [fst snd].
  destruct (meta_by_id eng !! g) as [m|] eqn:Hm; cbn [mbind option_bind].
  - rewrite filter_cons_True by (simpl; rewrite Hm; by eexists).
    rewrite fmap_cons. cbn [fe_d_grid fe_o_grid fe_num_total]. by rewrite <- IH.
  - rewrite filter_cons_False by (simpl; rewrite Hm; by intros [??]). done.
Qed.

(** The shape of every successful flows query. *)
Lemma flows_for_grid_Ok year grid_id direction topk cov r :
  flows_for_grid eng fs year grid_id direction topk cov = Ok r →
  direction ∈ ["out"; "in"; "both"] ∧
  ∃ out inn,
    (if bool_decide (direction ∈ ["out"; "both"])
     then select_edges fs edges_by_o o_grid d_grid year grid_id topk cov
     else Ok []) = Ok out ∧
    (if bool_decide (direction ∈ ["in"; "both"])
     then select_edges fs edges_by_d d_grid o_grid year grid_id topk cov
     else Ok []) = Ok inn ∧
    center r = meta_by_id eng !! grid_id ∧
    out_pairs r = known eng out ∧ in_pairs r = known eng inn.
Proof.
  unfold flows_for_grid. case_bool_decide as Hdir; [done |].
  destruct (if bool_decide (direction ∈ ["out"; "both"]) then _ else _) as [out|]; [simpl | done].
  destruct (if bool_decide (direction ∈ ["in"; "both"]) then _ else _) as [inn|]; [simpl | done].
  intros [= <-]. split; [done |]. exists out, inn. split_and!; try done.
  - apply enrich_out_pairs.
  - apply enrich_in_pairs.
Qed.

Lemma known_length (l : list (Z * A)) : (length (known eng l) ≤ length l)%nat.
Proof. apply length_filter. Qed.

Lemma known_elem (e : Z * A) (l : list (Z * A)) :
  e ∈ known eng l → is_Some (meta_by_id eng !! e.1).
Proof. unfold known. by intros [? _]%list_elem_of_filter. Qed.

End flows_facts.

Lemma direction_in (direction : string) :
  direction ∈ ["out"; "in"; "both"] → direction ∉ ["out"; "both"] →
  direction ∈ ["in"; "both"].
Proof. rewrite !elem_of_cons, !elem_of_nil. intros [?|[?|[?|[]]]] Hn; auto. Qed.

Lemma select_edges_Ok_topk {A} `{Num A} (fs : appdata A) k key other year grid_id topk
    (cov : A) l :
  select_edges fs k key other year grid_id topk cov = Ok l → 0 ≤ topk.
Proof.
  unfold select_edges. destruct (read_edges fs k year) as [rows|]; [simpl | done].
  destruct (ltb _ _); by intros [? _]%limit_Ok.
Qed.

(** C4. A flows query that returns a result has at most [topk] entries in
    each of [out_edges] and [in_edges], with the coverage query as with the
    plain query; the counterpart of every returned edge is a key of the grid
    metadata, and the returned edges of a direction are the selected rows of
    that direction without the rows whose counterpart has no metadata. *)
Theorem C4_topk_and_metadata {A : Type} `{Num A} (eng : Engine) (fs : appdata A)
    (year grid_id : Z) (direction : string) (topk : Z) (cov : A) (r : FlowsResult A) :
  flows_for_grid eng fs year grid_id direction topk cov = Ok r →
  Z.of_nat (length (out_edges r)) ≤ topk ∧
  Z.of_nat (length (in_edges r)) ≤ topk ∧
  (∀ e, e ∈ out_edges r → is_Some (meta_by_id eng !! fe_d_grid e)) ∧
  (∀ e, e ∈ in_edges r → is_Some (meta_by_id eng !! fe_o_grid e)) ∧
  ∃ out inn,
    (if bool_decide (direction ∈ ["out"; "both"])
     then select_edges fs edges_by_o o_grid d_grid year grid_id topk cov
     else Ok []) = Ok out ∧
    (if bool_decide (direction ∈ ["in"; "both"])
     then select_edges fs edges_by_d d_grid o_grid year grid_id topk cov
     else Ok []) = Ok inn ∧
    out_pairs r = known eng out ∧ in_pairs r = known eng inn.
Proof.
  intros (Hdir & out & inn & Hout & Hinn & _ & Hop & Hip)%flows_for_grid_Ok.
  assert (0 ≤ topk) as Hk.
  { destruct (decide (direction ∈ ["out"; "both"])) as [Ho|Ho].
    - rewrite bool_decide_eq_true_2 in Hout by done.
      exact (select_edges_Ok_topk _ _ _ _ _ _ _ _ _ Hout).
    - rewrite (bool_decide_eq_true_2 (direction ∈ ["in"; "both"])) in Hinn
        by (by apply direction_in).
      exact (select_edges_Ok_topk _ _ _ _ _ _ _ _ _ Hinn). }
  assert (Z.of_nat (length out) ≤ topk) as Hlo.
  { destruct (bool_decide (direction ∈ ["out"; "both"]));
      [by eapply select_edges_length |]. injection Hout as <-. simpl. lia. }
  assert (Z.of_nat (length inn) ≤ topk) as Hli.
  { destruct (bool_decide (direction ∈ ["in"; "both"]));
      [by eapply select_edges_length |]. injection Hinn as <-. simpl. lia. }
  split_and!.
  - pose proof (known_length eng out) as Hl. rewrite <- Hop in Hl.
    unfold out_pairs in Hl. rewrite length_fmap in Hl. lia.
  - pose proof (known_length eng inn) as Hl. rewrite <- Hip in Hl.
    unfold in_pairs in Hl. rewrite length_fmap in Hl. lia.
  - intros e He.
    apply (known_elem eng (fe_d_grid e, fe_num_total e) out). rewrite <- Hop.
    unfold out_pairs. by apply (list_elem_of_fmap_2 (λ e, (fe_d_grid e, fe_num_total e))).
  - intros e He.
    apply (known_elem eng (fe_o_grid e, fe_num_total e) inn). rewrite <- Hip.
    unfold in_pairs. by apply (list_elem_of_fmap_2 (λ e, (fe_o_grid e, fe_num_total e))).
  - by exists out, inn.
Qed.

Lemma C4_topk_and_metadata_witness :
  ∃ r, flows_for_grid flows_meta flows_fs 2021 100 "both" 2 0 = Ok r ∧
    Z.of_nat (length (out_edges r)) ≤ 2 ∧
    Z.of_nat (length (in_edges r)) ≤ 2 ∧
    (∀ e, e ∈ out_edges r → is_Some (meta_by_id flows_meta !! fe_d_grid e)) ∧
    (∀ e, e ∈ in_edges r → is_Some (meta_by_id flows_meta !! fe_o_grid e)) ∧
    ∃ out inn,
      (if bool_decide ("both" ∈ ["out"; "both"])
       then select_edges flows_fs edges_by_o o_grid d_grid 2021 100 2 0
       else Ok []) = Ok out ∧
      (if bool_decide ("both" ∈ ["in"; "both"])
       then select_edges flows_fs edges_by_d d_grid o_grid 2021 100 2 0
       else Ok []) = Ok inn ∧
      out_pairs r = known flows_meta out ∧ in_pairs r = known flows_meta inn.
Proof.
  destruct (flows_for_grid flows_meta flows_fs 2021 100 "both" 2 0) as [r|e] eqn:Hr.
  - exists r. split; [reflexivity |].
    exact (C4_topk_and_metadata flows_meta flows_fs 2021 100 "both" 2 0%Q r Hr).
  - vm_compute in Hr. discriminate Hr.
Defined.

(** The two largest outbound flows of grid 100 go to 400 and 300; grid 400
    has no metadata, so a query with [topk = 2] returns one outbound edge. *)
Example flows_fewer_than_topk :
  out_pairs <$> flows_for_grid flows_meta flows_fs 2021 100 "out" 2 0 = Ok [(300, 15%Q)] ∧
  select_edges flows_fs edges_by_o o_grid d_grid 2021 100 2 0 = Ok [(400, 30%Q); (300, 15%Q)].
Proof. split; by vm_compute. Qed.

(** The scenario of the specification: with the flows 5 and 15 to the
    grids 200 and 300, [topk = 1] returns the edge to 300. *)
Example flows_top1_scenario :
  let fs : appdata Q :=
    {[ (edges_by_o, 2021) := TEdges [ {| o_grid := 100; d_grid := 200; num_total := 5%Q |};
                                       {| o_grid := 100; d_grid := 300; num_total := 15%Q |} ] ]} in
  out_pairs <$> flows_for_grid flows_meta fs 2021 100 "out" 1 0 = Ok [(300, 15%Q)].
Proof. by vm_compute. Qed.

(** A query with a valid direction, a non-negative [topk] and readable edge
    files returns a result. *)
Lemma flows_for_grid_total {A} `{Num A} (eng : Engine) (fs : appdata A)
    year grid_id direction topk (cov : A) rows_o rows_d :
  direction ∈ ["out"; "in"; "both"] → 0 ≤ topk →
  read_edges fs edges_by_o year = Ok rows_o →
  read_edges fs edges_by_d year = Ok rows_d →
  ∃ r, flows_for_grid eng fs year grid_id direction topk cov = Ok r.
Proof.
  intros Hdir Hk Ho Hd. unfold flows_for_grid.
  rewrite bool_decide_eq_false_2 by (by intros ?).
  unfold select_edges, coverage_query, topk_query, limit. rewrite Ho, Hd. simpl.
  rewrite !(bool_decide_eq_false_2 (topk < 0)) by lia.
  destruct (ltb _ _); repeat case_bool_decide; simpl; by eexists.
Qed.

(** *** C2 *)

Section coverage_claim.
Context {A : Type} `{NumLaws A}.

Lemma clamp_cov_id (c : A) : ltb zero c = true → ltb one c = false → clamp_cov c = c.
Proof.
  intros Hc0 Hc1. unfold clamp_cov. by rewrite (ltb_asym _ _ Hc0), Hc1.
Qed.

Lemma incident_nonneg_num (key other : Edge A → Z) (grid_id : Z) (rows : list (Edge A)) :
  Forall (λ r, leb zero (num_total r) = true) rows →
  Forall (λ p : Z * A, leb zero p.2 = true) (incident key other grid_id rows).
Proof.
  intros Hnn. unfold incident. apply Forall_fmap, Forall_forall. intros r Hr. cbn.
  rewrite Forall_forall in Hnn. apply Hnn. by apply list_elem_of_filter in Hr as [_ ?].
Qed.

(** One direction with coverage in [(0, 1]]. *)
Lemma select_edges_cut (fs : appdata A) (k : kind) (key other : Edge A → Z)
    (year grid_id topk : Z) (c : A) (rows : list (Edge A)) :
  read_edges fs k year = Ok rows →
  Forall (λ r, leb zero (num_total r) = true) rows →
  ltb zero c = true → ltb one c = false → 0 ≤ topk →
  ∃ sel, select_edges fs k key other year grid_id topk c = Ok sel ∧
         coverage_cut (incident key other grid_id rows) c topk sel.
Proof.
  intros Hread Hnn Hc0 Hc1 Hk. unfold select_edges. rewrite Hread. cbn [mbind result_bind].
  rewrite clamp_cov_id by done. rewrite Hc0.
  fold (incident key other grid_id rows).
  pose proof (incident_nonneg_num key other grid_id rows Hnn) as He.
  rewrite coverage_query_prefix_num by done.
  eexists. split; [done |]. by apply coverage_prefix_cut.
Qed.

(** The cumulative flow of a selection is within its bound. *)
Lemma selection_share (e sel : list (Z * A)) (c : A) (topk : Z) :
  Forall (λ p : Z * A, leb zero p.2 = true) e →
  ltb zero c = true → ltb one c = false →
  coverage_cut e c topk sel →
  leb (sum_over sel.*2) (mul c (sum_over e.*2)) = true.
Proof.
  intros He Hc0 Hc1 (rest & _ & _ & _ & Hrun & _).
  destruct sel as [|p sel].
  - apply mul_cov_nonneg; [done | done |]. by apply sum_over_nonneg, nonneg_snd.
  - rewrite <- (firstn_all (p :: sel)) at 1. apply Hrun. cbn [length]. lia.
Qed.

End coverage_claim.



(** The same in exact arithmetic: a selection by the coverage rule has the
    cumulative flow within its bound and ranks by descending flow. *)
Lemma select_edges_cut_exact (fs : appdata Q) (k : kind) (key other : Edge Q → Z)
    (year grid_id topk : Z) (c : Q) (rows : list (Edge Q)) :
  read_edges fs k year = Ok rows →
  Forall (λ r, (0 <= num_total r)%Q) rows →
  (0 < c)%Q → (c <= 1)%Q → 0 ≤ topk →
  ∃ sel, select_edges fs k key other year grid_id topk c = Ok sel ∧
         coverage_cut (incident key other grid_id rows) c topk sel.
Proof.
  intros Hread Hnn Hc0 Hc1 Hk.
  apply (select_edges_cut (H1 := Q_num_laws)); try done.
  - eapply Forall_impl; [exact Hnn |]. intros r Hr. cbn. by apply bool_decide_eq_true_2.
  - cbn. by apply bool_decide_eq_true_2.
  - cbn. apply bool_decide_eq_false_2. lra.
Qed.

(** With coverage 0.9 the outbound flows 30, 15 and 5 of grid 100 (total
    50, bound 45) are cut after 30 + 15; the partner 400 has no metadata. *)
Example flows_coverage_example :
  select_edges flows_fs edges_by_o o_grid d_grid 2021 100 10 (9 # 10)
    = Ok [(400, 30%Q); (300, 15%Q)] ∧
  out_pairs <$> flows_for_grid flows_meta flows_fs 2021 100 "out" 10 (9 # 10)
    = Ok [(300, 15%Q)] ∧
  select_edges flows_fs edges_by_o o_grid d_grid 2021 100 10 (1 # 2) = Ok [].
Proof. split_and!; by vm_compute. Qed.

(** The same query in binary64.  With the flows 1.8 and 1.2 and coverage
    0.6 the bound is the rounded product 0.6 × 3.0 = 1.7999999999999998,
    which the first running sum 1.8 passes: nothing is selected.  With the
    flows 7 and 3 and coverage 0.7 the rounded product 0.7 × 10.0 is 7.0,
    and the edge with flow 7 is selected. *)
Example flows_coverage_binary64 :
  select_edges (flows_fs64 1.8 1.2) edges_by_o o_grid d_grid 2021 100 10 0.6%float = Ok [] ∧
  select_edges (flows_fs64 7 3) edges_by_o o_grid d_grid 2021 100 10 0.7%float
    = Ok [(200, 7%float)] ∧
  select_edges (flows_fs64 7 3) edges_by_o o_grid d_grid 2021 100 10 1%float
    = Ok [(200, 7%float); (300, 3%float)].
Proof. split_and!; by vm_compute. Qed.

(** ** [/api/flows]: the year modes *)

Section api_flows_facts.
Context {A : Type} `{Num A} (eng : Engine) (fs : appdata A) (grid_id : Z)
        (direction : string) (topk : Z) (cov : A).

Local Abbreviation flows_of y := (flows_for_grid eng fs y grid_id direction topk cov).
Local Abbreviation loop years data available :=
  (flows_all_years eng fs years grid_id direction topk cov data available).

(** The loop visits the years that have both edge files, in order, and
    stores the result of each of them. *)
Lemma flows_all_years_Ok years data available data' available' :
  loop years data available = Ok (data', available') →
  available' = available ++ years_with_edges fs years ∧
  ∀ y r, data' !! y = Some r ↔
    ((y ∈ years_with_edges fs years ∧ flows_of y = Ok r) ∨
     ((y ∉ years_with_edges fs years) ∧ data !! y = Some r)).
Proof.
  revert data available. induction years as [|y0 years IH]; intros data available; simpl.
  - intros [= <- <-]. unfold years_with_edges. rewrite filter_nil, app_nil_r. split; [done |].
    intros y r. rewrite elem_of_nil. tauto.
  - fold (has_edges fs y0). unfold years_with_edges. rewrite filter_cons.
    fold (years_with_edges fs years).
    destruct (has_edges fs y0) eqn:He; simpl.
    + destruct (flows_of y0) as [r0|] eqn:Hr0; [simpl | done].
      intros [-> Hd]%IH. rewrite <- app_assoc. split; [done |].
      intros y r. rewrite Hd, elem_of_cons. destruct (decide (y = y0)) as [->|Hne].
      * rewrite lookup_insert_eq, Hr0. split.
        -- intros [[_ ?] | [_ ?]]; left; split; auto; congruence.
        -- intros [[_ ?] | [Hn _]]; [| exfalso; apply Hn; by left].
           destruct (decide (y0 ∈ years_with_edges fs years)); [left | right]; split;
             auto; congruence.
      * rewrite lookup_insert_ne by done. tauto.
    + intros [-> Hd]%IH. split; [done |]. intros y r. by rewrite Hd.
Qed.

Lemma flows_all_years_total years data available :
  (∀ y, y ∈ years_with_edges fs years → ∃ r, flows_of y = Ok r) →
  ∃ res, loop years data available = Ok res.
Proof.
  revert data available. induction years as [|y0 years IH]; intros data available Hok; simpl.
  - by eexists.
  - fold (has_edges fs y0). unfold years_with_edges in Hok. rewrite filter_cons in Hok.
    fold (years_with_edges fs years) in Hok.
    destruct (has_edges fs y0) eqn:He; simpl in *.
    + destruct (Hok y0) as [r0 ->]; [left |]. simpl. apply IH.
      intros y Hy. apply Hok. by right.
    + by apply IH.
Qed.

End api_flows_facts.

(** C8. For a flows query with a grid id: in ["all"] mode the answer is
    "no indexes available" exactly when no configured year has both edge
    files; an answer with data maps exactly the years that have both edge
    files, each to the result of the query run on that year, and such an
    answer is given as soon as these runs succeed.  For a single year
    without one of its edge files the answer is "index missing" with that
    year; with both files it is the result of the query on that year. *)
Theorem C8_flows_year_modes {A : Type} `{Num A} (eng : Engine) (fs : appdata A)
    (grid_id : Z) (direction : string) (topk : Z) (cov : A) :
  grid_id ≠ 0 →
  (available_years fs = [] ↔
     api_flows eng fs YearAll grid_id direction topk cov = FlowsNoIndexes) ∧
  (∀ data, api_flows eng fs YearAll grid_id direction topk cov = FlowsYears data →
     available_years fs ≠ [] ∧
     ∀ y r, data !! y = Some r ↔
       y ∈ available_years fs ∧
       flows_for_grid eng fs y grid_id direction topk cov = Ok r) ∧
  (available_years fs ≠ [] →
   (∀ y, y ∈ available_years fs →
      ∃ r, flows_for_grid eng fs y grid_id direction topk cov = Ok r) →
   ∃ data, api_flows eng fs YearAll grid_id direction topk cov = FlowsYears data) ∧
  (∀ y, has_edges fs y = false →
     api_flows eng fs (YearInt y) grid_id direction topk cov = FlowsIndexMissing [y]) ∧
  (∀ y, has_edges fs y = true →
     api_flows eng fs (YearInt y) grid_id direction topk cov =
     match flows_for_grid eng fs y grid_id direction topk cov with
     | Ok r => FlowsOne r
     | Err e => FlowsUnhandled (Some e)
     end).
Proof.
  intros Hg. unfold api_flows. rewrite bool_decide_eq_false_2 by done.
  split_and!.
  - split.
    + intros Hnone.
      destruct (flows_all_years_total eng fs grid_id direction topk cov YEARS ∅ [])
        as [[data available] Hloop].
      { fold (available_years fs). rewrite Hnone. by intros y ?%elem_of_nil. }
      rewrite Hloop. apply flows_all_years_Ok in Hloop as [-> _].
      fold (available_years fs). rewrite Hnone. done.
    + destruct (flows_all_years _ _ _ _ _ _ _ _ _) as [[data available]|] eqn:Hloop; [| done].
      apply flows_all_years_Ok in Hloop as [-> _]. fold (available_years fs). simpl.
      by case_bool_decide.
  - intros data.
    destruct (flows_all_years _ _ _ _ _ _ _ _ _) as [[data' available]|] eqn:Hloop; [| done].
    apply flows_all_years_Ok in Hloop as [-> Hd]. fold (available_years fs) in *.
    simpl. case_bool_decide as Hav; [done |]. intros [= <-]. split; [done |].
    intros y r. rewrite Hd, lookup_empty. split; [intros [? | [_ ?]]; done |].
    intros ?. by left.
  - intros Hsome Hok.
    destruct (flows_all_years_total eng fs grid_id direction topk cov YEARS ∅ [] Hok)
      as [[data available] Hloop].
    rewrite Hloop. apply flows_all_years_Ok in Hloop as [-> _].
    fold (available_years fs). simpl.
    rewrite bool_decide_eq_false_2 by done. by eexists.
  - intros y. unfold has_edges. by destruct (exists_ fs edges_by_o y), (exists_ fs edges_by_d y).
  - intros y. unfold has_edges. by destruct (exists_ fs edges_by_o y), (exists_ fs edges_by_d y).
Qed.

Lemma C8_flows_year_modes_witness :
  100 ≠ 0 ∧
  (available_years flows_fs = [] ↔
     api_flows flows_meta flows_fs YearAll 100 "both" 10 0 = FlowsNoIndexes) ∧
  (∀ data, api_flows flows_meta flows_fs YearAll 100 "both" 10 0 = FlowsYears data →
     available_years flows_fs ≠ [] ∧
     ∀ y r, data !! y = Some r ↔
       y ∈ available_years flows_fs ∧
       flows_for_grid flows_meta flows_fs y 100 "both" 10 0 = Ok r) ∧
  (available_years flows_fs ≠ [] →
   (∀ y, y ∈ available_years flows_fs →
      ∃ r, flows_for_grid flows_meta flows_fs y 100 "both" 10 0 = Ok r) →
   ∃ data, api_flows flows_meta flows_fs YearAll 100 "both" 10 0 = FlowsYears data) ∧
  (∀ y, has_edges flows_fs y = false →
     api_flows flows_meta flows_fs (YearInt y) 100 "both" 10 0 = FlowsIndexMissing [y]) ∧
  (∀ y, has_edges flows_fs y = true →
     api_flows flows_meta flows_fs (YearInt y) 100 "both" 10 0 =
     match flows_for_grid flows_meta flows_fs y 100 "both" 10 0 with
     | Ok r => FlowsOne r
     | Err e => FlowsUnhandled (Some e)
     end).
Proof.
  assert (H : 100 ≠ 0) by lia.
  split; [exact H |].
  exact (C8_flows_year_modes flows_meta flows_fs 100 "both" 10 0%Q H).
Defined.

(** Only 2021 has edge files in [flows_fs]: ["all"] answers with the single
    key 2021, the year 2018 alone is "index missing", and an empty
    directory is "no indexes available". *)
Example api_flows_modes_example :
  available_years flows_fs = [2021] ∧
  (∃ data, api_flows flows_meta flows_fs YearAll 100 "both" 10 0 = FlowsYears data ∧
           dom data = {[ 2021 ]}) ∧
  api_flows flows_meta flows_fs (YearInt 2018) 100 "both" 10 0 = FlowsIndexMissing [2018] ∧
  api_flows flows_meta ∅ YearAll 100 "both" 10 0 = FlowsNoIndexes.
Proof.
  split; [by vm_compute |]. split; [| split; by vm_compute].
  eexists. split; [by vm_compute |]. by vm_compute.
Qed.

(** ** The sum invariant of the aggregates *)

Global Instance Z_exact : ExactArith Z.
Proof. split; simpl; intros; lia. Qed.

Global Instance Q_exact : ExactArith Q.
Proof.
  split; simpl.
  - intros [p1 q1] [p2 q2]. unfold Qplus; simpl. f_equal; lia.
  - intros [p1 q1] [p2 q2] [p3 q3]. unfold Qplus; simpl.
    f_equal; [| lia]. rewrite !Pos2Z.inj_mul. ring.
Qed.

Section sum_invariant.
Context {A : Type} `{Arith A} `{DateEngine}.

(** The totals view computes [total] from the two totals of the same row. *)
Lemma totals_rows_inv (e_out e_in : list (Edge A)) :
  Forall total_sum_inv (totals_rows e_out e_in).
Proof.
  unfold totals_rows, order_by_keys. apply sort_by_Forall.
  unfold gt_view. apply Forall_fmap, Forall_forall. by intros ??.
Qed.

(** Adding two triples [(out, in, out + in)] gives such a triple again when
    addition is associative and commutative. *)
Lemma triple_add_closed `{!ExactArith A} (x y : A * A * A) :
  x.2 = add x.1.1 x.1.2 → y.2 = add y.1.1 y.1.2 →
  (add x y).2 = add (add x y).1.1 (add x y).1.2.
Proof.
  destruct x as [[o1 i1] t1], y as [[o2 i2] t2]; simpl. intros -> ->.
  rewrite <- (add_assoc' o1 i1 (add o2 i2)), (add_assoc' i1 o2 i2).
  rewrite (add_comm' i1 o2).
  by rewrite <- (add_assoc' o2 i1 i2), (add_assoc' o1 o2 (add i1 i2)).
Qed.

Lemma hourly_rows_inv `{!ExactArith A} (src : list (RawRow A)) :
  Forall hourly_sum_inv (hourly_rows src).
Proof.
  unfold hourly_rows, order_by_keys. apply sort_by_Forall.
  unfold hourly_view. apply Forall_fmap.
  eapply Forall_impl;
    [apply (group_sum_Forall (λ v : A * A * A, v.2 = add v.1.1 v.1.2)) |].
  - intros x y. apply triple_add_closed.
  - apply Forall_fmap, Forall_forall. by intros ??.
  - by intros [k v].
Qed.

End sum_invariant.

(** Where the invariant holds.  Every row of the grid totals satisfies
    [total = out + in] for every column arithmetic: the view adds the two
    columns of the row itself.  Every row of the hourly aggregate satisfies
    it when the addition of the column is associative and commutative (no
    rounding, as for integer counts): its [total] is the sum over the days
    of the week of [out + in]. *)
Lemma sum_invariant_exact {A : Type} `{Arith A} `{DateEngine}
    (src : list (RawRow A)) (e_out e_in : list (Edge A)) :
  Forall total_sum_inv (totals_rows e_out e_in) ∧
  (ExactArith A → Forall hourly_sum_inv (hourly_rows src)).
Proof.
  split; [apply totals_rows_inv |]. intros ?. by apply hourly_rows_inv.
Qed.

(** C5. The invariant fails on the hourly aggregate in binary64, the
    arithmetic of the [DOUBLE] columns: for [rounding_rows] the hourly row
    of grid 100 has out [0.1 + 0.2], in [0 + 0.3] and total
    [(0.1 + 0) + (0.2 + 0.3)], and [0.30000000000000004 + 0.3] is not
    [0.1 + 0.5]. *)
Lemma C5_hourly_rounding_counterexample :
  ¬ Forall hourly_sum_inv (@hourly_rows float _ iso_dates rounding_rows).
Proof.
  intros Hall.
  assert (Hhead : ∃ r, head (@hourly_rows float _ iso_dates rounding_rows) = Some r ∧
            h_grid_id r = 100 ∧
            PrimFloat.eqb (h_total r) (h_total r) = true ∧
            PrimFloat.eqb (h_total r) (add (h_out_total r) (h_in_total r)) = false).
  { eexists. split; [vm_compute; reflexivity |]. by vm_compute. }
  destruct Hhead as (r & Hr & _ & Hrefl & Hne).
  apply head_Some_elem_of in Hr.
  rewrite Forall_forall in Hall. specialize (Hall r Hr).
  unfold hourly_sum_inv in Hall. rewrite <- Hall in Hne. congruence.
Qed.

(** ** Hourly series *)

Section hourly_facts.
Implicit Types (r : HourlyRow Q) (rows table : list (HourlyRow Q)) (weeks : list Z)
  (tmp : list Q * list Q * list Q).

Lemma hourly_fill_ok weeks tmp r : tmp_ok tmp → tmp_ok (hourly_fill weeks tmp r).
Proof.
  intros (?&?&?). unfold hourly_fill, tmp_ok.
  repeat case_bool_decide; simpl; rewrite ?length_insert; done.
Qed.

Lemma hourly_fold_ok weeks tmp rows : tmp_ok tmp → tmp_ok (foldl (hourly_fill weeks) tmp rows).
Proof.
  revert tmp. induction rows as [|r rows IH]; intros tmp Htmp; simpl; [done |].
  by apply IH, hourly_fill_ok.
Qed.

(** Slot [h] after the loop holds the values of the last fetched row of a
    kept week with hour [h], and its initial value when there is none. *)
Lemma hourly_fold_slot weeks tmp rows (h : nat) :
  tmp_ok tmp → (h < 24)%nat →
  let tmp' := foldl (hourly_fill weeks) tmp rows in
  match last (filter (λ r, h_week r ∈ weeks ∧ h_hour r = Z.of_nat h) rows) with
  | Some r => tmp'.1.1 !! h = Some (h_out_total r) ∧
              tmp'.1.2 !! h = Some (h_in_total r) ∧
              tmp'.2 !! h = Some (h_total r)
  | None => tmp'.1.1 !! h = tmp.1.1 !! h ∧ tmp'.1.2 !! h = tmp.1.2 !! h ∧
            tmp'.2 !! h = tmp.2 !! h
  end.
Proof.
  intros Htmp Hh. induction rows as [|r rows IH] using rev_ind; simpl; [done |].
  rewrite foldl_app, filter_app. simpl.
  pose proof (hourly_fold_ok weeks tmp rows Htmp) as (Ho & Hi & Ht).
  set (tmp' := foldl (hourly_fill weeks) tmp rows) in *.
  rewrite filter_cons, filter_nil. unfold hourly_fill.
  destruct (decide (h_week r ∈ weeks ∧ h_hour r = Z.of_nat h)) as [[Hw Hr]|Hn].
  - rewrite last_snoc. rewrite bool_decide_eq_true_2 by done.
    rewrite bool_decide_eq_true_2 by lia. simpl.
    rewrite Hr, Nat2Z.id. rewrite !list_lookup_insert_eq by lia. done.
  - rewrite app_nil_r.
    case_bool_decide as Hw; [| done]. case_bool_decide as Hr; [| done]. simpl.
    assert (Z.to_nat (h_hour r) ≠ h) by (intros <-; apply Hn; split; [done | lia]).
    rewrite !list_lookup_insert_ne by done. done.
Qed.

Lemma Zleb_single (a b : Z) : Zlist_leb [a] [b] = true ↔ a ≤ b.
Proof. simpl. rewrite orb_true_iff, andb_true_iff, Z.ltb_lt, Z.eqb_eq. lia. Qed.

Lemma earliest_week_least table grid_id w :
  earliest_week table grid_id = Some w →
  (∃ r, r ∈ table ∧ h_grid_id r = grid_id ∧ h_week r = w) ∧
  (∀ r, r ∈ table → h_grid_id r = grid_id → w ≤ h_week r).
Proof.
  unfold earliest_week. intros Hhd.
  apply sort_by_head_least in Hhd as [Hin Hle].
  - rewrite elem_of_remove_dups in Hin.
    apply list_elem_of_fmap in Hin as (r & -> & Hr).
    apply sort_by_elem_of, list_elem_of_filter in Hr as [Hg Hr].
    split; [by exists r |].
    intros r' Hr' Hg'. apply Zleb_single, Hle.
    rewrite elem_of_remove_dups. apply list_elem_of_fmap_2.
    apply sort_by_elem_of, list_elem_of_filter. done.
  - intros a b. rewrite <- not_true_iff_false, !Zleb_single. lia.
  - intros a b c. rewrite !Zleb_single. lia.
  - intros a. rewrite Zleb_single. lia.
Qed.

Lemma earliest_week_None table grid_id :
  earliest_week table grid_id = None ↔ filter (λ r, h_grid_id r = grid_id) table = [].
Proof.
  unfold earliest_week, fetched_rows, order_by_keys. rewrite head_None. split.
  - intros Hs%sort_by_nil_inv%remove_dups_nil_inv%fmap_nil_inv. by apply sort_by_nil_inv in Hs.
  - by intros ->.
Qed.

Lemma take_1_head {A} (l : list A) :
  take 1 l = match head l with Some x => [x] | None => [] end.
Proof. by destruct l. Qed.

Lemma zeros24_lookup (h : nat) : (h < 24)%nat → zeros24 !! h = Some 0%Q.
Proof. intros ?. by apply lookup_replicate_2. Qed.

(** The fetched rows of week [w] and hour [h] are the rows of the file with
    that grid, week and hour, in file order. *)
Lemma fetched_rows_slot table grid_id w h :
  filter (λ r, h_week r ∈ [w] ∧ h_hour r = h) (fetched_rows table grid_id) =
  filter (λ r, h_grid_id r = grid_id ∧ h_week r = w ∧ h_hour r = h) table.
Proof.
  unfold fetched_rows, order_by_keys. rewrite sort_by_filter.
  - rewrite list_filter_filter. apply list_filter_iff. intros r.
    rewrite list_elem_of_singleton. tauto.
  - intros a b [Ha ->] [Hb Hab]. apply list_elem_of_singleton in Ha, Hb.
    simpl. rewrite Ha, Hb, <- Hab, !Z.eqb_refl. by rewrite !orb_true_r.
Qed.
(** The loop body computes the series of the earliest week, slot by slot. *)
Lemma hourly_year_series table grid_id :
  hourly_year table grid_id = earliest_week_series table grid_id.
Proof.
  unfold hourly_year, earliest_week_series.
  fold (fetched_rows table grid_id). fold (earliest_week table grid_id).
  rewrite take_1_head. fold (earliest_week table grid_id).
  set (weeks := match earliest_week table grid_id with Some x => [x] | None => [] end).
  assert (tmp_ok (zeros24, zeros24, zeros24)) as Hz by done.
  pose proof (hourly_fold_ok weeks _ (fetched_rows table grid_id) Hz) as (Ho & Hi & Ht).
  assert (∀ h : nat, (h < 24)%nat →
    let tmp' := foldl (hourly_fill weeks) (zeros24, zeros24, zeros24)
                  (fetched_rows table grid_id) in
    tmp'.1.1 !! h = Some (slot h_out_total table grid_id (Z.of_nat h)) ∧
    tmp'.1.2 !! h = Some (slot h_in_total table grid_id (Z.of_nat h)) ∧
    tmp'.2 !! h = Some (slot h_total table grid_id (Z.of_nat h))) as Hslots.
  { intros h Hh.
    pose proof (hourly_fold_slot weeks _ (fetched_rows table grid_id) h Hz Hh) as Hs.
    unfold slot, earliest_row. subst weeks.
    destruct (earliest_week table grid_id) as [w|] eqn:Hw; simpl in *.
    - rewrite fetched_rows_slot in Hs.
      destruct (last _) as [r|]; simpl; [done |].
      by rewrite !zeros24_lookup in Hs.
    - apply earliest_week_None in Hw. clear Hs Ho Hi Ht.
      unfold fetched_rows, order_by_keys, sort_by. rewrite Hw.
      cbn [foldr foldl fst snd]. by rewrite !zeros24_lookup. }
  f_equal; f_equal; apply list_eq; intros h; rewrite list_lookup_fmap;
    (destruct (decide (h < 24)%nat) as [Hh|Hh];
     [rewrite lookup_seqZ_lt by lia; simpl; rewrite Z.add_0_l; by apply Hslots
     | rewrite lookup_seqZ_ge by lia; simpl; apply lookup_ge_None_2; lia]).
Qed.

End hourly_facts.

Section hourly_loops.
Context (fs : appdata Q) (grid_id : Z).
Implicit Types (years : list Z) (out : gmap Z HourlySeries).

Lemma read_hourly_exists y table : read_hourly fs y = Ok table → exists_ fs hourly y = true.
Proof.
  unfold read_hourly, exists_. by destruct (fs !! (hourly, y)) as [[]|].
Qed.

(** The loop of [hourly_series_for_grid] stores the series of every listed
    year whose file exists and leaves the other keys alone. *)
Lemma hourly_series_loop_Ok years out :
  hourly_files_readable fs →
  ∃ out', hourly_series_loop fs grid_id years out = Ok out' ∧
    ∀ y, (∀ table, y ∈ years → read_hourly fs y = Ok table →
            out' !! y = Some (hourly_year table grid_id)) ∧
         (y ∉ years ∨ exists_ fs hourly y = false → out' !! y = out !! y).
Proof.
  intros Hread. revert out. induction years as [|y0 years IH]; intros out; simpl.
  - exists out. split; [done |]. intros y. split; [by intros ? ?%elem_of_nil | done].
  - destruct (exists_ fs hourly y0) eqn:He; simpl.
    + destruct (Hread y0 He) as [table0 Ht0]. rewrite Ht0. simpl.
      destruct (IH (<[y0 := hourly_year table0 grid_id]> out)) as (out' & -> & Hout').
      exists out'. split; [done |]. intros y. destruct (Hout' y) as [Hin Hnot]. split.
      * intros table [-> | Hy]%elem_of_cons Ht; [| by apply Hin].
        destruct (decide (y0 ∈ years)) as [Hy0|Hy0]; [by apply Hin |].
        rewrite Hnot by (by left). rewrite lookup_insert_eq. congruence.
      * intros Hy. rewrite Hnot.
        -- apply lookup_insert_ne. intros <-. destruct Hy as [Hy | Hy]; [| congruence].
           apply Hy. left.
        -- destruct Hy as [Hy | Hy]; [left | by right]. intros ?. apply Hy. by right.
    + destruct (IH out) as (out' & -> & Hout').
      exists out'. split; [done |]. intros y. destruct (Hout' y) as [Hin Hnot]. split.
      * intros table [-> | Hy]%elem_of_cons Ht; [| by apply Hin].
        apply read_hourly_exists in Ht. congruence.
      * intros Hy. apply Hnot. destruct Hy as [Hy | Hy]; [left | by right].
        intros ?. apply Hy. by right.
Qed.

(** The loop of the handler copies, for every configured year whose file
    exists, the entry of that year. *)
Lemma api_hourly_loop_Ok years out :
  hourly_files_readable fs → years ⊆ YEARS →
  ∃ out', api_hourly_loop fs grid_id years out = Ok out' ∧
    ∀ y, (∀ table, y ∈ years → read_hourly fs y = Ok table →
            out' !! y = Some (hourly_year table grid_id)) ∧
         (y ∉ years ∨ exists_ fs hourly y = false → out' !! y = out !! y).
Proof.
  intros Hread. revert out. induction years as [|y0 years IH]; intros out Hsub; simpl.
  - exists out. split; [done |]. intros y. split; [by intros ? ?%elem_of_nil | done].
  - assert (y0 ∈ YEARS) as Hy0 by (apply Hsub; left).
    assert (years ⊆ YEARS) as Hsub' by (intros y ?; apply Hsub; by right).
    destruct (exists_ fs hourly y0) eqn:He; simpl.
    + destruct (Hread y0 He) as [table0 Ht0].
      unfold hourly_series_for_grid. rewrite bool_decide_eq_true_2 by done.
      destruct (hourly_series_loop_Ok YEARS ∅ Hread) as (series & -> & Hseries). simpl.
      destruct (Hseries y0) as [Hs0 _]. rewrite (Hs0 table0 Hy0 Ht0). simpl.
      destruct (IH (<[y0 := hourly_year table0 grid_id]> out) Hsub') as (out' & -> & Hout').
      exists out'. split; [done |]. intros y. destruct (Hout' y) as [Hin Hnot]. split.
      * intros table [-> | Hy]%elem_of_cons Ht; [| by apply Hin].
        destruct (decide (y0 ∈ years)) as [Hy0'|Hy0']; [by apply Hin |].
        rewrite Hnot by (by left). rewrite lookup_insert_eq. congruence.
      * intros Hy. rewrite Hnot.
        -- apply lookup_insert_ne. intros <-. destruct Hy as [Hy | Hy]; [| congruence].
           apply Hy. left.
        -- destruct Hy as [Hy | Hy]; [left | by right]. intros ?. apply Hy. by right.
    + destruct (IH out Hsub') as (out' & -> & Hout').
      exists out'. split; [done |]. intros y. destruct (Hout' y) as [Hin Hnot]. split.
      * intros table [-> | Hy]%elem_of_cons Ht; [| by apply Hin].
        apply read_hourly_exists in Ht. congruence.
      * intros Hy. apply Hnot. destruct Hy as [Hy | Hy]; [left | by right].
        intros ?. apply Hy. by right.
Qed.

End hourly_loops.

Section earliest_week_only.
Implicit Types (table : list (HourlyRow Q)) (proj : HourlyRow Q → Q).

(** Each of the three series has 24 slots. *)
Lemma earliest_week_series_length table grid_id :
  ∃ o i t, earliest_week_series table grid_id
             = {| hs_out := [o]; hs_in := [i]; hs_total := [t] |} ∧
           length o = 24%nat ∧ length i = 24%nat ∧ length t = 24%nat.
Proof. do 3 eexists. split; [reflexivity |]. by rewrite !length_fmap, !length_seqZ. Qed.

(** An hour without a row in the earliest week is zero. *)
Lemma slot_no_row proj table grid_id w h :
  earliest_week table grid_id = Some w →
  (∀ r, r ∈ table → h_grid_id r = grid_id → h_week r = w → h_hour r ≠ h) →
  slot proj table grid_id h = 0%Q.
Proof.
  intros Hw Hnone. unfold slot, earliest_row. rewrite Hw. simpl.
  rewrite filter_none; [done |].
  intros r Hr (Hg & Hwk & Hh). by eapply Hnone.
Qed.

(** An hour with one row in the earliest week has the values of that row. *)
Lemma slot_single_row proj table grid_id w h r :
  earliest_week table grid_id = Some w →
  filter (λ r, h_grid_id r = grid_id ∧ h_week r = w ∧ h_hour r = h) table = [r] →
  slot proj table grid_id h = proj r.
Proof.
  intros Hw Hone. unfold slot, earliest_row. rewrite Hw. simpl. by rewrite Hone.
Qed.

(** A grid without rows gets zeros. *)
Lemma slot_no_rows proj table grid_id h :
  earliest_week table grid_id = None → slot proj table grid_id h = 0%Q.
Proof. intros Hw. unfold slot, earliest_row. by rewrite Hw. Qed.

(** The rows of all other weeks can be removed from the file without
    changing the series. *)
Lemma later_weeks_discarded table grid_id w :
  earliest_week table grid_id = Some w →
  earliest_week_series (filter (λ r, h_week r = w) table) grid_id =
  earliest_week_series table grid_id.
Proof.
  intros Hw. set (table' := filter (λ r, h_week r = w) table).
  assert (earliest_week table' grid_id = Some w) as Hw'.
  { destruct (earliest_week_least _ _ _ Hw) as [(r & Hr & Hg & Hwk) _].
    destruct (earliest_week table' grid_id) as [w'|] eqn:He.
    - destruct (earliest_week_least _ _ _ He) as [(r' & Hr' & _ & Hwk') _].
      apply list_elem_of_filter in Hr' as [Hr' _]. congruence.
    - apply earliest_week_None in He.
      assert (r ∈ filter (λ r, h_grid_id r = grid_id) table') as Hin.
      { apply list_elem_of_filter. split; [done |]. by apply list_elem_of_filter. }
      rewrite He in Hin. by apply elem_of_nil in Hin. }
  assert (∀ proj h, slot proj table' grid_id h = slot proj table grid_id h) as Hslot.
  { intros proj h. unfold slot, earliest_row. rewrite Hw, Hw'. simpl.
    unfold table'. rewrite list_filter_filter. do 2 f_equal.
    apply list_filter_iff. intros r. tauto. }
  unfold earliest_week_series. f_equal; f_equal; apply list_fmap_ext; intros ??; auto.
Qed.

End earliest_week_only.

(** The slots of the series, read off the file: with [w] the earliest week
    of the grid, slot [h] is zero when the file has no row of the grid in
    week [w] at hour [h], and holds the values of such a row otherwise. *)
Lemma earliest_week_series_slots (table : list (HourlyRow Q)) (grid_id w h : Z) :
  earliest_week table grid_id = Some w → 0 ≤ h < 24 →
  ∃ vo vi vt,
    (∀ o i t, earliest_week_series table grid_id
              = {| hs_out := [o]; hs_in := [i]; hs_total := [t] |} →
       o !! Z.to_nat h = Some vo ∧ i !! Z.to_nat h = Some vi ∧ t !! Z.to_nat h = Some vt) ∧
    (((∀ r, r ∈ table → h_grid_id r = grid_id → h_week r = w → h_hour r ≠ h) ∧
      vo = 0%Q ∧ vi = 0%Q ∧ vt = 0%Q) ∨
     (∃ r, r ∈ table ∧ h_grid_id r = grid_id ∧ h_week r = w ∧ h_hour r = h ∧
           vo = h_out_total r ∧ vi = h_in_total r ∧ vt = h_total r)).
Proof.
  intros Hw Hh.
  exists (slot h_out_total table grid_id h), (slot h_in_total table grid_id h),
         (slot h_total table grid_id h).
  split.
  - intros o i t Hs. unfold earliest_week_series in Hs.
    set (fo := _ <$> seqZ 0 24) in Hs at 1. set (fi := _ <$> seqZ 0 24) in Hs at 1.
    set (ft := _ <$> seqZ 0 24) in Hs at 1.
    assert (o = fo ∧ i = fi ∧ t = ft) as (-> & -> & ->) by (split_and!; congruence).
    unfold fo, fi, ft. rewrite !list_lookup_fmap, !lookup_seqZ_lt by lia. cbn.
    by rewrite Z.add_0_l, Z2Nat.id by lia.
  - unfold slot, earliest_row. rewrite Hw. cbn [mbind option_bind].
    destruct (last (filter _ table)) as [r|] eqn:Hlast; cbn [from_option].
    + right. exists r. apply last_Some_elem_of, list_elem_of_filter in Hlast.
      destruct Hlast as [(Hg & Hwk & Hhr) Hr]. done.
    + left. apply last_None in Hlast. split; [| done].
      intros r Hr Hg Hwk Hhr.
      assert (r ∈ filter (λ r, h_grid_id r = grid_id ∧ h_week r = w ∧ h_hour r = h) table)
        as Hin by (by apply list_elem_of_filter).
      rewrite Hlast in Hin. by apply elem_of_nil in Hin.
Qed.

(** C6. For a grid id and readable hourly files, [/api/hourly] answers with
    one entry for each configured year whose hourly file exists and none
    for the other years.  The entry holds, for out, in and total, one
    series of 24 slots.  For a grid without rows in the file the slots are
    zero.  For a grid with rows there is an earliest week [w], the smallest
    week number among the rows of the grid, and slot [h] holds the values of
    the row of the grid in week [w] at hour [h], and zero when there is no
    such row; the rows of all other weeks are not used: without them the
    answer is the same. *)
Theorem C6_hourly_series (fs : appdata Q) (grid_id : Z) :
  grid_id ≠ 0 → hourly_files_readable fs →
  ∃ out, api_hourly fs grid_id = HourlyOk out ∧
    ∀ y,
      (¬ (y ∈ YEARS ∧ exists_ fs hourly y = true) → out !! y = None) ∧
      (∀ table, y ∈ YEARS → read_hourly fs y = Ok table →
         ∃ o i t,
           out !! y = Some {| hs_out := [o]; hs_in := [i]; hs_total := [t] |} ∧
           length o = 24%nat ∧ length i = 24%nat ∧ length t = 24%nat ∧
           ((∀ r, r ∈ table → h_grid_id r ≠ grid_id) →
            o = zeros24 ∧ i = zeros24 ∧ t = zeros24) ∧
           (∀ r0, r0 ∈ table → h_grid_id r0 = grid_id →
              ∃ w,
                (∃ r, r ∈ table ∧ h_grid_id r = grid_id ∧ h_week r = w) ∧
                (∀ r, r ∈ table → h_grid_id r = grid_id → w ≤ h_week r) ∧
                (∀ h, 0 ≤ h < 24 →
                   ∃ vo vi vt,
                     o !! Z.to_nat h = Some vo ∧ i !! Z.to_nat h = Some vi ∧
                     t !! Z.to_nat h = Some vt ∧
                     (((∀ r, r ∈ table → h_grid_id r = grid_id → h_week r = w →
                             h_hour r ≠ h) ∧
                       vo = 0%Q ∧ vi = 0%Q ∧ vt = 0%Q) ∨
                      (∃ r, r ∈ table ∧ h_grid_id r = grid_id ∧ h_week r = w ∧
                            h_hour r = h ∧ vo = h_out_total r ∧
                            vi = h_in_total r ∧ vt = h_total r))) ∧
                hourly_year (filter (λ r, h_week r = w) table) grid_id =
                hourly_year table grid_id)).
Proof.
  intros Hg Hread. unfold api_hourly. rewrite bool_decide_eq_false_2 by done.
  destruct (api_hourly_loop_Ok fs grid_id YEARS ∅ Hread) as (out & -> & Hout); [done |].
  exists out. split; [done |]. intros y. destruct (Hout y) as [Hin Hnot]. split.
  - intros Hn. rewrite Hnot; [apply lookup_empty |].
    destruct (decide (y ∈ YEARS)); [right | by left].
    destruct (exists_ fs hourly y); [| done]. exfalso. by apply Hn.
  - intros table Hy Ht.
    destruct (earliest_week_series_length table grid_id) as (o & i & t & Hs & Ho & Hi & Htl).
    exists o, i, t. rewrite (Hin table Hy Ht), hourly_year_series, Hs.
    split; [done |]. split; [done |]. split; [done |]. split; [done |]. split.
    + intros Hnone.
      assert (earliest_week table grid_id = None) as Hw.
      { apply earliest_week_None, filter_none. intros r Hr. by apply Hnone. }
      revert Hs. unfold earliest_week_series, slot, earliest_row. rewrite Hw.
      cbn [mbind option_bind from_option]. intros Hs.
      assert (∀ l : list Q, (λ _ : Z, 0%Q) <$> seqZ 0 24 = l → l = zeros24) as Hz
        by (by intros l <-).
      split_and!; apply Hz; congruence.
    + intros r0 Hr0 Hg0.
      destruct (earliest_week table grid_id) as [w|] eqn:Hw.
      2: { apply earliest_week_None in Hw.
           assert (r0 ∈ filter (λ r, h_grid_id r = grid_id) table) as Hin0
             by (by apply list_elem_of_filter).
           rewrite Hw in Hin0. by apply elem_of_nil in Hin0. }
      exists w. destruct (earliest_week_least _ _ _ Hw) as [Hex Hle].
      split; [done |]. split; [done |]. split.
      * intros h Hh.
        destruct (earliest_week_series_slots table grid_id w h Hw Hh)
          as (vo & vi & vt & Hlook & Hval).
        destruct (Hlook o i t Hs) as (Hlo & Hli & Hlt).
        exists vo, vi, vt. done.
      * rewrite hourly_year_series, <- Hs. by apply later_weeks_discarded.
Qed.

Lemma C6_hourly_series_witness :
  100 ≠ 0 ∧ hourly_files_readable hourly_fs ∧
  ∃ out, api_hourly hourly_fs 100 = HourlyOk out ∧
    ∀ y,
      (¬ (y ∈ YEARS ∧ exists_ hourly_fs hourly y = true) → out !! y = None) ∧
      (∀ table, y ∈ YEARS → read_hourly hourly_fs y = Ok table →
         ∃ o i t,
           out !! y = Some {| hs_out := [o]; hs_in := [i]; hs_total := [t] |} ∧
           length o = 24%nat ∧ length i = 24%nat ∧ length t = 24%nat ∧
           ((∀ r, r ∈ table → h_grid_id r ≠ 100) →
            o = zeros24 ∧ i = zeros24 ∧ t = zeros24) ∧
           (∀ r0, r0 ∈ table → h_grid_id r0 = 100 →
              ∃ w,
                (∃ r, r ∈ table ∧ h_grid_id r = 100 ∧ h_week r = w) ∧
                (∀ r, r ∈ table → h_grid_id r = 100 → w ≤ h_week r) ∧
                (∀ h, 0 ≤ h < 24 →
                   ∃ vo vi vt,
                     o !! Z.to_nat h = Some vo ∧ i !! Z.to_nat h = Some vi ∧
                     t !! Z.to_nat h = Some vt ∧
                     (((∀ r, r ∈ table → h_grid_id r = 100 → h_week r = w →
                             h_hour r ≠ h) ∧
                       vo = 0%Q ∧ vi = 0%Q ∧ vt = 0%Q) ∨
                      (∃ r, r ∈ table ∧ h_grid_id r = 100 ∧ h_week r = w ∧
                            h_hour r = h ∧ vo = h_out_total r ∧
                            vi = h_in_total r ∧ vt = h_total r))) ∧
                hourly_year (filter (λ r, h_week r = w) table) 100 =
                hourly_year table 100)).
Proof.
  assert (H1 : 100 ≠ 0) by lia.
  assert (H2 : hourly_files_readable hourly_fs).
  { intros y Hy. unfold exists_, read_hourly, hourly_fs in *.
    destruct (decide (y = 2021)) as [-> | Hne].
    - eexists. reflexivity.
    - rewrite lookup_singleton_ne in Hy by congruence. discriminate Hy. }
  split; [exact H1 |]. split; [exact H2 |].
  exact (C6_hourly_series hourly_fs 100 H1 H2).
Defined.

(** In [hourly_sample] grid 100 has the weeks 2 and 3: the series come from
    week 2 alone (hour 7; hour 30 is out of range), the rows of week 3 are
    not used, and a grid without rows gets zeros. *)
Example hourly_sample_series :
  earliest_week hourly_sample 100 = Some 2 ∧
  hs_out (hourly_year hourly_sample 100) = [<[7%nat := 3%Q]> zeros24] ∧
  hs_in (hourly_year hourly_sample 100) = [<[7%nat := 4%Q]> zeros24] ∧
  hs_total (hourly_year hourly_sample 100) = [<[7%nat := 7%Q]> zeros24] ∧
  hs_total (hourly_year hourly_sample 42) = [zeros24] ∧
  api_hourly ∅ 100 = HourlyOk ∅.
Proof. split_and!; by vm_compute. Qed.

(** ** Heatmap: the 95th percentile *)

Section heat_facts.
Implicit Types (items : list (Z * Q)) (vs : list Q).

(** [floor(0.95 × (n − 1))] in integers. *)
Lemma q95_index_div (n : nat) : q95_index n = 19 * (Z.of_nat n - 1) / 20.
Proof.
  unfold q95_index, Qfloor, Qmult, inject_Z; simpl Qnum; simpl Qden.
  change (Z.pos (100 * 1)) with (5 * 20).
  replace (95 * (Z.of_nat n - 1)) with (5 * (19 * (Z.of_nat n - 1))) by lia.
  by rewrite Z.div_mul_cancel_l by lia.
Qed.

Lemma q95_index_range (n : nat) : (1 < n)%nat → 0 ≤ q95_index n < Z.of_nat n.
Proof.
  intros Hn. rewrite q95_index_div. split.
  - apply Z.div_pos; lia.
  - apply Z.div_lt_upper_bound; lia.
Qed.

Lemma py_index_nonneg {A} (l : list A) (i : Z) :
  0 ≤ i < Z.of_nat (length l) → ∃ x, py_index l i = Ok x ∧ l !! Z.to_nat i = Some x.
Proof.
  intros Hi. unfold py_index. cbv zeta.
  do 2 (rewrite (bool_decide_eq_false_2 (i < 0)) by lia; cbv iota).
  destruct (l !! Z.to_nat i) as [x|] eqn:Hx; [by exists x |].
  apply lookup_ge_None in Hx. lia.
Qed.

Lemma py_index_last {A} (l : list A) :
  l ≠ [] → ∃ x, py_index l (-1) = Ok x ∧ last l = Some x.
Proof.
  intros Hl. unfold py_index. cbv zeta.
  rewrite (bool_decide_eq_true_2 (-1 < 0)) by lia. cbv iota.
  assert (0 < length l)%nat by (destruct l; [done | simpl; lia]).
  rewrite bool_decide_eq_false_2 by lia. rewrite last_lookup.
  replace (Z.to_nat (-1 + Z.of_nat (length l))) with (pred (length l)) by lia.
  destruct (l !! pred (length l)) as [x|] eqn:Hx; [by exists x |].
  apply lookup_ge_None in Hx. lia.
Qed.

Lemma order_by_asc_sorted vs :
  sorted_by (λ x y : Q, bool_decide (x <= y)%Q) (order_by_asc id vs).
Proof.
  apply sort_by_is_sorted. intros a b Hf.
  apply bool_decide_eq_false in Hf. apply bool_decide_eq_true. simpl in *. lra.
Qed.

(** With the totals file in place the handler answers with the summary of
    the filtered rows and leaves the directory alone. *)
Lemma api_heat_summary `{DateEngine} (env : BuildEnv Q) (eng : Engine)
    (year : Z) (metric city area : string) (fs : appdata Q) rows resp :
  metric ∈ ["total"; "in"; "out"] →
  read_totals fs year = Ok rows →
  heat_summary (heat_items eng metric city area rows) = Ok resp →
  api_heat env eng year metric city area fs = (fs, resp).
Proof.
  intros Hm Hrows Hsum. unfold api_heat.
  rewrite bool_decide_eq_false_2 by (by intros ?).
  assert (exists_ fs totals year = true) as ->.
  { unfold read_totals, exists_ in *. by destruct (fs !! (totals, year)) as [[]|]. }
  rewrite Hrows. simpl. by rewrite Hsum.
Qed.

End heat_facts.

(** C7. For a non-empty list of filtered values of size [n], the summary
    holds the items, [n], the last element of the ascending sort as
    maximum, and as [q95] the element of the ascending sort at index
    [floor(0.95 × (n − 1))] (which is [19 (n − 1) / 20] and in range) when
    [n > 1], and the single element when [n = 1].  For the values 1 and 2,
    in either order, [q95] is 1. *)
Theorem C7_q95_nearest_rank (items : list (Z * Q)) :
  items ≠ [] →
  let vs := order_by_asc id (snd <$> items) in
  let n := length items in
  vs ≡ₚ snd <$> items ∧
  sorted_by (λ x y : Q, bool_decide (x <= y)%Q) vs ∧
  (∃ q95 mx, heat_summary items = Ok (HeatOk items q95 mx (Z.of_nat n)) ∧
     last vs = Some mx ∧
     ((1 < n)%nat →
        q95_index n = 19 * (Z.of_nat n - 1) / 20 ∧
        0 ≤ q95_index n < Z.of_nat n ∧
        vs !! Z.to_nat (q95_index n) = Some q95) ∧
     (n = 1%nat → vs = [q95])) ∧
  (∀ g g', ∃ mx n,
     heat_summary [(g, 1%Q); (g', 2%Q)] = Ok (HeatOk [(g, 1%Q); (g', 2%Q)] 1 mx n) ∧
     heat_summary [(g, 2%Q); (g', 1%Q)] = Ok (HeatOk [(g, 2%Q); (g', 1%Q)] 1 mx n)).
Proof.
  intros Hitems vs n.
  assert (length vs = n) as Hlen.
  { unfold vs, order_by_asc. by rewrite sort_by_length, length_fmap. }
  assert (vs ≠ []) as Hvs.
  { intros Hnil. rewrite Hnil in Hlen. destruct items; [done | discriminate]. }
  split_and!.
  - apply sort_by_perm.
  - apply order_by_asc_sorted.
  - unfold heat_summary. rewrite bool_decide_eq_false_2 by done. fold vs.
    destruct (py_index_last vs Hvs) as (mx & Hmx & Hlast).
    unfold q95_of. rewrite Hlen. case_bool_decide as Hn.
    + destruct (py_index_nonneg vs (q95_index n)) as (q & Hq & Hlook).
      { rewrite Hlen. by apply q95_index_range. }
      rewrite Hq. simpl. rewrite Hmx. simpl. exists q, mx. split_and!; try done.
      * intros _. split; [apply q95_index_div |]. split; [by apply q95_index_range | done].
      * intros Hn1. fold n in Hn. lia.
    + destruct (py_index_nonneg vs 0) as (q & Hq & Hlook).
      { rewrite Hlen. destruct items; [done | simpl in *; lia]. }
      rewrite Hq. simpl. rewrite Hmx. simpl. exists q, mx. split_and!; try done.
      intros Hn1. destruct vs as [|v [|??]]; simpl in *; try lia.
      by injection Hlook as ->.
  - intros g g'. by exists 2%Q, 2.
Qed.

Lemma C7_q95_nearest_rank_witness :
  let items := [(1, 5%Q); (2, 3%Q); (3, 4%Q)] in
  items ≠ [] ∧
  let vs := order_by_asc id (snd <$> items) in
  let n := length items in
  vs ≡ₚ snd <$> items ∧
  sorted_by (λ x y : Q, bool_decide (x <= y)%Q) vs ∧
  (∃ q95 mx, heat_summary items = Ok (HeatOk items q95 mx (Z.of_nat n)) ∧
     last vs = Some mx ∧
     ((1 < n)%nat →
        q95_index n = 19 * (Z.of_nat n - 1) / 20 ∧
        0 ≤ q95_index n < Z.of_nat n ∧
        vs !! Z.to_nat (q95_index n) = Some q95) ∧
     (n = 1%nat → vs = [q95])) ∧
  (∀ g g', ∃ mx n,
     heat_summary [(g, 1%Q); (g', 2%Q)] = Ok (HeatOk [(g, 1%Q); (g', 2%Q)] 1 mx n) ∧
     heat_summary [(g, 2%Q); (g', 1%Q)] = Ok (HeatOk [(g, 2%Q); (g', 1%Q)] 1 mx n)).
Proof.
  intros items.
  assert (H : items ≠ []) by discriminate.
  split; [exact H |].
  exact (C7_q95_nearest_rank items H).
Defined.

(** Values 5, 3, 4: the sort is 3, 4, 5, the index is [floor(1.9) = 1];
    21 values give index 19; one value is its own percentile. *)
Example q95_examples :
  heat_summary [(1, 5%Q); (2, 3%Q); (3, 4%Q)]
    = Ok (HeatOk [(1, 5%Q); (2, 3%Q); (3, 4%Q)] 4 5 3) ∧
  q95_index 21 = 19 ∧ q95_index 2 = 0 ∧
  q95_of [7%Q] = Ok 7%Q ∧ q95_of [1%Q; 2%Q] = Ok 1%Q ∧
  heat_summary [] = Ok (HeatOk [] 0 0 0).
Proof. split_and!; by vm_compute. Qed.

(** The rational index is the index Python computes in binary64, for every
    size from 2 to 4000. *)
Example q95_index_binary64_agrees :
  forallb (λ n, bool_decide (q95_index_binary64 n = q95_index n)) (seq 2 3999) = true.
Proof. by vm_compute. Qed.

(** ** The low-traffic filter *)

Section low_pct_order.
Context (fs : appdata Q) (pool : list Z) (filter_year : option Z)
        (low_value : option Q) (use_pool : bool).

Lemma clamp_pct_mono (p1 p2 : Q) : (p1 <= p2)%Q → (clamp_pct p1 <= clamp_pct p2)%Q.
Proof. intros Hle. unfold clamp_pct. repeat case_bool_decide; lra. Qed.

Lemma clamp_pct_pos (p : Q) : (0 < p)%Q → (0 < clamp_pct p)%Q.
Proof. intros Hp. unfold clamp_pct. repeat case_bool_decide; lra. Qed.

Lemma clamp_pct_le_100 (p : Q) : (clamp_pct p <= 100)%Q.
Proof. unfold clamp_pct. repeat case_bool_decide; lra. Qed.

Lemma clamp_low_value_nonneg (v : Q) : (0 <= clamp_low_value v)%Q.
Proof. unfold clamp_low_value. case_bool_decide; lra. Qed.

(** The final [SELECT] keeps fewer grids for a larger threshold. *)
Lemma low_grids_sql_antitone table weeks lv (p1 p2 : Q) g :
  (p1 <= p2)%Q →
  g ∈ low_grids_sql table weeks pool use_pool lv p2 →
  g ∈ low_grids_sql table weeks pool use_pool lv p1.
Proof.
  intros Hle. unfold low_grids_sql. cbv zeta.
  set (zr := if use_pool then _ else _).
  intros ([g' ratio] & -> & [Hr Hin]%list_elem_of_filter)%list_elem_of_fmap.
  apply (list_elem_of_fmap_2 fst _ (g', ratio)), list_elem_of_filter.
  split; [| done]. simpl in *.
  apply Qle_trans with (p2 / 100)%Q; [| done].
  apply Qmult_le_compat_r; [done |]. by vm_compute.
Qed.

End low_pct_order.

(** C3 (as amended). The flagged set shrinks as [low_pct] grows: for
    [0 < p1 <= p2], every grid flagged at [low_pct = p2] is flagged at
    [low_pct = p1]. *)
Theorem C3_low_pct_antitone (fs : appdata Q) (pool : list Z) (filter_year : option Z)
    (low_value : option Q) (use_pool : bool) (p1 p2 : Q) :
  (0 < p1)%Q → (p1 <= p2)%Q →
  bad_set fs pool filter_year low_value (Some p2) use_pool ⊆
  bad_set fs pool filter_year low_value (Some p1) use_pool.
Proof.
  intros Hp1 Hle g. unfold bad_set. simpl.
  pose proof (clamp_pct_mono p1 p2 Hle) as Hc.
  pose proof (clamp_pct_pos p1 Hp1) as Hc1.
  case_bool_decide as H2; [| by intros ?%elem_of_empty].
  rewrite bool_decide_eq_true_2 by (destruct H2; split; [done | lra]).
  destruct (chosen_year fs filter_year) as [y|]; [| done].
  destruct (read_hourly fs y) as [table|]; [| done].
  case_bool_decide; [| done].
  rewrite !elem_of_list_to_set. by apply low_grids_sql_antitone.
Qed.

Lemma C3_low_pct_antitone_witness :
  (0 < 50)%Q ∧ (50 <= 100)%Q ∧
  bad_set half_busy_fs [100; 200] None (Some 0%Q) (Some 100%Q) true ⊆
  bad_set half_busy_fs [100; 200] None (Some 0%Q) (Some 50%Q) true.
Proof.
  assert (H1 : (0 < 50)%Q) by reflexivity.
  assert (H2 : (50 <= 100)%Q) by (by vm_compute).
  split; [exact H1 |]. split; [exact H2 |].
  exact (C3_low_pct_antitone half_busy_fs [100; 200] None (Some 0%Q) true 50 100 H1 H2).
Defined.

(** C3 (as stated) fails: grid 100 of [half_busy] has 12 low hours of 24, so
    it is flagged at [low_pct = 50] and no longer at [low_pct = 100]. *)
Lemma C3_low_pct_not_monotone_counterexample :
  ¬ low_pct_monotone half_busy_fs [100; 200] None (Some 0%Q) true.
Proof.
  intros Hmono. specialize (Hmono 50%Q 100%Q eq_refl 100).
  assert (100 ∈ bad_set half_busy_fs [100; 200] None (Some 0%Q) (Some 50%Q) true) as Hin
    by (by vm_compute).
  specialize (Hmono Hin). revert Hmono. by vm_compute.
Qed.

Section zero_rows.
Context (table : list (HourlyRow Q)) (pool : list Z) (g : Z).

(** Rows that all count as low add up to their number. *)
Lemma Zsum_keyed_ones (l : list (Z * Z)) (val : Z * Z → Z) :
  (∀ f, f ∈ l → f.1 = g → val f = 1) →
  Zsum (snd <$> filter (λ r : Z * Z, r.1 = g) ((λ f, (f.1, val f)) <$> l)) =
  Z.of_nat (length (filter (λ f : Z * Z, f.1 = g) l)).
Proof.
  induction l as [|f l IH]; intros Hval; [done |].
  rewrite fmap_cons, !filter_cons. cbn [fst].
  assert (∀ f', f' ∈ l → f'.1 = g → val f' = 1) as Hl
    by (intros f' ? ?; apply Hval; [by right | done]).
  destruct (decide (f.1 = g)) as [Hf|Hf].
  - rewrite fmap_cons, Zsum_cons. cbn [snd length]. rewrite IH by done.
    rewrite (Hval f ltac:(left) Hf). lia.
  - by apply IH.
Qed.

(** The pool grid [g] has its 24 hours in [full24]. *)
Lemma full24_hours :
  g ∈ pool →
  (24 ≤ length (filter (λ f : Z * Z, f.1 = g)
                  (g' ← pool; h ← seqZ 0 24; [(g', h)])))%nat.
Proof.
  intros (l1 & l2 & ->)%list_elem_of_split.
  rewrite bind_app, bind_cons, !filter_app, !length_app.
  assert (length (filter (λ f : Z * Z, f.1 = g) (h ← seqZ 0 24; [(g, h)])) = 24%nat) as ->.
  { rewrite filter_all; [reflexivity |].
    intros f (h & Hf & _)%list_elem_of_bind. apply list_elem_of_singleton in Hf. by subst. }
  lia.
Qed.

(** No group of the joined averages belongs to a grid without rows. *)
Lemma base_no_key (weeks : list Z) (h : Z) :
  no_hourly_rows table g →
  assoc (g, h)
    (avg_by_grid_hour
       (br ← ((λ r, (h_grid_id r, h_hour r, h_total r)) <$>
              filter (λ r, h_week r ∈ weeks) table);
        p ← pool; if bool_decide (br.1.1 = p) then [br] else [])) = None.
Proof.
  intros Hno. apply assoc_None. unfold avg_by_grid_hour.
  apply Forall_fmap.
  eapply Forall_impl; [apply (group_sum_keys (λ k : Z * Z, k.1 ≠ g)) |].
  - apply Forall_fmap, Forall_forall. intros br Hbr. cbn [fst].
    apply list_elem_of_bind in Hbr as (br' & Hbr & Hbr').
    apply list_elem_of_bind in Hbr as (p & Hbr & _).
    case_bool_decide; [| by apply elem_of_nil in Hbr].
    apply list_elem_of_singleton in Hbr as ->.
    apply list_elem_of_fmap in Hbr' as (r & -> & Hr).
    apply list_elem_of_filter in Hr as [_ Hr]. cbn. by apply Hno.
  - intros [[g' h'] v] Hk. cbn in *. intros [= -> ->]. by apply Hk.
Qed.

Lemma filter_keyed_length {V} (l : list (Z * Z)) (val : Z * Z → V) :
  length (filter (λ r : Z * V, r.1 = g) ((λ f, (f.1, val f)) <$> l)) =
  length (filter (λ f : Z * Z, f.1 = g) l).
Proof.
  induction l as [|f l IH]; [done |].
  rewrite fmap_cons, !filter_cons. cbn [fst].
  destruct (decide (f.1 = g)); cbn [length]; by rewrite IH.
Qed.

(** A pool grid without hourly rows is in the answer of the query for every
    non-negative [low_value] and every [low_pct] up to 100. *)
Lemma low_grids_sql_zero_rows (weeks : list Z) (lv pct : Q) :
  no_hourly_rows table g → g ∈ pool → (0 <= lv)%Q → (pct <= 100)%Q →
  g ∈ low_grids_sql table weeks pool true lv pct.
Proof.
  intros Hno Hpool Hlv Hpct. unfold low_grids_sql. cbv zeta.
  set (base := avg_by_grid_hour _).
  unfold low_ratio_rows. cbv zeta.
  set (full24 := g' ← pool; h ← seqZ 0 24; [(g', h)]).
  rewrite <- list_fmap_compose.
  set (val := λ f : Z * Z, if bool_decide (default 0%Q (assoc f base) <= lv)%Q then 1 else 0).
  set (n := length (filter (λ f : Z * Z, f.1 = g) full24)).
  assert (24 ≤ n)%nat as Hn by (by apply full24_hours).
  assert (assoc g (group_sum ((λ f, (f.1, val f)) <$> full24)) = Some (Z.of_nat n)) as Hassoc.
  { unfold group_sum. rewrite assoc_group_sum_Z. cbv zeta.
    change (assoc g []) with (@None Z). cbv iota.
    rewrite decide_False.
    - f_equal. apply Zsum_keyed_ones.
      intros [g' h] _ Hg. cbn in Hg. subst g'. unfold val, base.
      rewrite base_no_key by done. cbn. by rewrite bool_decide_eq_true_2.
    - intros Hnil. pose proof (filter_keyed_length full24 val) as Hlen.
      rewrite Hnil in Hlen. fold n in Hlen. simpl in Hlen. lia. }
  apply assoc_Some_elem in Hassoc.
  apply (list_elem_of_fmap_2 fst _ (g, (inject_Z (Z.of_nat n) / 24)%Q)).
  apply list_elem_of_filter. split.
  - cbn [snd]. assert (24 <= inject_Z (Z.of_nat n))%Q as Hq.
    { change 24%Q with (inject_Z 24). rewrite <- Zle_Qle. lia. }
    revert Hq. generalize (inject_Z (Z.of_nat n)). intros q Hq.
    apply Qle_trans with 1%Q.
    + apply Qle_shift_div_r; [reflexivity | lra].
    + apply Qle_shift_div_l; [reflexivity | lra].
  - by apply (list_elem_of_fmap_2 (λ kv : Z * Z, (kv.1, (inject_Z kv.2 / 24)%Q)) _ (g, Z.of_nat n)).
Qed.
End zero_rows.

Lemma distinct_weeks_nonempty (table : list (HourlyRow Q)) :
  table ≠ [] → distinct_weeks table ≠ [].
Proof.
  intros Ht Hw. apply Ht. unfold distinct_weeks, order_by_keys in Hw.
  by apply sort_by_nil_inv, remove_dups_nil_inv, fmap_nil_inv in Hw.
Qed.

(** C9 (as amended). When the hourly file of the chosen year has at least one
    row (and the temporary pool table is in use), every candidate grid
    without rows in that file is flagged with [low_value = 0] and
    [low_pct = 50]: its 24 synthesized hours have average 0, so its ratio
    is at least 1.  The same holds for every [low_value] and every positive
    [low_pct]. *)
Theorem C9_zero_row_grid_flagged (fs : appdata Q) (pool : list Z)
    (filter_year : option Z) (grid_id y : Z) (table : list (HourlyRow Q)) :
  chosen_year fs filter_year = Some y →
  read_hourly fs y = Ok table →
  table ≠ [] →
  grid_id ∈ pool →
  no_hourly_rows table grid_id →
  grid_id ∈ bad_set fs pool filter_year (Some 0%Q) (Some 50%Q) true ∧
  (∀ (low_value : option Q) (low_pct : Q), (0 < low_pct)%Q →
     grid_id ∈ bad_set fs pool filter_year low_value (Some low_pct) true).
Proof.
  intros Hy Ht Hne Hpool Hno.
  assert (∀ (low_value : option Q) (low_pct : Q), (0 < low_pct)%Q →
            grid_id ∈ bad_set fs pool filter_year low_value (Some low_pct) true) as Hgen.
  { intros low_value low_pct Hpct. unfold bad_set. simpl.
    rewrite bool_decide_eq_true_2.
    - rewrite Hy, Ht.
      rewrite bool_decide_eq_true_2 by (by apply distinct_weeks_nonempty).
      apply elem_of_list_to_set. apply low_grids_sql_zero_rows; try done.
      + apply clamp_low_value_nonneg.
      + apply clamp_pct_le_100.
    - split; [| by apply clamp_pct_pos]. intros ->. by apply elem_of_nil in Hpool. }
  split; [| done]. by apply Hgen.
Qed.

Lemma C9_zero_row_grid_flagged_witness :
  chosen_year half_busy_fs None = Some 2021 ∧
  read_hourly half_busy_fs 2021 = Ok half_busy ∧
  half_busy ≠ [] ∧
  200 ∈ [100; 200] ∧
  no_hourly_rows half_busy 200 ∧
  200 ∈ bad_set half_busy_fs [100; 200] None (Some 0%Q) (Some 50%Q) true ∧
  (∀ (low_value : option Q) (low_pct : Q), (0 < low_pct)%Q →
     200 ∈ bad_set half_busy_fs [100; 200] None low_value (Some low_pct) true).
Proof.
  assert (H1 : chosen_year half_busy_fs None = Some 2021) by reflexivity.
  assert (H2 : read_hourly half_busy_fs 2021 = Ok half_busy) by reflexivity.
  assert (H3 : half_busy ≠ []) by discriminate.
  assert (H4 : 200 ∈ [100; 200]) by (by apply (bool_decide_unpack _)).
  assert (H5 : no_hourly_rows half_busy 200).
  { assert (Forall (λ r, h_grid_id r ≠ 200) half_busy) as Hall
      by (by apply (bool_decide_unpack _)).
    intros r Hr. rewrite Forall_forall in Hall. by apply Hall. }
  pose proof (C9_zero_row_grid_flagged half_busy_fs [100; 200] None 200 2021 half_busy
                H1 H2 H3 H4 H5) as [Ha Hb].
  split_and!; [exact H1 | exact H2 | exact H3 | exact H4 | exact H5 | exact Ha | exact Hb].
Defined.

(** C9 (as stated) fails: the hourly file of 2021 exists and has no rows, so
    there are no weeks, the filter leaves the pool as it is, and grid 100,
    which has no hourly rows, is not flagged. *)
Lemma C9_empty_file_not_flagged_counterexample :
  ¬ zero_row_grid_flagged empty_hourly_fs [100] None 100.
Proof.
  intros Hflag.
  assert (100 ∈ bad_set empty_hourly_fs [100] None (Some 0%Q) (Some 50%Q) true) as Hin.
  { apply (Hflag 2021 []); [reflexivity | reflexivity | left |].
    by intros r ?%elem_of_nil. }
  revert Hin. by vm_compute.
Qed.

(** The scenario of the specification: grid 200 has no hourly rows in a
    file that has rows of other grids, and the filter flags it; grid 100,
    busy in 12 of 24 hours, is flagged at 50 and not at 60. *)
Example low_filter_scenario :
  elements (bad_set half_busy_fs [200] None (Some 0%Q) (Some 50%Q) true) = [200] ∧
  pool_after half_busy_fs [100; 200; 300] None (Some 0%Q) (Some 50%Q) true = [] ∧
  pool_after half_busy_fs [100; 200; 300] None (Some 0%Q) (Some 60%Q) true = [100] ∧
  pool_after half_busy_fs [100; 200; 300] None (Some 0%Q) None true = [100; 200; 300] ∧
  pool_after ∅ [100; 200; 300] None (Some 0%Q) (Some 50%Q) true = [100; 200; 300].
Proof. split_and!; by vm_compute. Qed.

(** ** The label queue pointer *)

Section queue_pointer.
Implicit Types (f : option QueueState) (q : QueueState).

Lemma advance_written f :
  (api_label_queue_advance f).1 =
  Some {| queue := queue (_read_queue f);
          index := if bool_decide (index (_read_queue f) <
                                   Z.of_nat (length (queue (_read_queue f))))
                   then index (_read_queue f) + 1 else index (_read_queue f) |}.
Proof. reflexivity. Qed.

Lemma back_written f :
  (api_label_queue_back f).1 =
  Some {| queue := queue (_read_queue f);
          index := if bool_decide (index (_read_queue f) > 0)
                   then index (_read_queue f) - 1 else index (_read_queue f) |}.
Proof. reflexivity. Qed.

Lemma advance_inv f :
  queue_inv (_read_queue f) → queue_inv (_read_queue (api_label_queue_advance f).1).
Proof.
  rewrite advance_written. unfold queue_inv; simpl.
  case_bool_decide; lia.
Qed.

Lemma back_inv f :
  queue_inv (_read_queue f) → queue_inv (_read_queue (api_label_queue_back f).1).
Proof.
  rewrite back_written. unfold queue_inv; simpl.
  case_bool_decide; lia.
Qed.

(** [set] writes an index in range whatever the stored index and the
    request are. *)
Lemma set_inv f req_index req_grid_id :
  queue_inv (_read_queue (api_label_queue_set f req_index req_grid_id).1).
Proof.
  unfold api_label_queue_set, queue_inv; simpl.
  repeat case_bool_decide; lia.
Qed.

(** A plain index request is stored clamped. *)
Lemma set_index_clamped f i :
  (api_label_queue_set f (Some i) None).1 =
  Some {| queue := queue (_read_queue f);
          index := Z.min (Z.max 0 i) (Z.of_nat (length (queue (_read_queue f)))) |}.
Proof.
  unfold api_label_queue_set; simpl. do 2 f_equal.
  repeat case_bool_decide; lia.
Qed.

Lemma pointer_handlers_keep_queue f req_index req_grid_id :
  queue (_read_queue (api_label_queue_advance f).1) = queue (_read_queue f) ∧
  queue (_read_queue (api_label_queue_back f).1) = queue (_read_queue f) ∧
  queue (_read_queue (api_label_queue_set f req_index req_grid_id).1) = queue (_read_queue f).
Proof. done. Qed.

(** C10. For every stored queue state whose index lies in
    [[0, length queue]], [advance] and [back] write a state whose index
    lies in that interval again: [advance] adds one only below the length,
    [back] subtracts one only above zero.  [set] writes an index in the
    interval for every request, and a requested index [i] is stored as
    [min (max 0 i) (length queue)]. *)
Theorem C10_queue_pointer_in_range f req_index req_grid_id i :
  queue_inv (_read_queue f) →
  queue_inv (_read_queue (api_label_queue_advance f).1) ∧
  index (_read_queue (api_label_queue_advance f).1) ≤ Z.of_nat (length (queue (_read_queue f))) ∧
  queue_inv (_read_queue (api_label_queue_back f).1) ∧
  0 ≤ index (_read_queue (api_label_queue_back f).1) ∧
  queue_inv (_read_queue (api_label_queue_set f req_index req_grid_id).1) ∧
  index (_read_queue (api_label_queue_set f (Some i) None).1) =
    Z.min (Z.max 0 i) (Z.of_nat (length (queue (_read_queue f)))).
Proof.
  intros Hinv.
  pose proof (advance_inv f Hinv) as Ha.
  pose proof (back_inv f Hinv) as Hb.
  pose proof (pointer_handlers_keep_queue f req_index req_grid_id) as (Hqa & Hqb & _).
  split_and!; try done.
  - destruct Ha as [_ Ha]. by rewrite Hqa in Ha.
  - by destruct Hb.
  - apply set_inv.
  - by rewrite set_index_clamped.
Qed.

Lemma C10_queue_pointer_witness :
  let f := Some {| queue := [4; 5; 6]; index := 3 |} in
  queue_inv (_read_queue f) ∧
  (queue_inv (_read_queue (api_label_queue_advance f).1) ∧
   index (_read_queue (api_label_queue_advance f).1) ≤ Z.of_nat (length (queue (_read_queue f))) ∧
   queue_inv (_read_queue (api_label_queue_back f).1) ∧
   0 ≤ index (_read_queue (api_label_queue_back f).1) ∧
   queue_inv (_read_queue (api_label_queue_set f None (Some (Some 5))).1) ∧
   index (_read_queue (api_label_queue_set f (Some 9) None).1) =
     Z.min (Z.max 0 9) (Z.of_nat (length (queue (_read_queue f))))).
Proof.
  assert (H : queue_inv (_read_queue (Some {| queue := [4; 5; 6]; index := 3 |})))
    by (unfold queue_inv; simpl; lia).
  split; [exact H |].
  exact (C10_queue_pointer_in_range _ None (Some (Some 5)) 9 H).
Defined.

End queue_pointer.

(** * Further properties of the code

    ** Grouping, joins and sorting *)

Section group_shape.
Context {K V : Type} `{EqDecision K} `{Arith V}.
Implicit Types (acc rows : list (K * V)).

Lemma group_add_fst k v acc :
  (group_add k v acc).*1 = if decide (k ∈ acc.*1) then acc.*1 else acc.*1 ++ [k].
Proof.
  induction acc as [|[k' v'] acc IH].
  - rewrite decide_False; [done | apply not_elem_of_nil].
  - cbn [group_add]. rewrite fmap_cons. cbn [fst].
    destruct (decide (k' = k)) as [-> | Hne]; rewrite fmap_cons; cbn [fst].
    + rewrite decide_True; [done | left].
    + rewrite IH.
      destruct (decide (k ∈ acc.*1)) as [Hin | Hin].
      * rewrite decide_True; [done | by right].
      * rewrite decide_False; [done |].
        intros [? | ?]%elem_of_cons; congruence.
Qed.

Lemma group_add_NoDup k v acc : NoDup acc.*1 → NoDup (group_add k v acc).*1.
Proof.
  intros Hnd. rewrite group_add_fst. case_decide as Hin; [done |].
  apply NoDup_app. split; [done |]. split; [| apply NoDup_singleton].
  intros x Hx ->%list_elem_of_singleton. done.
Qed.

Lemma group_add_elem_key k k' v acc :
  k ∈ (group_add k' v acc).*1 ↔ k = k' ∨ k ∈ acc.*1.
Proof.
  rewrite group_add_fst. case_decide as Hin.
  - split; [by right | intros [-> | ?]; done].
  - rewrite elem_of_app, list_elem_of_singleton. tauto.
Qed.

Lemma group_fold_NoDup rows acc :
  NoDup acc.*1 → NoDup (foldl (λ acc r, group_add r.1 r.2 acc) acc rows).*1.
Proof.
  revert acc. induction rows as [|r rows IH]; intros acc Hnd; simpl; [done |].
  by apply IH, group_add_NoDup.
Qed.

(** [GROUP BY] yields one row per key. *)
Lemma group_sum_NoDup rows : NoDup (group_sum rows).*1.
Proof. apply group_fold_NoDup. constructor. Qed.

Lemma group_fold_elem_key rows acc k :
  k ∈ (foldl (λ acc r, group_add r.1 r.2 acc) acc rows).*1 ↔ k ∈ acc.*1 ∨ k ∈ rows.*1.
Proof.
  revert acc. induction rows as [|r rows IH]; intros acc; simpl.
  - rewrite elem_of_nil. tauto.
  - rewrite IH, group_add_elem_key, elem_of_cons. tauto.
Qed.

(** The keys of the groups are the keys of the input rows. *)
Lemma group_sum_elem_key rows k : k ∈ (group_sum rows).*1 ↔ k ∈ rows.*1.
Proof.
  unfold group_sum. rewrite group_fold_elem_key. simpl. rewrite elem_of_nil. tauto.
Qed.

Lemma assoc_is_Some k (rel : list (K * V)) : is_Some (assoc k rel) ↔ k ∈ rel.*1.
Proof.
  unfold assoc. induction rel as [|[k' v'] rel IH]; simpl.
  - rewrite elem_of_nil. split; [by intros [] | done].
  - case_bool_decide as Hk; simpl in *.
    + subst. split; [left | eauto].
    + rewrite IH, elem_of_cons. split; [by right | intros [? | ?]; [congruence | done]].
Qed.

Lemma assoc_elem_NoDup k v (rel : list (K * V)) :
  NoDup rel.*1 → (k, v) ∈ rel → assoc k rel = Some v.
Proof.
  unfold assoc. induction rel as [|[k' v'] rel IH]; simpl; [by intros _ ?%elem_of_nil |].
  intros [Hk' Hnd]%NoDup_cons [Heq | Hin]%elem_of_cons.
  - injection Heq as -> ->. by rewrite bool_decide_eq_true_2.
  - rewrite bool_decide_eq_false_2; [by apply IH |].
    simpl. intros ->. apply Hk'. by apply (list_elem_of_fmap_2 fst) in Hin.
Qed.

Lemma assoc_group_fold rows acc k :
  assoc k (foldl (λ acc r, group_add r.1 r.2 acc) acc rows) =
  match assoc k acc with
  | Some a => Some (foldl add a (snd <$> filter (λ r, r.1 = k) rows))
  | None => sum1 (snd <$> filter (λ r, r.1 = k) rows)
  end.
Proof.
  revert acc. induction rows as [|[k' v] rows IH]; intros acc; cbn [foldl].
  - rewrite filter_nil, fmap_nil. simpl. by destruct (assoc k acc).
  - rewrite IH, assoc_group_add. cbn [fst snd]. rewrite filter_cons. cbn [fst].
    destruct (decide (k' = k)) as [-> | Hne].
    + rewrite decide_True by done. rewrite fmap_cons. cbn [snd].
      by destruct (assoc k acc).
    + by rewrite decide_False by congruence.
Qed.

Lemma assoc_group_sum rows k :
  assoc k (group_sum rows) = sum1 (snd <$> filter (λ r, r.1 = k) rows).
Proof. unfold group_sum. by rewrite assoc_group_fold. Qed.

Lemma elem_of_group_sum rows k v :
  (k, v) ∈ group_sum rows ↔ sum1 (snd <$> filter (λ r, r.1 = k) rows) = Some v.
Proof.
  rewrite <- assoc_group_sum. split.
  - apply assoc_elem_NoDup, group_sum_NoDup.
  - apply assoc_Some_elem.
Qed.

End group_shape.

(** [SUM] does not depend on the order of the rows when the addition is
    associative and commutative. *)
Section sum_perm.
Context {V : Type} `{Arith V} `{!ExactArith V}.

Lemma foldl_add_shift (a v : V) (vs : list V) :
  foldl add (add a v) vs = add (foldl add a vs) v.
Proof.
  revert a. induction vs as [|w vs IH]; intros a; simpl; [done |].
  rewrite <- IH. f_equal.
  by rewrite <- !add_assoc', (add_comm' v w).
Qed.

Lemma foldl_add_perm (a : V) (vs vs' : list V) :
  vs ≡ₚ vs' → foldl add a vs = foldl add a vs'.
Proof.
  intros Hp. revert a. induction Hp as [|v vs vs' _ IH|v w vs|vs1 vs2 vs3 _ IH1 _ IH2];
    intros a; simpl.
  - done.
  - apply IH.
  - f_equal. by rewrite <- !add_assoc', (add_comm' v w).
  - by rewrite IH1.
Qed.

Lemma sum1_perm (vs vs' : list V) : vs ≡ₚ vs' → sum1 vs = sum1 vs'.
Proof.
  induction 1 as [|v vs vs' Hp _|v w vs|vs1 vs2 vs3 _ IH1 _ IH2]; simpl.
  - done.
  - f_equal. by apply foldl_add_perm.
  - f_equal. by rewrite (add_comm' w v).
  - by rewrite IH1.
Qed.

Context {K : Type} `{EqDecision K}.

(** Permuting the input of [GROUP BY ... SUM] permutes the groups. *)
Lemma group_sum_perm (rows rows' : list (K * V)) :
  rows ≡ₚ rows' → group_sum rows ≡ₚ group_sum rows'.
Proof.
  intros Hp. apply NoDup_Permutation.
  - eapply NoDup_fmap_1, group_sum_NoDup.
  - eapply NoDup_fmap_1, group_sum_NoDup.
  - intros [k v]. rewrite !elem_of_group_sum.
    by rewrite (sum1_perm _ (snd <$> filter (λ r, r.1 = k) rows'))
      by (by rewrite Hp).
Qed.

Lemma assoc_perm {W} (k : K) (rel rel' : list (K * W)) :
  NoDup rel.*1 → rel ≡ₚ rel' → assoc k rel = assoc k rel'.
Proof.
  intros Hnd Hp.
  assert (NoDup rel'.*1) as Hnd' by (by rewrite <- Hp).
  destruct (assoc k rel) as [v|] eqn:Hk.
  - symmetry. apply assoc_elem_NoDup; [done |].
    rewrite <- Hp. by apply assoc_Some_elem.
  - destruct (assoc k rel') as [v'|] eqn:Hk'; [| done].
    apply assoc_Some_elem in Hk'. rewrite <- Hp in Hk'.
    apply assoc_elem_NoDup in Hk'; [congruence | done].
Qed.

End sum_perm.

Lemma eq_Permutation {A} (l l' : list A) : l = l' → l ≡ₚ l'.
Proof. by intros ->. Qed.

Section join_facts.
Context {K V W : Type} `{EqDecision K} `{Arith V} `{Arith W}.

Lemma List_filter_filter {A} (f : A → bool) (l : list A) :
  List.filter f l = filter (λ x, f x = true) l.
Proof.
  induction l as [|x l IH]; [done |].
  cbn [List.filter]. rewrite filter_cons, IH.
  destruct (f x); [by rewrite decide_True | by rewrite decide_False].
Qed.

(** The right rows without partner. *)
Lemma unmatched_right (l : list (K * V)) (r : list (K * W)) :
  List.filter (λ kw, bool_decide (¬ is_Some (assoc kw.1 l))) r =
  filter (λ kw, kw.1 ∉ l.*1) r.
Proof.
  rewrite List_filter_filter. apply list_filter_iff. intros [k w]. cbn [fst].
  by rewrite bool_decide_eq_true, assoc_is_Some.
Qed.

Lemma full_outer_join_fst (l : list (K * V)) (r : list (K * W)) :
  (full_outer_join l r).*1 = l.*1 ++ filter (λ k, k ∉ l.*1) r.*1.
Proof.
  unfold full_outer_join. rewrite unmatched_right, fmap_app, <- !list_fmap_compose.
  f_equal.
  induction r as [|[k w] r IH]; [done |].
  rewrite fmap_cons, !filter_cons. cbn [fst].
  destruct (decide (k ∉ l.*1)) as [Hk | Hk]; [| apply IH].
  rewrite fmap_cons. cbn. f_equal. apply IH.
Qed.

(** The join has one row per key when both sides have. *)
Lemma full_outer_join_NoDup (l : list (K * V)) (r : list (K * W)) :
  NoDup l.*1 → NoDup r.*1 → NoDup (full_outer_join l r).*1.
Proof.
  intros Hl Hr. rewrite full_outer_join_fst. apply NoDup_app.
  split; [done |]. split; [| by apply NoDup_filter].
  intros k Hk [Hnk _]%list_elem_of_filter. done.
Qed.

Lemma full_outer_join_elem_key (l : list (K * V)) (r : list (K * W)) k :
  k ∈ (full_outer_join l r).*1 ↔ k ∈ l.*1 ∨ k ∈ r.*1.
Proof.
  rewrite full_outer_join_fst, elem_of_app, list_elem_of_filter.
  destruct (decide (k ∈ l.*1)); tauto.
Qed.

(** The row of a key: the values of both sides, [zero] for a missing one. *)
Lemma elem_of_full_outer_join (l : list (K * V)) (r : list (K * W)) k v w :
  (k, (v, w)) ∈ full_outer_join l r →
  ((k, v) ∈ l ∧ w = default zero (assoc k r)) ∨
  ((k ∉ l.*1) ∧ v = zero ∧ (k, w) ∈ r).
Proof.
  unfold full_outer_join. rewrite unmatched_right, elem_of_app.
  intros [([k' v'] & [= -> -> ->] & Hin)%list_elem_of_fmap
         | ([k' w'] & [= -> -> ->] & Hin)%list_elem_of_fmap].
  - by left.
  - right. by apply list_elem_of_filter in Hin as [Hb Hin].
Qed.

Lemma full_outer_join_perm (l l' : list (K * V)) (r r' : list (K * W)) :
  NoDup r.*1 → l ≡ₚ l' → r ≡ₚ r' →
  full_outer_join l r ≡ₚ full_outer_join l' r'.
Proof.
  intros Hr Hl Hrr. unfold full_outer_join. rewrite !unmatched_right.
  apply Permutation_app.
  - rewrite <- Hl. apply eq_Permutation, list_fmap_ext.
    intros _ [k v] _. simpl. by rewrite (assoc_perm k r r').
  - rewrite <- Hrr. apply fmap_Permutation, eq_Permutation, list_filter_iff.
    intros [k w]. simpl. by rewrite Hl.
Qed.

End join_facts.

(** A sort is determined by the elements it sorts when no two of them
    compare as equal. *)
Lemma sorted_perm_eq {A} (R : A → A → Prop) (l l' : list A) :
  (∀ a b, a ∈ l → b ∈ l → R a b → R b a → a = b) →
  StronglySorted R l → StronglySorted R l' → l ≡ₚ l' → l = l'.
Proof.
  revert l'. induction l as [|x l IH]; intros l' Hanti Hs Hs' Hp.
  - by apply Permutation_nil_l in Hp.
  - destruct l' as [|y l']; [by apply Permutation_nil_r in Hp |].
    apply StronglySorted_inv in Hs as [Hs Hx], Hs' as [Hs' Hy].
    rewrite Forall_forall in Hx, Hy.
    assert (x = y) as <-.
    { assert (x ∈ y :: l') as [? | Hxl]%elem_of_cons by (rewrite <- Hp; left); [done |].
      assert (y ∈ x :: l) as [? | Hyl]%elem_of_cons by (rewrite Hp; left); [done |].
      apply Hanti; [left | by right | by apply Hx | by apply Hy]. }
    f_equal. apply IH; [| done | done | by apply Permutation_cons_inv in Hp].
    intros a b Ha Hb. apply Hanti; by right.
Qed.

Lemma NoDup_fmap_inj {A B} (f : A → B) (l : list A) (a b : A) :
  NoDup (f <$> l) → a ∈ l → b ∈ l → f a = f b → a = b.
Proof.
  induction l as [|x l IH]; [by intros _ ?%elem_of_nil |].
  rewrite fmap_cons. intros [Hx Hnd]%NoDup_cons [-> | Ha]%elem_of_cons [-> | Hb]%elem_of_cons Hf.
  - done.
  - destruct Hx. rewrite Hf. by apply list_elem_of_fmap_2.
  - destruct Hx. rewrite <- Hf. by apply list_elem_of_fmap_2.
  - by apply IH.
Qed.

Lemma Zlist_leb_total (ks ks' : list Z) :
  Zlist_leb ks ks' = false → Zlist_leb ks' ks = true.
Proof.
  revert ks'. induction ks as [|k ks IH]; intros [|k' ks']; simpl; try done.
  intros [Hlt Hrest]%orb_false_elim.
  apply Z.ltb_ge in Hlt. apply andb_false_iff in Hrest as [Hne | Hrest].
  - apply Z.eqb_neq in Hne. apply orb_true_intro. left. apply Z.ltb_lt. lia.
  - apply orb_true_intro. destruct (decide (k = k')) as [-> | Hne].
    + right. rewrite Z.eqb_refl. simpl. by apply IH.
    + left. apply Z.ltb_lt. lia.
Qed.

Lemma Zlist_leb_trans (ks1 ks2 ks3 : list Z) :
  Zlist_leb ks1 ks2 = true → Zlist_leb ks2 ks3 = true → Zlist_leb ks1 ks3 = true.
Proof.
  revert ks2 ks3. induction ks1 as [|k1 ks1 IH]; intros [|k2 ks2] [|k3 ks3]; simpl; try done.
  intros [Hlt | [Heq Hr]%andb_prop]%orb_prop [Hlt' | [Heq' Hr']%andb_prop]%orb_prop;
    apply orb_true_intro;
    rewrite ?Z.ltb_lt, ?Z.eqb_eq in *.
  - left. apply Z.ltb_lt. lia.
  - left. apply Z.ltb_lt. lia.
  - left. apply Z.ltb_lt. lia.
  - right. apply andb_true_intro. split; [apply Z.eqb_eq; lia | by eapply IH].
Qed.

Lemma Zlist_leb_antisym (ks ks' : list Z) :
  length ks = length ks' →
  Zlist_leb ks ks' = true → Zlist_leb ks' ks = true → ks = ks'.
Proof.
  revert ks'. induction ks as [|k ks IH]; intros [|k' ks']; simpl; try done.
  intros [= Hlen].
  intros [Hlt | [Heq Hr]%andb_prop]%orb_prop [Hlt' | [Heq' Hr']%andb_prop]%orb_prop;
    rewrite ?Z.ltb_lt, ?Z.eqb_eq in *; try lia.
  subst. f_equal. by apply IH.
Qed.

Section order_by_keys_facts.
Context {A : Type} (keys : A → list Z).

Lemma order_by_keys_StronglySorted (l : list A) :
  StronglySorted (λ x y, Zlist_leb (keys x) (keys y) = true) (order_by_keys keys l).
Proof.
  apply Sorted_StronglySorted.
  - intros x y z. apply Zlist_leb_trans.
  - apply (sort_by_is_sorted (λ x y, Zlist_leb (keys x) (keys y))).
    intros a b. apply Zlist_leb_total.
Qed.

(** [ORDER BY] on a key that identifies the rows gives the same file for
    every order in which the rows arrive. *)
Lemma order_by_keys_perm (l l' : list A) :
  (∀ a b, length (keys a) = length (keys b)) →
  NoDup (keys <$> l) → l ≡ₚ l' → order_by_keys keys l = order_by_keys keys l'.
Proof.
  intros Hlen Hnd Hp.
  apply (sorted_perm_eq (λ x y, Zlist_leb (keys x) (keys y) = true)).
  - intros a b Ha Hb Hab Hba.
    apply (sort_by_elem_of _ a l) in Ha. apply (sort_by_elem_of _ b l) in Hb.
    apply (NoDup_fmap_inj keys l); [done.. |].
    by apply Zlist_leb_antisym.
  - apply order_by_keys_StronglySorted.
  - apply order_by_keys_StronglySorted.
  - unfold order_by_keys. by rewrite !sort_by_perm.
Qed.

End order_by_keys_facts.

(** ** The files the builder writes *)

Lemma filter_fmap_comm {A B} (f : A → B) (P : B → Prop) `{∀ y, Decision (P y)}
    (l : list A) :
  filter P (f <$> l) = f <$> filter (λ x, P (f x)) l.
Proof.
  induction l as [|x l IH]; [done |].
  rewrite fmap_cons, !filter_cons, IH. by destruct (decide (P (f x))).
Qed.

Lemma Qsum_app (vs ws : list Q) : (Qsum (vs ++ ws) == Qsum vs + Qsum ws)%Q.
Proof.
  induction vs as [|v vs IH]; [rewrite app_nil_l, Qsum_nil; lra |].
  rewrite <- app_comm_cons, !Qsum_cons. lra.
Qed.

Lemma Qsum_list_perm (vs ws : list Q) : vs ≡ₚ ws → (Qsum vs == Qsum ws)%Q.
Proof. induction 1; rewrite ?Qsum_cons; lra. Qed.

Lemma foldl_Qplus (a : Q) (vs : list Q) : (foldl Qplus a vs == a + Qsum vs)%Q.
Proof.
  revert a. induction vs as [|v vs IH]; intros a; cbn [foldl].
  - rewrite Qsum_nil. lra.
  - rewrite IH, Qsum_cons. lra.
Qed.

Lemma sum1_Qsum (vs : list Q) (v : Q) : sum1 vs = Some v → (v == Qsum vs)%Q.
Proof.
  destruct vs as [|w vs]; [done |]. intros [= <-].
  cbn [add Q_arith]. rewrite foldl_Qplus, Qsum_cons. lra.
Qed.

Section group_sum_Q.
Context {K : Type} `{EqDecision K}.
Implicit Types (rows acc : list (K * Q)).

(** A group total is the sum of the values of the rows of its key. *)
Lemma group_sum_value rows k v :
  (k, v) ∈ group_sum rows → (v == Qsum (snd <$> filter (λ r, r.1 = k) rows))%Q.
Proof. rewrite elem_of_group_sum. apply sum1_Qsum. Qed.

Lemma group_add_Qsum (P : K → Prop) `{∀ k, Decision (P k)} k v acc :
  (Qsum (snd <$> filter (λ r, P r.1) (group_add k v acc)) ==
   Qsum (snd <$> filter (λ r, P r.1) acc) + (if decide (P k) then v else 0))%Q.
Proof.
  induction acc as [|[k' v'] acc IH]; cbn [group_add].
  - rewrite filter_cons, filter_nil. cbn [fst].
    destruct (decide (P k)); rewrite ?fmap_cons, ?fmap_nil, ?Qsum_cons, ?Qsum_nil; simpl; lra.
  - destruct (decide (k' = k)) as [-> | Hne]; rewrite !filter_cons; cbn [fst].
    + destruct (decide (P k)); rewrite ?fmap_cons, ?Qsum_cons; cbn [snd add Q_arith]; lra.
    + destruct (decide (P k')); rewrite ?fmap_cons, ?Qsum_cons, IH; cbn [snd]; lra.
Qed.

Lemma group_fold_Qsum (P : K → Prop) `{∀ k, Decision (P k)} rows acc :
  (Qsum (snd <$> filter (λ r, P r.1) (foldl (λ acc r, group_add r.1 r.2 acc) acc rows)) ==
   Qsum (snd <$> filter (λ r, P r.1) acc) + Qsum (snd <$> filter (λ r, P r.1) rows))%Q.
Proof.
  revert acc. induction rows as [|[k v] rows IH]; intros acc; cbn [foldl].
  - rewrite filter_nil, fmap_nil, Qsum_nil. lra.
  - rewrite IH, group_add_Qsum, filter_cons. cbn [fst snd].
    destruct (decide (P k)); rewrite ?fmap_cons, ?Qsum_cons; cbn [snd]; lra.
Qed.

(** Grouping moves no value to another key: over every set of keys the
    group totals add up to what the rows add up to. *)
Lemma group_sum_Qsum (P : K → Prop) `{∀ k, Decision (P k)} rows :
  (Qsum (snd <$> filter (λ r, P r.1) (group_sum rows)) ==
   Qsum (snd <$> filter (λ r, P r.1) rows))%Q.
Proof.
  unfold group_sum. rewrite group_fold_Qsum, filter_nil, fmap_nil, Qsum_nil. lra.
Qed.

Lemma group_sum_Qsum_all rows :
  (Qsum (snd <$> group_sum rows) == Qsum (snd <$> rows))%Q.
Proof.
  pose proof (group_sum_Qsum (λ _, True) rows) as Hs.
  by rewrite !filter_all in Hs by done.
Qed.

End group_sum_Q.

(** Projecting the values of the groups: [SUM] of a column of a row of
    several summed columns is the [SUM] of that column. *)
Lemma group_sum_fmap {K V W} `{EqDecision K} `{Arith V} `{Arith W}
    (f : V → W) (rows : list (K * V)) :
  (∀ x y, f (add x y) = add (f x) (f y)) →
  prod_map id f <$> group_sum rows = group_sum (prod_map id f <$> rows).
Proof.
  intros Hf. unfold group_sum.
  change (@nil (K * W)) with (prod_map id f <$> @nil (K * V)).
  generalize (@nil (K * V)) as acc.
  induction rows as [|[k v] rows IH]; intros acc; [done |].
  rewrite fmap_cons. cbn [foldl]. rewrite IH. f_equal. cbn.
  clear IH. induction acc as [|[k' v'] acc IH]; cbn; [done |].
  destruct (decide (k' = k)) as [-> | Hne]; cbn; [by rewrite Hf |].
  by rewrite IH.
Qed.

Section edges_files.
Context {A : Type} `{Arith A}.

(** The origin/destination pair of an edge row. *)
Local Abbreviation od := (λ e : Edge A, (o_grid e, d_grid e)).

Lemma edges_view_od (src : list (RawRow A)) :
  od <$> edges_view src =
  (group_sum ((λ r, ((raw_o_grid r, raw_d_grid r), raw_num_total r)) <$> src)).*1.
Proof.
  unfold edges_view. rewrite <- list_fmap_compose.
  apply list_fmap_ext. by intros _ [[o d] v] _.
Qed.

Lemma edges_view_NoDup (src : list (RawRow A)) : NoDup (od <$> edges_view src).
Proof. rewrite edges_view_od. apply group_sum_NoDup. Qed.

Lemma edges_view_pairs (src : list (RawRow A)) (o d : Z) :
  (o, d) ∈ od <$> edges_view src ↔ ∃ r, r ∈ src ∧ raw_o_grid r = o ∧ raw_d_grid r = d.
Proof.
  rewrite edges_view_od, group_sum_elem_key, <- list_fmap_compose, list_elem_of_fmap.
  split.
  - intros (r & [= -> ->] & Hr). eauto.
  - intros (r & Hr & <- & <-). eauto.
Qed.

Lemma StronglySorted_weaken {B} (R R' : B → B → Prop) (l : list B) :
  (∀ x y, R x y → R' x y) → StronglySorted R l → StronglySorted R' l.
Proof.
  intros HR. induction 1 as [|x l _ IH Hx]; constructor; [done |].
  eapply Forall_impl; [done | apply HR].
Qed.

Lemma order_by_key_sorted {B} (key : B → Z) (l : list B) :
  StronglySorted (λ x y, key x ≤ key y) (order_by_keys (λ x, [key x]) l).
Proof.
  eapply StronglySorted_weaken; [| apply order_by_keys_StronglySorted]. cbn beta.
  intros x y. apply Zleb_single.
Qed.

(** The two edge files of a year.  They hold the same rows, one for each
    origin/destination pair that occurs in the raw rows, by_o in ascending
    order of the origin and by_d in ascending order of the destination. *)
Theorem edges_files_shape (src : list (RawRow A)) :
  edges_by_o_rows src ≡ₚ edges_by_d_rows src ∧
  NoDup (od <$> edges_by_o_rows src) ∧
  (∀ o d, (o, d) ∈ od <$> edges_by_o_rows src ↔
          ∃ r, r ∈ src ∧ raw_o_grid r = o ∧ raw_d_grid r = d) ∧
  StronglySorted (λ x y, o_grid x ≤ o_grid y) (edges_by_o_rows src) ∧
  StronglySorted (λ x y, d_grid x ≤ d_grid y) (edges_by_d_rows src).
Proof.
  unfold edges_by_o_rows, edges_by_d_rows.
  assert (∀ keys, order_by_keys keys (edges_view src) ≡ₚ edges_view src) as Hp
    by (intros keys; apply sort_by_perm).
  split; [by rewrite !Hp |].
  split; [rewrite Hp; apply edges_view_NoDup |].
  split; [intros o d; rewrite Hp; apply edges_view_pairs |].
  split; [apply (order_by_key_sorted o_grid) | apply (order_by_key_sorted d_grid)].
Qed.

End edges_files.

(** The flow of an edge row is the sum of the counts of the raw rows of its
    origin/destination pair, and the edge file carries the whole flow of the
    raw rows. *)
Theorem edges_files_sums (src : list (RawRow Q)) :
  (∀ e, e ∈ edges_by_o_rows src →
     num_total e ==
     Qsum (raw_num_total <$>
           filter (λ r, raw_o_grid r = o_grid e ∧ raw_d_grid r = d_grid e) src))%Q ∧
  (Qsum (num_total <$> edges_by_o_rows src) == Qsum (raw_num_total <$> src))%Q ∧
  (Qsum (num_total <$> edges_by_d_rows src) == Qsum (raw_num_total <$> src))%Q.
Proof.
  set (rows := (λ r : RawRow Q, ((raw_o_grid r, raw_d_grid r), raw_num_total r)) <$> src).
  assert (Hsum : (Qsum (num_total <$> edges_view src) == Qsum (raw_num_total <$> src))%Q).
  { unfold edges_view. fold rows. rewrite <- list_fmap_compose.
    change (num_total ∘ _) with (@snd (Z * Z) Q).
    rewrite group_sum_Qsum_all. unfold rows. by rewrite <- list_fmap_compose. }
  split; [| split].
  - intros e He. unfold edges_by_o_rows, order_by_keys in He.
    rewrite sort_by_elem_of in He.
    unfold edges_view in He. fold rows in He.
    apply list_elem_of_fmap in He as ([[o d] v] & -> & Hkv). cbn [o_grid d_grid num_total fst snd].
    apply group_sum_value in Hkv. rewrite Hkv. unfold rows.
    rewrite filter_fmap_comm, <- list_fmap_compose.
    apply Qsum_list_perm, eq_Permutation. f_equal.
    apply list_filter_iff. intros r. cbn. split; [by intros [= -> ->] | by intros [-> ->]].
  - rewrite <- Hsum. apply Qsum_list_perm, fmap_Permutation, sort_by_perm.
  - rewrite <- Hsum. apply Qsum_list_perm, fmap_Permutation, sort_by_perm.
Qed.

(** ** The totals and hourly files *)

Section key_sums.
Context {K : Type} `{EqDecision K}.

Lemma sum1_None {V} `{Arith V} (vs : list V) : sum1 vs = None → vs = [].
Proof. by destruct vs. Qed.

(** The total of a key, [0] when the key has no group. *)
Lemma group_sum_default (rows : list (K * Q)) (k : K) :
  (default 0 (assoc k (group_sum rows)) == Qsum (snd <$> filter (λ r, r.1 = k) rows))%Q.
Proof.
  rewrite assoc_group_sum.
  destruct (sum1 _) as [v|] eqn:Hs; simpl.
  - by apply sum1_Qsum.
  - apply sum1_None in Hs. rewrite Hs, Qsum_nil. lra.
Qed.

Lemma NoDup_key_sum (r : list (K * Q)) (k : K) :
  NoDup r.*1 →
  (Qsum (snd <$> filter (λ kw, kw.1 = k) r) == default 0 (assoc k r))%Q.
Proof.
  unfold assoc. induction r as [|[k' w'] r IH]; [intros _; cbn; lra |].
  rewrite fmap_cons. intros [Hk' Hnd]%NoDup_cons. rewrite filter_cons. cbn [fst find].
  destruct (decide (k' = k)) as [-> | Hne].
  - rewrite bool_decide_eq_true_2 by done. rewrite fmap_cons, Qsum_cons. cbn.
    rewrite filter_none, fmap_nil, Qsum_nil; [lra |].
    intros [k2 w2] Hin. cbn. intros ->. apply Hk'. by apply (list_elem_of_fmap_2 fst) in Hin.
  - rewrite bool_decide_eq_false_2 by done. by apply IH.
Qed.

Lemma Qsum_filter_or {B} (f : B → Q) (P1 P2 : B → Prop)
    `{∀ x, Decision (P1 x)} `{∀ x, Decision (P2 x)} (l : list B) :
  (∀ x, P1 x → P2 x → False) →
  (Qsum (f <$> filter (λ x, P1 x ∨ P2 x) l) ==
   Qsum (f <$> filter P1 l) + Qsum (f <$> filter P2 l))%Q.
Proof.
  intros Hdis. induction l as [|x l IH]; [rewrite !filter_nil, fmap_nil, Qsum_nil; lra |].
  rewrite !filter_cons.
  destruct (decide (P1 x)) as [H1|H1], (decide (P2 x)) as [H2|H2];
    [by destruct (Hdis x) | | |].
  - rewrite decide_True by tauto. rewrite !fmap_cons, !Qsum_cons. lra.
  - rewrite decide_True by tauto. rewrite !fmap_cons, !Qsum_cons. lra.
  - rewrite decide_False by tauto. done.
Qed.

Lemma Qsum_filter_split {B} (f : B → Q) (P C : B → Prop)
    `{∀ x, Decision (P x)} `{∀ x, Decision (C x)} (l : list B) :
  (Qsum (f <$> filter P l) ==
   Qsum (f <$> filter (λ x, P x ∧ C x) l) + Qsum (f <$> filter (λ x, P x ∧ ¬ C x) l))%Q.
Proof.
  induction l as [|x l IH]; [rewrite !filter_nil, fmap_nil, Qsum_nil; lra |].
  rewrite !filter_cons.
  destruct (decide (P x)) as [HP|HP], (decide (C x)) as [HC|HC].
  - rewrite decide_True, decide_False by tauto. rewrite !fmap_cons, !Qsum_cons. lra.
  - rewrite decide_False, decide_True by tauto. rewrite !fmap_cons, !Qsum_cons. lra.
  - rewrite !decide_False by tauto. done.
  - rewrite !decide_False by tauto. done.
Qed.

Context (P : K → Prop) `{∀ k, Decision (P k)}.

(** Over every set of keys, the left column of the join adds up to the left
    relation: a right row without partner contributes [0]. *)
Lemma full_outer_join_Qsum_l `{Arith W} (l : list (K * Q)) (r : list (K * W)) :
  (Qsum ((λ m, m.2.1) <$> filter (λ m, P m.1) (full_outer_join l r)) ==
   Qsum (snd <$> filter (λ kv, P kv.1) l))%Q.
Proof.
  unfold full_outer_join. rewrite filter_app, fmap_app, Qsum_app.
  rewrite !filter_fmap_comm, <- !list_fmap_compose.
  assert (Hz : ∀ l' : list (K * W), Qsum ((λ _, 0%Q) <$> l') == 0).
  { induction l' as [|x l' IH]; [done |]. rewrite fmap_cons, Qsum_cons, IH. lra. }
  cbn [fst snd compose zero Q_arith].
  rewrite (Hz (filter _ _)). cbn [fst snd compose]. 
  rewrite (list_fmap_ext _ snd (filter (λ kv, P kv.1) l)) by done. lra.
Qed.

(** The right column adds up to the right relation when each side has one
    row per key. *)
Lemma full_outer_join_Qsum_r `{Arith V} (l : list (K * V)) (r : list (K * Q)) :
  NoDup l.*1 → NoDup r.*1 →
  (Qsum ((λ m, m.2.2) <$> filter (λ m, P m.1) (full_outer_join l r)) ==
   Qsum (snd <$> filter (λ kw, P kw.1) r))%Q.
Proof.
  intros Hl Hr. unfold full_outer_join. rewrite unmatched_right.
  rewrite filter_app, fmap_app, Qsum_app.
  rewrite !filter_fmap_comm, <- !list_fmap_compose. cbn [fst snd compose].
  rewrite list_filter_filter.
  rewrite (Qsum_filter_split snd (λ kw, P kw.1) (λ kw, kw.1 ∈ l.*1) r).
  apply Qplus_comp; [| apply Qsum_list_perm, eq_Permutation; f_equal;
                       apply list_filter_iff; intros [k w]; cbn; tauto].
  induction l as [|[k0 v0] l IH].
  - rewrite filter_nil, fmap_nil, Qsum_nil.
    rewrite filter_none, fmap_nil, Qsum_nil; [lra |].
    intros [k w] _ [_ Hin]. by apply elem_of_nil in Hin.
  - rewrite fmap_cons in Hl. apply NoDup_cons in Hl as [Hk0 Hl].
    rewrite filter_cons. cbn [fst snd].
    rewrite (list_filter_iff _ (λ kw : K * Q, (P kw.1 ∧ kw.1 = k0) ∨ (P kw.1 ∧ kw.1 ∈ l.*1))).
    2:{ intros [k w]. rewrite fmap_cons, elem_of_cons. cbn. tauto. }
    rewrite Qsum_filter_or by (intros [k w]; cbn; intros [_ ->] [_ ?]; done).
    rewrite <- (IH Hl).
    destruct (decide (P k0)) as [HP | HP].
    + rewrite fmap_cons, Qsum_cons. cbn [fst snd].
      rewrite <- (NoDup_key_sum r k0 Hr).
      apply Qplus_comp; [| done].
      apply Qsum_list_perm, eq_Permutation. f_equal.
      apply list_filter_iff. intros [k w]; cbn. split; [intros ->; done | by intros [_ ->]].
    + rewrite (filter_none (λ kw : K * Q, P kw.1 ∧ kw.1 = k0)), fmap_nil, Qsum_nil; [lra |].
      intros [k w] _ [HPk Hk]. cbn in *. by subst.
Qed.

End key_sums.

Lemma keyed_filter_fmap {B K V} `{EqDecision K} (key : B → K) (val : B → V)
    (P : K → Prop) `{∀ k, Decision (P k)} (l : list B) :
  snd <$> filter (λ r, P r.1) ((λ e, (key e, val e)) <$> l) =
  val <$> filter (λ e, P (key e)) l.
Proof. by rewrite filter_fmap_comm, <- list_fmap_compose. Qed.

Section totals_file.
Context {A : Type} `{Arith A}.

Lemma gt_view_keys (e_out e_in : list (Edge A)) :
  t_grid_id <$> gt_view e_out e_in = (full_outer_join (gout e_out) (gin e_in)).*1.
Proof. unfold gt_view. by rewrite <- list_fmap_compose. Qed.

Lemma gt_view_NoDup (e_out e_in : list (Edge A)) :
  NoDup (t_grid_id <$> gt_view e_out e_in).
Proof.
  rewrite gt_view_keys. apply full_outer_join_NoDup; apply group_sum_NoDup.
Qed.

Lemma gt_view_grids (e_out e_in : list (Edge A)) (g : Z) :
  g ∈ t_grid_id <$> gt_view e_out e_in ↔ g ∈ o_grid <$> e_out ∨ g ∈ d_grid <$> e_in.
Proof.
  rewrite gt_view_keys, full_outer_join_elem_key. unfold gout, gin.
  by rewrite !group_sum_elem_key, <- !list_fmap_compose.
Qed.

(** The totals file has one row per grid that is an origin of the outbound
    relation or a destination of the inbound one, in ascending order of the
    grid. *)
Lemma totals_rows_shape (e_out e_in : list (Edge A)) :
  NoDup (t_grid_id <$> totals_rows e_out e_in) ∧
  StronglySorted (λ x y, t_grid_id x ≤ t_grid_id y) (totals_rows e_out e_in) ∧
  (∀ g, g ∈ t_grid_id <$> totals_rows e_out e_in ↔
        g ∈ o_grid <$> e_out ∨ g ∈ d_grid <$> e_in).
Proof.
  unfold totals_rows.
  assert (order_by_keys (λ r, [t_grid_id r]) (gt_view e_out e_in) ≡ₚ gt_view e_out e_in)
    as Hp by apply sort_by_perm.
  split; [rewrite Hp; apply gt_view_NoDup |].
  split; [apply (order_by_key_sorted t_grid_id) |].
  intros g. rewrite Hp. apply gt_view_grids.
Qed.

(** The totals computed from the two edge files of a build are the totals
    the build computes from its edge view, when sums do not depend on the
    order of the rows. *)
Lemma totals_rows_edge_files `{!ExactArith A} (src : list (RawRow A)) :
  totals_rows (edges_by_o_rows src) (edges_by_d_rows src) =
  totals_rows (edges_view src) (edges_view src).
Proof.
  unfold totals_rows. apply order_by_keys_perm.
  - done.
  - change (λ r : TotalRow A, [t_grid_id r]) with ((λ g : Z, [g]) ∘ @t_grid_id A).
    rewrite list_fmap_compose.
    apply NoDup_fmap_2; [by intros g g' [= ->] | apply gt_view_NoDup].
  - unfold gt_view. apply fmap_Permutation, full_outer_join_perm.
    + apply group_sum_NoDup.
    + apply group_sum_perm, fmap_Permutation, sort_by_perm.
    + apply group_sum_perm, fmap_Permutation, sort_by_perm.
Qed.

End totals_file.

(** The totals file.  It has one row per grid that occurs as an origin in
    the outbound edge relation or as a destination in the inbound one, in
    ascending order of the grid; [out_total] is the sum of the flows that
    leave the grid and [in_total] the sum of the flows that enter it ([0]
    when there is none). *)
Theorem totals_file_sums (e_out e_in : list (Edge Q)) :
  NoDup (t_grid_id <$> totals_rows e_out e_in) ∧
  StronglySorted (λ x y, t_grid_id x ≤ t_grid_id y) (totals_rows e_out e_in) ∧
  (∀ g, g ∈ t_grid_id <$> totals_rows e_out e_in ↔
        g ∈ o_grid <$> e_out ∨ g ∈ d_grid <$> e_in) ∧
  (∀ r, r ∈ totals_rows e_out e_in →
     (t_out_total r == Qsum (num_total <$> filter (λ e, o_grid e = t_grid_id r) e_out))%Q ∧
     (t_in_total r == Qsum (num_total <$> filter (λ e, d_grid e = t_grid_id r) e_in))%Q ∧
     (t_total r == t_out_total r + t_in_total r)%Q).
Proof.
  destruct (totals_rows_shape e_out e_in) as (Hnd & Hs & Hk).
  split; [done |]. split; [done |]. split; [done |].
  intros r Hr.
  unfold totals_rows, order_by_keys in Hr. rewrite sort_by_elem_of in Hr.
  unfold gt_view in Hr. apply list_elem_of_fmap in Hr as ([g [v w]] & -> & Hm).
  cbn [t_grid_id t_out_total t_in_total t_total fst snd add Q_arith].
  assert (Hout : ∀ k, (default 0 (assoc k (gout e_out)) ==
                       Qsum (num_total <$> filter (λ e, o_grid e = k) e_out))%Q).
  { intros k. unfold gout. rewrite group_sum_default.
    apply Qsum_list_perm, eq_Permutation.
    exact (keyed_filter_fmap o_grid num_total (λ k', k' = k) e_out). }
  assert (Hin : ∀ k, (default 0 (assoc k (gin e_in)) ==
                      Qsum (num_total <$> filter (λ e, d_grid e = k) e_in))%Q).
  { intros k. unfold gin. rewrite group_sum_default.
    apply Qsum_list_perm, eq_Permutation.
    exact (keyed_filter_fmap d_grid num_total (λ k', k' = k) e_in). }
  split; [| split; [| lra]].
  - rewrite <- Hout.
    apply elem_of_full_outer_join in Hm as [[Hv _] | (Hng & -> & _)].
    + apply assoc_elem_NoDup in Hv; [| apply group_sum_NoDup]. by rewrite Hv.
    + destruct (assoc g (gout e_out)) as [v'|] eqn:Ha; [| done].
      destruct Hng. apply assoc_is_Some. by rewrite Ha.
  - rewrite <- Hin.
    apply elem_of_full_outer_join in Hm as [[_ ->] | (_ & _ & Hw)]; [done |].
    apply assoc_elem_NoDup in Hw; [| apply group_sum_NoDup]. by rewrite Hw.
Qed.

(** The totals a later [build_totals_for_year] derives from the edge files
    of a build are the totals that build wrote: removing the totals file of
    a fully built year and rebuilding it from the edge files restores the
    directory. *)
Theorem totals_rebuild_round_trip {A : Type} `{Arith A} `{DateEngine} `{!ExactArith A}
    (env : BuildEnv A) (y : Z) (src : list (RawRow A)) (fs : appdata A) :
  year_csv env !! y = Some src →
  (∀ k, copy_raises env k y = false) →
  ∃ fs1, _build_year env y true true true fs = (fs1, Ok tt) ∧
         build_totals_for_year env y (delete (totals, y) fs1) = (fs1, Ok tt).
Proof.
  intros Hsrc Hc.
  destruct (_build_year_ok env y src true true true fs Hsrc) as (fs1 & Hb & Hfiles & _).
  { apply Forall_forall. intros kt _. apply Hc. }
  exists fs1. split; [done |].
  rewrite (build_totals_for_year_step env y _ (edges_by_o_rows src) (edges_by_d_rows src)).
  - rewrite build_step_ok by apply Hc. cbn [fst snd].
    rewrite totals_rows_edge_files, insert_delete_eq.
    f_equal. apply insert_id, Hfiles. unfold build_plan. set_solver.
  - rewrite lookup_delete_ne by done. apply Hfiles. unfold build_plan. set_solver.
  - rewrite lookup_delete_ne by done. apply Hfiles. unfold build_plan. set_solver.
Qed.

Lemma totals_rebuild_round_trip_witness :
  ∃ fs1, _build_year (H0 := iso_dates) csv_2021_env 2021 true true true ∅ = (fs1, Ok tt) ∧
         build_totals_for_year (H0 := iso_dates) csv_2021_env 2021 (delete (totals, 2021) fs1)
         = (fs1, Ok tt).
Proof.
  assert (H1 : year_csv csv_2021_env !! 2021 = Some integer_rows) by reflexivity.
  exact (totals_rebuild_round_trip (H0 := iso_dates) csv_2021_env 2021 integer_rows ∅ H1
           (λ _, eq_refl)).
Defined.

(** *** The hourly file *)

Section hourly_file.
Context {A : Type} `{Arith A} `{DateEngine}.

(** The key [(grid_id, week, hour)] of an hourly row, and of a row of the
    view [merged]. *)
Local Abbreviation gwh := (λ r : HourlyRow A, (h_grid_id r, h_week r, h_hour r)).
Local Abbreviation week_key :=
  (λ k : Z * date * Z, (k.1.1, date_part_week k.1.2, k.2)).

Lemma hourly_view_keys (src : list (RawRow A)) :
  gwh <$> hourly_view src =
  (group_sum ((λ m, (week_key m.1, (m.2.1, m.2.2, add m.2.1 m.2.2))) <$>
              merged (t_view src))).*1.
Proof.
  unfold hourly_view. rewrite <- list_fmap_compose.
  apply list_fmap_ext. by intros _ [[[g w] h] v] _.
Qed.

Lemma hourly_view_NoDup (src : list (RawRow A)) : NoDup (gwh <$> hourly_view src).
Proof. rewrite hourly_view_keys. apply group_sum_NoDup. Qed.

Lemma merged_keys (t : list (date * RawRow A)) (k : Z * date * Z) :
  k ∈ (merged t).*1 ↔
  ∃ dr, dr ∈ t ∧ k.1.2 = dr.1 ∧ k.2 = raw_hour dr.2 ∧
        (k.1.1 = raw_o_grid dr.2 ∨ k.1.1 = raw_d_grid dr.2).
Proof.
  unfold merged, out_by, in_by.
  rewrite full_outer_join_elem_key, !group_sum_elem_key, <- !list_fmap_compose.
  rewrite !list_elem_of_fmap. destruct k as [[g dt] h]. cbn. split.
  - intros [(dr & [= -> -> ->] & Hin) | (dr & [= -> -> ->] & Hin)]; eauto 10.
  - intros (dr & Hin & -> & -> & [-> | ->]); eauto.
Qed.

Lemma hourly_view_grids (src : list (RawRow A)) (g w h : Z) :
  (g, w, h) ∈ gwh <$> hourly_view src ↔
  ∃ dr, dr ∈ t_view src ∧ date_part_week dr.1 = w ∧ raw_hour dr.2 = h ∧
        (raw_o_grid dr.2 = g ∨ raw_d_grid dr.2 = g).
Proof.
  rewrite hourly_view_keys, group_sum_elem_key, <- list_fmap_compose.
  rewrite list_elem_of_fmap. split.
  - intros ([k v] & [= -> -> ->] & Hm).
    apply (list_elem_of_fmap_2 fst) in Hm. apply merged_keys in Hm as (dr & Hin & Hdt & Hh & Hg).
    cbn [fst snd] in *. exists dr. rewrite Hdt, Hh. intuition.
  - intros (dr & Hin & <- & <- & Hg).
    assert (∃ k, k ∈ (merged (t_view src)).*1 ∧ k.1.2 = dr.1 ∧ k.2 = raw_hour dr.2 ∧ k.1.1 = g)
      as (k & Hk & Hdt & Hh & Hgk).
    { destruct Hg as [<- | <-].
      - exists (raw_o_grid dr.2, dr.1, raw_hour dr.2). split; [| done].
        apply merged_keys. exists dr. cbn. auto.
      - exists (raw_d_grid dr.2, dr.1, raw_hour dr.2). split; [| done].
        apply merged_keys. exists dr. cbn. auto. }
    apply list_elem_of_fmap in Hk as ([k' v] & -> & Hm).
    exists (k', v). split; [| done]. destruct k' as [[g' dt'] h']. cbn in *. by subst.
Qed.

Lemma Zlist_leb_triple (a b c a' b' c' : Z) :
  Zlist_leb [a; b; c] [a'; b'; c'] = true ↔
  a < a' ∨ (a = a' ∧ (b < b' ∨ (b = b' ∧ c ≤ c'))).
Proof.
  simpl. rewrite !orb_true_iff, !andb_true_iff, !orb_true_iff, !andb_true_iff,
    !Z.ltb_lt, !Z.eqb_eq. lia.
Qed.

(** Rows whose date does not parse are not seen by the hourly views. *)
Lemma t_view_parseable (src : list (RawRow A)) :
  t_view src =
  t_view (filter (λ r, String.length (date_dt r) = 8%nat ∧
                       is_Some (try_strptime_ymd (date_dt r))) src).
Proof.
  unfold t_view. induction src as [|r src IH]; [done |].
  rewrite filter_cons. destruct (decide _) as [[Hlen [dt Hdt]] | HP].
  - cbn [omap list_omap]. rewrite bool_decide_eq_true_2, Hdt by done.
    cbn [mbind option_bind]. f_equal. exact IH.
  - cbn [omap list_omap]. case_bool_decide as Hlen; [| exact IH].
    destruct (try_strptime_ymd (date_dt r)) as [dt|] eqn:Hdt; [| exact IH].
    destruct HP. eauto.
Qed.

(** The hourly file of a year.  It has one row per (grid, ISO week, hour)
    for which some raw row with a date that parses has the grid as origin
    or as destination, in ascending order of (grid, week, hour); raw rows
    whose date does not parse change nothing in it. *)
Theorem hourly_file_shape (src : list (RawRow A)) :
  NoDup (gwh <$> hourly_rows src) ∧
  StronglySorted hourly_key_le (hourly_rows src) ∧
  (∀ g w h, (g, w, h) ∈ gwh <$> hourly_rows src ↔
     ∃ dr, dr ∈ t_view src ∧ date_part_week dr.1 = w ∧ raw_hour dr.2 = h ∧
           (raw_o_grid dr.2 = g ∨ raw_d_grid dr.2 = g)) ∧
  hourly_rows src =
  hourly_rows (filter (λ r, String.length (date_dt r) = 8%nat ∧
                            is_Some (try_strptime_ymd (date_dt r))) src).
Proof.
  unfold hourly_rows.
  assert (order_by_keys (λ r, [h_grid_id r; h_week r; h_hour r]) (hourly_view src)
          ≡ₚ hourly_view src) as Hp by apply sort_by_perm.
  split; [rewrite Hp; apply hourly_view_NoDup |].
  split.
  { eapply StronglySorted_weaken; [| apply order_by_keys_StronglySorted]. cbn beta.
    intros x y. apply Zlist_leb_triple. }
  split; [intros g w h; rewrite Hp; apply hourly_view_grids |].
  unfold hourly_view. by rewrite <- t_view_parseable.
Qed.

End hourly_file.

Section hourly_sums.
Context `{DateEngine}.

Local Abbreviation week_key :=
  (λ k : Z * date * Z, (k.1.1, date_part_week k.1.2, k.2)).

Lemma hourly_view_column (f : Q * Q * Q → Q) (src : list (RawRow Q)) (g w h : Z) (v : Q * Q * Q) :
  (∀ x y, f (add x y) = add (f x) (f y)) →
  ((g, w, h), v) ∈
    group_sum ((λ m, (week_key m.1, (m.2.1, m.2.2, add m.2.1 m.2.2))) <$>
               merged (t_view src)) →
  (f v == Qsum ((λ m, f (m.2.1, m.2.2, add m.2.1 m.2.2)) <$>
                filter (λ m, week_key m.1 = (g, w, h)) (merged (t_view src))))%Q.
Proof.
  intros Hf Hin.
  apply (list_elem_of_fmap_2 (prod_map id f)) in Hin.
  rewrite (group_sum_fmap f) in Hin by done. cbn [prod_map id fst snd] in Hin.
  apply group_sum_value in Hin. rewrite Hin, <- list_fmap_compose.
  apply Qsum_list_perm, eq_Permutation.
  exact (keyed_filter_fmap (λ m, week_key m.1) (λ m, f (m.2.1, m.2.2, add m.2.1 m.2.2))
           (λ k, k = (g, w, h)) (merged (t_view src))).
Qed.

(** The hourly totals.  [out_total] of the row of (grid, week, hour) is the
    sum of the counts of the raw rows that leave the grid in that hour on a
    day of that week, [in_total] the sum over the raw rows that enter it,
    and [total] is their sum. *)
Theorem hourly_file_sums (src : list (RawRow Q)) (r : HourlyRow Q) :
  r ∈ hourly_rows src →
  (h_out_total r ==
   Qsum ((λ dr, raw_num_total dr.2) <$>
         filter (λ dr, raw_o_grid dr.2 = h_grid_id r ∧ date_part_week dr.1 = h_week r ∧
                       raw_hour dr.2 = h_hour r) (t_view src)))%Q ∧
  (h_in_total r ==
   Qsum ((λ dr, raw_num_total dr.2) <$>
         filter (λ dr, raw_d_grid dr.2 = h_grid_id r ∧ date_part_week dr.1 = h_week r ∧
                       raw_hour dr.2 = h_hour r) (t_view src)))%Q ∧
  (h_total r == h_out_total r + h_in_total r)%Q.
Proof.
  intros Hr.
  assert (Htot : h_total r = (h_out_total r + h_in_total r)%Q).
  { pose proof (hourly_rows_inv src) as Hinv. rewrite Forall_forall in Hinv.
    apply (Hinv r Hr). }
  split; [| split; [| by rewrite Htot]].
  all: unfold hourly_rows, order_by_keys in Hr; rewrite sort_by_elem_of in Hr;
    unfold hourly_view in Hr;
    apply list_elem_of_fmap in Hr as ([[[g w] h] [[o i] t]] & -> & Hin);
    cbn [h_grid_id h_week h_hour h_out_total h_in_total fst snd].
  - apply (hourly_view_column (λ v, v.1.1)) in Hin; [| done]. cbn [fst snd] in Hin.
    rewrite Hin. unfold merged.
    eapply Qeq_trans;
      [exact (full_outer_join_Qsum_l (λ k, week_key k = (g, w, h)) _ _) |].
    unfold out_by.
    eapply Qeq_trans; [exact (group_sum_Qsum (λ k, week_key k = (g, w, h)) _) |].
    apply Qsum_list_perm, eq_Permutation.
    etrans;
      [exact (keyed_filter_fmap
                (λ dr : date * RawRow Q, (raw_o_grid dr.2, dr.1, raw_hour dr.2))
                (λ dr, raw_num_total dr.2) (λ k, week_key k = (g, w, h)) _) |].
    f_equal. apply list_filter_iff. intros [dt rr]. cbn.
    split; [by intros [= -> -> ->] | by intros (-> & -> & ->)].
  - apply (hourly_view_column (λ v, v.1.2)) in Hin; [| done]. cbn [fst snd] in Hin.
    rewrite Hin. unfold merged.
    eapply Qeq_trans;
      [exact (full_outer_join_Qsum_r (λ k, week_key k = (g, w, h)) _ _
                (group_sum_NoDup _) (group_sum_NoDup _)) |].
    unfold in_by.
    eapply Qeq_trans; [exact (group_sum_Qsum (λ k, week_key k = (g, w, h)) _) |].
    apply Qsum_list_perm, eq_Permutation.
    etrans;
      [exact (keyed_filter_fmap
                (λ dr : date * RawRow Q, (raw_d_grid dr.2, dr.1, raw_hour dr.2))
                (λ dr, raw_num_total dr.2) (λ k, week_key k = (g, w, h)) _) |].
    f_equal. apply list_filter_iff. intros [dt rr]. cbn.
    split; [by intros [= -> -> ->] | by intros (-> & -> & ->)].
Qed.

End hourly_sums.

Lemma hourly_file_sums_witness :
  let r := {| h_grid_id := 100; h_week := 1; h_hour := 8;
              h_out_total := 3%Q; h_in_total := 3%Q; h_total := 6%Q |} in
  r ∈ hourly_rows (H0 := iso_dates) rational_rows ∧
  (h_out_total r ==
   Qsum ((λ dr, raw_num_total dr.2) <$>
         filter (λ dr, raw_o_grid dr.2 = h_grid_id r ∧ iso_week dr.1 = h_week r ∧
                       raw_hour dr.2 = h_hour r) (t_view (H0 := iso_dates) rational_rows)))%Q.
Proof.
  intros r.
  assert (H1 : r ∈ hourly_rows (H0 := iso_dates) rational_rows) by (vm_compute; left).
  split; [exact H1 |].
  exact (proj1 (hourly_file_sums (H := iso_dates) rational_rows r H1)).
Defined.

(** ** [ensure_built] *)

Section ensure_built_facts.
Context {A : Type} `{Arith A} `{DateEngine} (env : BuildEnv A).
Implicit Types (fs : appdata A) (plan : list (kind * table A)).

(** A build of year [y] leaves every file alone that is not in its plan,
    whether or not it raises. *)
Lemma run_plan_other (y : Z) plan fs (k' : kind) (y' : Z) :
  (y' = y → k' ∉ plan.*1) →
  (run_plan env y plan fs).1 !! (k', y') = fs !! (k', y').
Proof.
  revert fs. induction plan as [|kt plan IH]; intros fs Hk; [done |].
  assert (Hne : (kt.1, y) ≠ (k', y')).
  { intros [= <- <-]. apply Hk; [done | left]. }
  rewrite run_plan_cons.
  destruct (copy_raises env kt.1 y) eqn:Hc.
  - rewrite build_step_raises by done. cbn [fst]. by rewrite lookup_delete_ne.
  - rewrite build_step_ok by done. rewrite IH.
    + by rewrite lookup_insert_ne.
    + intros Hy Hin. apply (Hk Hy). by right.
Qed.

Lemma _build_year_other (y : Z) (b1 b2 b3 : bool) fs (k' : kind) (y' : Z) :
  (y' = y → k' ≠ totals ∧ (k' = edges_by_o → b1 = false) ∧
            (k' = edges_by_d → b2 = false) ∧ (k' = hourly → b3 = false)) →
  (_build_year env y b1 b2 b3 fs).1 !! (k', y') = fs !! (k', y').
Proof.
  intros Hk. destruct (year_csv env !! y) as [src|] eqn:Hsrc.
  - rewrite (_build_year_plan env y src) by done. apply run_plan_other.
    intros Hy. destruct (Hk Hy) as (Ht & Ho & Hd & Hh). unfold build_plan.
    destruct k', b1, b2, b3; cbn; rewrite ?elem_of_cons, ?elem_of_nil;
      intuition congruence.
  - by rewrite _build_year_no_source.
Qed.

Lemma ensure_built_cons (y : Z) (years : list Z) fs :
  ensure_built env (y :: years) fs =
  if complete fs y then ensure_built env years fs
  else match _build_year env y (negb (exists_ fs edges_by_o y))
               (negb (exists_ fs edges_by_d y)) (negb (exists_ fs hourly y)) fs with
       | (fs', Ok _) => ensure_built env years fs'
       | (fs', Err e) => (fs', Err e)
       end.
Proof.
  cbn [ensure_built]. unfold mbind, build_bind, bget, bwhen, complete.
  destruct (exists_ fs edges_by_o y), (exists_ fs edges_by_d y), (exists_ fs hourly y);
    cbn [negb orb andb]; try done;
    by destruct (_build_year _ _ _ _ _ _) as [fs' [[]|e]].
Qed.

(** The step of [ensure_built] for one year changes no file that exists and
    is not a totals file, and no file of another year. *)
Lemma ensure_step_other (y : Z) fs (k' : kind) (y' : Z) :
  (y' = y → k' ≠ totals ∧ is_Some (fs !! (k', y'))) →
  (_build_year env y (negb (exists_ fs edges_by_o y))
     (negb (exists_ fs edges_by_d y)) (negb (exists_ fs hourly y)) fs).1 !! (k', y')
  = fs !! (k', y').
Proof.
  intros Hk. apply _build_year_other. intros ->. destruct (Hk eq_refl) as [Ht Hex].
  split; [done |]. unfold exists_.
  repeat split; intros ->; by rewrite bool_decide_eq_true_2.
Qed.

(** [ensure_built] never rewrites or removes an edge or hourly file that
    exists, and touches no file of a year it was not asked for, whether or
    not it raises. *)
Theorem ensure_built_keeps_existing (years : list Z) (fs : appdata A) (k : kind) (y : Z) :
  (y ∈ years → k ≠ totals ∧ is_Some (fs !! (k, y))) →
  (ensure_built env years fs).1 !! (k, y) = fs !! (k, y).
Proof.
  revert fs. induction years as [|y0 years IH]; intros fs Hk; [done |].
  rewrite ensure_built_cons.
  assert (Hstep : (_build_year env y0 (negb (exists_ fs edges_by_o y0))
            (negb (exists_ fs edges_by_d y0)) (negb (exists_ fs hourly y0)) fs).1 !! (k, y)
          = fs !! (k, y)).
  { apply ensure_step_other. intros ->. apply Hk. left. }
  destruct (complete fs y0).
  - apply IH. intros Hy. apply Hk. by right.
  - destruct (_build_year _ _ _ _ _ _) as [fs' [[]|e]]; cbn [fst] in *; [| done].
    rewrite IH; [done |]. intros Hy. rewrite Hstep. apply Hk. by right.
Qed.

Lemma complete_spec fs (y : Z) :
  complete fs y = true ↔
  is_Some (fs !! (edges_by_o, y)) ∧ is_Some (fs !! (edges_by_d, y)) ∧
  is_Some (fs !! (hourly, y)).
Proof.
  unfold complete, exists_. rewrite !andb_true_iff, !bool_decide_eq_true. tauto.
Qed.

(** On a directory that has the three files of every requested year,
    [ensure_built] does nothing; it reads no CSV. *)
Lemma ensure_built_complete (years : list Z) (fs : appdata A) :
  (∀ y, y ∈ years → complete fs y = true) →
  ensure_built env years fs = (fs, Ok tt).
Proof.
  induction years as [|y years IH]; intros Hc; [done |].
  rewrite ensure_built_cons, Hc by left. apply IH. intros y' ?. apply Hc. by right.
Qed.

(** A build that returns has run every step of its plan. *)
Lemma run_plan_Ok_inv (y : Z) plan fs fs' :
  run_plan env y plan fs = (fs', Ok tt) →
  Forall (λ kt, copy_raises env kt.1 y = false) plan.
Proof.
  revert fs. induction plan as [|kt plan IH]; intros fs Hrun; [constructor |].
  rewrite run_plan_cons in Hrun. destruct (copy_raises env kt.1 y) eqn:Hc.
  - by rewrite build_step_raises in Hrun.
  - rewrite build_step_ok in Hrun by done. constructor; [done | by eapply IH].
Qed.

(** The step for an incomplete year, when it returns: the year had its
    CSV, and it has its three files afterwards. *)
Lemma ensure_step_ok (y : Z) (fs fs' : appdata A) :
  _build_year env y (negb (exists_ fs edges_by_o y))
    (negb (exists_ fs edges_by_d y)) (negb (exists_ fs hourly y)) fs = (fs', Ok tt) →
  is_Some (year_csv env !! y) ∧ complete fs' y = true.
Proof.
  intros Hb. destruct (year_csv env !! y) as [src|] eqn:Hsrc;
    [| by rewrite _build_year_no_source in Hb].
  split; [by eexists |].
  pose proof Hb as Hrun. rewrite (_build_year_plan env y src) in Hrun by done.
  apply run_plan_Ok_inv in Hrun.
  destruct (_build_year_ok env y src (negb (exists_ fs edges_by_o y))
              (negb (exists_ fs edges_by_d y)) (negb (exists_ fs hourly y)) fs Hsrc Hrun)
    as (fs1 & Hb1 & Hfiles & Hother).
  rewrite Hb in Hb1. injection Hb1 as <-.
  apply complete_spec.
  assert (∀ k, k ≠ totals → is_Some (fs' !! (k, y))) as Hall; [| by repeat split; apply Hall].
  intros k Hk.
  destruct (exists_ fs k y) eqn:Hex.
  - pose proof (f_equal fst Hb) as Hfst. cbn [fst] in Hfst. rewrite <- Hfst.
    rewrite ensure_step_other; [by apply bool_decide_eq_true in Hex |].
    intros _. split; [done |]. by apply bool_decide_eq_true in Hex.
  - destruct k; [| | | done].
    + rewrite (Hfiles edges_by_o (TEdges (edges_by_o_rows src))); [done |].
      unfold build_plan. rewrite Hex. cbn [negb]. left.
    + rewrite (Hfiles edges_by_d (TEdges (edges_by_d_rows src))); [done |].
      unfold build_plan. rewrite Hex. cbn [negb]. apply elem_of_app. right. left.
    + rewrite (Hfiles hourly (THourly (hourly_rows src))); [done |].
      unfold build_plan. rewrite Hex. cbn [negb].
      apply elem_of_app. right. apply elem_of_app. right. left.
Qed.

(** A successful run leaves complete years complete. *)
Lemma ensure_built_keeps_complete (years : list Z) (fs fs' : appdata A) (y : Z) :
  ensure_built env years fs = (fs', Ok tt) → complete fs y = true → complete fs' y = true.
Proof.
  revert fs. induction years as [|y0 years IH]; intros fs Hb Hc.
  - by injection Hb as <-.
  - rewrite ensure_built_cons in Hb. destruct (complete fs y0); [by apply (IH fs) |].
    destruct (_build_year _ _ _ _ _ _) as [fs1 [[]|e]] eqn:Hb1; [| done].
    apply (IH fs1 Hb). rewrite complete_spec in *. destruct Hc as (Ho & Hd & Hh).
    pose proof (f_equal fst Hb1) as Hfst. cbn [fst] in Hfst. rewrite <- Hfst.
    rewrite !ensure_step_other by done. done.
Qed.

(** Whenever [ensure_built] returns, every requested year has its two edge
    files and its hourly file; a year that lacked one of them had its CSV;
    and a second call changes nothing and returns as well. *)
Theorem ensure_built_completes (years : list Z) (fs fs' : appdata A) :
  ensure_built env years fs = (fs', Ok tt) →
  (∀ y, y ∈ years → complete fs' y = true) ∧
  (∀ y, y ∈ years → complete fs y = true ∨ is_Some (year_csv env !! y)) ∧
  ensure_built env years fs' = (fs', Ok tt).
Proof.
  intros Hb.
  assert ((∀ y, y ∈ years → complete fs' y = true) ∧
          (∀ y, y ∈ years → complete fs y = true ∨ is_Some (year_csv env !! y)))
    as [Hcomplete Hcsv].
  { revert fs Hb. induction years as [|y0 years IH]; intros fs Hb.
    { split; by intros y ?%elem_of_nil. }
    rewrite ensure_built_cons in Hb. destruct (complete fs y0) eqn:Hy0.
    - destruct (IH fs Hb) as [Hall Hcsv]. split.
      + intros y [-> | ?]%elem_of_cons; [| by apply Hall].
        by apply (ensure_built_keeps_complete years fs).
      + intros y [-> | ?]%elem_of_cons; [by left | by apply Hcsv].
    - destruct (_build_year _ _ _ _ _ _) as [fs1 [[]|e]] eqn:Hb1; [| done].
      destruct (ensure_step_ok y0 fs fs1 Hb1) as [Hsrc Hc1].
      destruct (IH fs1 Hb) as [Hall Hcsv]. split.
      + intros y [-> | ?]%elem_of_cons; [| by apply Hall].
        by apply (ensure_built_keeps_complete years fs1).
      + intros y [-> | Hy]%elem_of_cons; [by right |].
        destruct (decide (y = y0)) as [-> | Hne]; [by right |].
        destruct (Hcsv y Hy) as [Hc | ?]; [left | by right].
        rewrite complete_spec in *.
        pose proof (f_equal fst Hb1) as Hfst. cbn [fst] in Hfst. rewrite <- Hfst in Hc.
        by rewrite !_build_year_other in Hc by done. }
  split; [done |]. split; [done |]. by apply ensure_built_complete.
Qed.

End ensure_built_facts.

Lemma ensure_built_keeps_existing_witness :
  (ensure_built (H0 := iso_dates) failing_env [2021] published_2021).1 !! (edges_by_o, 2021)
  = published_2021 !! (edges_by_o, 2021).
Proof.
  assert (H1 : 2021 ∈ [2021] →
               edges_by_o ≠ totals ∧ is_Some (published_2021 !! (edges_by_o, 2021))).
  { intros _. split; [done | by eexists]. }
  exact (ensure_built_keeps_existing (H0 := iso_dates) failing_env [2021] published_2021
           edges_by_o 2021 H1).
Defined.

Lemma ensure_built_completes_witness :
  let fs' := (ensure_built (H0 := iso_dates) csv_2021_env [2021] published_2021).1 in
  (∀ y, y ∈ [2021] → complete fs' y = true) ∧
  (∀ y, y ∈ [2021] →
     complete published_2021 y = true ∨ is_Some (year_csv csv_2021_env !! y)) ∧
  ensure_built (H0 := iso_dates) csv_2021_env [2021] fs' = (fs', Ok tt).
Proof.
  intros fs'.
  assert (H1 : ensure_built (H0 := iso_dates) csv_2021_env [2021] published_2021
               = (fs', Ok tt)) by (by vm_compute).
  exact (ensure_built_completes (H0 := iso_dates) csv_2021_env [2021] published_2021 fs' H1).
Defined.

(** ** [/api/heat]: the answer and the on-demand totals *)

Section heat_answer.
Implicit Types (items : list (Z * Q)) (vs : list Q).

Lemma order_by_asc_StronglySorted vs :
  StronglySorted Qle (order_by_asc id vs).
Proof.
  eapply StronglySorted_weaken;
    [| apply Sorted_StronglySorted; [| apply order_by_asc_sorted]]; cbn beta.
  - intros x y Hxy. by apply bool_decide_eq_true in Hxy.
  - intros x y z Hxy%bool_decide_eq_true Hyz%bool_decide_eq_true.
    apply bool_decide_eq_true. cbn in *. lra.
Qed.

Lemma StronglySorted_le_last vs (i : nat) (x mx : Q) :
  StronglySorted Qle vs → vs !! i = Some x → last vs = Some mx → (x <= mx)%Q.
Proof.
  intros Hs. revert i. induction Hs as [|v vs Hs IH Hall]; intros i Hx Hlast; [done |].
  destruct vs as [|v' vs'].
  - destruct i; [| done]. cbn in *. injection Hx as ->. injection Hlast as ->. lra.
  - change (last (v :: v' :: vs')) with (last (v' :: vs')) in Hlast.
    destruct i as [|i]; [| by eapply IH].
    cbn in Hx. injection Hx as ->.
    rewrite Forall_forall in Hall. apply Hall.
    rewrite last_lookup in Hlast. by eapply list_elem_of_lookup_2.
Qed.

(** The summary never raises; [q95] and every value are at most [max]. *)
Lemma heat_summary_bounds items :
  ∃ q95 mx, heat_summary items = Ok (HeatOk items q95 mx (Z.of_nat (length items))) ∧
            (q95 <= mx)%Q ∧ Forall (λ it, it.2 <= mx)%Q items ∧
            (items ≠ [] → q95 ∈ snd <$> items ∧ mx ∈ snd <$> items).
Proof.
  unfold heat_summary. case_bool_decide as Hitems.
  { subst. exists 0%Q, 0%Q. split; [done |]. split; [lra |]. split; [constructor | done]. }
  set (vs := order_by_asc id (snd <$> items)).
  assert (Hperm : vs ≡ₚ snd <$> items) by apply sort_by_perm.
  assert (Hlen : length vs = length items) by (by rewrite Hperm, length_fmap).
  assert (Hvs : vs ≠ []).
  { intros Hnil. rewrite Hnil in Hlen. by destruct items. }
  pose proof (order_by_asc_StronglySorted (snd <$> items)) as Hs. fold vs in Hs.
  destruct (py_index_last vs Hvs) as (mx & Hmx & Hlast).
  assert (∃ q i, q95_of vs = Ok q ∧ vs !! i = Some q) as (q & i & Hq & Hi).
  { unfold q95_of. case_bool_decide as Hn.
    - destruct (py_index_nonneg vs (q95_index (length vs))) as (q & Hq & Hlook);
        [by apply q95_index_range | eauto].
    - destruct (py_index_nonneg vs 0) as (q & Hq & Hlook); [| eauto].
      destruct vs; [done | cbn; lia]. }
  rewrite Hq. cbn [mbind result_bind]. rewrite Hmx. cbn [mbind result_bind].
  exists q, mx. split; [done |].
  split; [by eapply StronglySorted_le_last |].
  split.
  - apply Forall_forall. intros it Hit.
    assert (it.2 ∈ vs) as [j Hj]%list_elem_of_lookup_1
      by (rewrite Hperm; by apply list_elem_of_fmap_2).
    by eapply StronglySorted_le_last.
  - intros _. rewrite <- Hperm. split; [by eapply list_elem_of_lookup_2 |].
    rewrite last_lookup in Hlast. by eapply list_elem_of_lookup_2.
Qed.

Lemma heat_items_known (eng : Engine) (metric city area : string)
    (rows : list (TotalRow Q)) :
  Forall (λ it, ∃ r m, r ∈ rows ∧ t_grid_id r = it.1 ∧ meta_by_id eng !! it.1 = Some m ∧
                       (city ≠ "" → gc_city_name m = city) ∧
                       (area ≠ "" → gc_area_name m = area))
         (heat_items eng metric city area rows).
Proof.
  apply Forall_forall. intros it [r [Hr Hit]]%list_elem_of_omap.
  destruct (meta_by_id eng !! t_grid_id r) as [m|] eqn:Hm; [| done]. cbn in Hit.
  case_bool_decide as Hcity; [done |]. case_bool_decide as Harea; [done |].
  injection Hit as <-. cbn [fst].
  exists r, m. split; [done |]. split; [done |]. split; [done |].
  split; intros ?; destruct (decide (gc_city_name m = city)),
    (decide (gc_area_name m = area)); tauto.
Qed.

End heat_answer.

(** The answer of [/api/heat].  An exception leaves the handler only for a
    year parameter that is no integer ([ValueError], nothing is written),
    provided the totals file of the year, if there is one, holds a totals
    table; an answer with values holds as [n] their number, [q95 <= max],
    no value above [max], and only grids that are in the metadata and pass
    the name filters. *)
Theorem api_heat_answer `{DateEngine} (env : BuildEnv Q) (eng : Engine)
    (year : int_param) (metric city area : string) (fs : appdata Q) :
  (∀ y t, year = IntParam y → fs !! (totals, y) = Some t → ∃ rows, t = TTotals rows) →
  match (api_heat_request env eng year metric city area fs).2 with
  | HeatUnhandled e =>
      year = NotInt ∧ e = ValueError ∧
      (api_heat_request env eng year metric city area fs).1 = fs
  | HeatBadMetric => metric ∉ ["total"; "in"; "out"]
  | HeatCannotBuild =>
      metric ∈ ["total"; "in"; "out"] ∧
      ∃ y, year = IntParam y ∧ fs !! (totals, y) = None
  | HeatOk values q95 mx n =>
      metric ∈ ["total"; "in"; "out"] ∧
      n = Z.of_nat (length values) ∧ (q95 <= mx)%Q ∧
      Forall (λ it, (it.2 <= mx)%Q ∧
                    ∃ m, meta_by_id eng !! it.1 = Some m ∧
                         (city ≠ "" → gc_city_name m = city) ∧
                         (area ≠ "" → gc_area_name m = area)) values
  end.
Proof.
  intros Hfile. destruct year as [year|]; [| done]. cbn [api_heat_request].
  specialize (Hfile year). unfold api_heat. case_bool_decide as Hm; [done |].
  assert (metric ∈ ["total"; "in"; "out"]) as Hmetric
    by (destruct (decide (metric ∈ ["total"; "in"; "out"])); tauto).
  assert (Hsum : ∀ fs' rows, read_totals fs' year = Ok rows →
            match (match rows ← read_totals fs' year;
                         heat_summary (heat_items eng metric city area rows) with
                   | Ok resp => resp | Err e => HeatUnhandled e end) with
            | HeatOk values q95 mx n =>
                n = Z.of_nat (length values) ∧ (q95 <= mx)%Q ∧
                Forall (λ it, (it.2 <= mx)%Q ∧
                    ∃ m, meta_by_id eng !! it.1 = Some m ∧
                         (city ≠ "" → gc_city_name m = city) ∧
                         (area ≠ "" → gc_area_name m = area)) values
            | _ => False
            end).
  { intros fs' rows ->. cbn [mbind result_bind].
    destruct (heat_summary_bounds (heat_items eng metric city area rows))
      as (q95 & mx & -> & Hle & Hall & _).
    split; [done |]. split; [done |].
    pose proof (heat_items_known eng metric city area rows) as Hknown.
    rewrite Forall_forall in Hall, Hknown. apply Forall_forall. intros it Hit.
    split; [by apply Hall |].
    destruct (Hknown it Hit) as (r & m & _ & _ & ? & ? & ?). eauto. }
  destruct (exists_ fs totals year) eqn:Hex.
  - apply bool_decide_eq_true in Hex as [t Ht]. destruct (Hfile t eq_refl Ht) as [rows ->].
    cbn [snd]. specialize (Hsum fs rows). unfold read_totals in Hsum at 1.
    rewrite Ht in Hsum. specialize (Hsum eq_refl).
    destruct (match _ with Ok resp => resp | Err e => _ end); tauto.
  - apply bool_decide_eq_false in Hex.
    assert (fs !! (totals, year) = None) as Hnone.
    { destruct (fs !! (totals, year)) eqn:Ht; [| done]. destruct Hex. by eexists. }
    destruct (build_totals_for_year env year fs) as [fs' [[]|e]] eqn:Hb; cbn [snd];
      [| by eauto].
    assert (∃ rows, read_totals fs' year = Ok rows) as [rows Hrows].
    { revert Hb. unfold build_totals_for_year, mbind, build_bind, bget, blift, bwhen.
      destruct (_ || _).
      - destruct (_build_year _ _ _ _ _ _) as [fs1 [[]|e]]; [| done].
        destruct (read_edges fs1 edges_by_o year) as [e_out|]; [| done].
        destruct (read_edges fs1 edges_by_d year) as [e_in|]; [| done].
        unfold unlink, copy_to. destruct (copy_raises env totals year); [done |].
        intros [= <-]. eexists. unfold read_totals. by rewrite lookup_insert_eq.
      - cbn. destruct (read_edges fs edges_by_o year) as [e_out|]; [| done].
        destruct (read_edges fs edges_by_d year) as [e_in|]; [| done].
        unfold unlink, copy_to. destruct (copy_raises env totals year); [done |].
        intros [= <-]. eexists. unfold read_totals. by rewrite lookup_insert_eq. }
    specialize (Hsum fs' rows Hrows).
    destruct (match _ with Ok resp => resp | Err e => _ end); tauto.
Qed.

Lemma api_heat_answer_witness :
  let env : BuildEnv Q := {| year_csv := ∅; copy_raises := λ _ _, false |} in
  match (api_heat_request (H := iso_dates) env flows_meta (IntParam 2021)
           "total" "" "" flows_fs).2 with
  | HeatUnhandled e =>
      IntParam 2021 = NotInt ∧ e = ValueError ∧
      (api_heat_request (H := iso_dates) env flows_meta (IntParam 2021)
         "total" "" "" flows_fs).1 = flows_fs
  | HeatBadMetric => "total" ∉ ["total"; "in"; "out"]
  | HeatCannotBuild =>
      "total" ∈ ["total"; "in"; "out"] ∧
      ∃ y, IntParam 2021 = IntParam y ∧ flows_fs !! (totals, y) = None
  | HeatOk values q95 mx n =>
      "total" ∈ ["total"; "in"; "out"] ∧
      n = Z.of_nat (length values) ∧ (q95 <= mx)%Q ∧
      Forall (λ it, (it.2 <= mx)%Q ∧
                    ∃ m, meta_by_id flows_meta !! it.1 = Some m ∧
                         ("" ≠ "" → gc_city_name m = "") ∧
                         ("" ≠ "" → gc_area_name m = "")) values
  end.
Proof.
  intros env.
  assert (H1 : ∀ y t, IntParam 2021 = IntParam y → flows_fs !! (totals, y) = Some t →
                 ∃ rows, t = TTotals rows)
    by (intros y t [= <-] Ht; vm_compute in Ht; discriminate).
  exact (api_heat_answer (H := iso_dates) env flows_meta (IntParam 2021)
           "total" "" "" flows_fs H1).
Defined.

(** [/api/heat] for a year without totals file whose two edge files exist:
    the handler writes the totals derived from the edge files and nothing
    else, and answers with their summary; the same request again is
    answered from that file, with the same answer and no further write. *)
Theorem api_heat_on_demand_totals `{DateEngine} (env : BuildEnv Q) (eng : Engine)
    (year : Z) (metric city area : string) (fs : appdata Q)
    (e_out e_in : list (Edge Q)) :
  metric ∈ ["total"; "in"; "out"] →
  fs !! (totals, year) = None →
  fs !! (edges_by_o, year) = Some (TEdges e_out) →
  fs !! (edges_by_d, year) = Some (TEdges e_in) →
  copy_raises env totals year = false →
  ∃ resp,
    heat_summary (heat_items eng metric city area (totals_rows e_out e_in)) = Ok resp ∧
    let fs' := <[(totals, year) := TTotals (totals_rows e_out e_in)]> fs in
    api_heat env eng year metric city area fs = (fs', resp) ∧
    api_heat env eng year metric city area fs' = (fs', resp).
Proof.
  intros Hm Hnone Ho Hd Hc.
  destruct (heat_summary_bounds (heat_items eng metric city area (totals_rows e_out e_in)))
    as (q95 & mx & Hsum & _).
  eexists. split; [exact Hsum |]. cbv zeta. split.
  - unfold api_heat. rewrite bool_decide_eq_false_2 by (by intros ?).
    unfold exists_. rewrite bool_decide_eq_false_2 by (rewrite Hnone; by intros []).
    rewrite (build_totals_for_year_step env year fs e_out e_in Ho Hd).
    rewrite build_step_ok by done. cbn [fst snd].
    unfold read_totals. rewrite lookup_insert_eq. cbn [mbind result_bind]. by rewrite Hsum.
  - apply api_heat_summary with (rows := totals_rows e_out e_in); [done | | done].
    unfold read_totals. by rewrite lookup_insert_eq.
Qed.

Lemma api_heat_on_demand_totals_witness :
  let env : BuildEnv Q := {| year_csv := ∅; copy_raises := λ _ _, false |} in
  let e_out := order_by_keys (λ e, [o_grid e]) flows_edges in
  let e_in := order_by_keys (λ e, [d_grid e]) flows_edges in
  ∃ resp,
    heat_summary (heat_items flows_meta "out" "" "" (totals_rows e_out e_in)) = Ok resp ∧
    let fs' := <[(totals, 2021) := TTotals (totals_rows e_out e_in)]> flows_fs in
    api_heat (H := iso_dates) env flows_meta 2021 "out" "" "" flows_fs = (fs', resp) ∧
    api_heat (H := iso_dates) env flows_meta 2021 "out" "" "" fs' = (fs', resp).
Proof.
  intros env e_out e_in.
  assert (H1 : "out" ∈ ["total"; "in"; "out"]) by (by apply (bool_decide_unpack _)).
  assert (H2 : flows_fs !! (totals, 2021) = None) by reflexivity.
  assert (H3 : flows_fs !! (edges_by_o, 2021) = Some (TEdges e_out)) by reflexivity.
  assert (H4 : flows_fs !! (edges_by_d, 2021) = Some (TEdges e_in)) by reflexivity.
  exact (api_heat_on_demand_totals (H := iso_dates) env flows_meta 2021 "out" "" "" flows_fs
           e_out e_in H1 H2 H3 H4 eq_refl).
Defined.

(** ** Flow queries: ranking, coverage and directions *)

Section ranking.
Implicit Types (l e : list (Z * Q)) (acc b : Q).

Lemma coverage_prefix_prefix b acc l : coverage_prefix b acc l `prefix_of` l.
Proof. apply coverage_prefix_prefix_num. Qed.

Lemma coverage_prefix_mono b b' acc l :
  (b <= b')%Q → coverage_prefix b acc l `prefix_of` coverage_prefix b' acc l.
Proof.
  intros Hb. revert acc. induction l as [|x l IH]; intros acc; cbn [coverage_prefix]; [done |].
  cbn [leb add Q_num Q_arith].
  case_bool_decide as H1; [| apply prefix_nil].
  rewrite bool_decide_eq_true_2 by lra. by apply prefix_cons.
Qed.

Lemma take_prefix_mono {A} (n m : nat) (l l' : list A) :
  (n ≤ m)%nat → l `prefix_of` l' → take n l `prefix_of` take m l'.
Proof.
  intros Hnm [k ->]. revert n m Hnm. induction l as [|x l IH]; intros n m Hnm.
  - rewrite take_nil. apply prefix_nil.
  - destruct n as [|n]; [apply prefix_nil |]. destruct m as [|m]; [lia |].
    cbn. apply prefix_cons, IH. lia.
Qed.

Lemma order_by_desc_StronglySorted l :
  StronglySorted (λ x y : Z * Q, y.2 <= x.2)%Q (order_by_desc snd l).
Proof.
  eapply StronglySorted_weaken;
    [| apply Sorted_StronglySorted;
       [| apply (sort_by_is_sorted (λ x y : Z * Q, bool_decide (y.2 <= x.2)%Q))]]; cbn beta.
  - intros x y Hxy. by apply bool_decide_eq_true in Hxy.
  - intros x y z Hxy%bool_decide_eq_true Hyz%bool_decide_eq_true.
    apply bool_decide_eq_true. lra.
  - intros a a'. apply (order_by_desc_total snd).
Qed.

Lemma nonneg_Q l : Forall (λ p : Z * Q, 0 <= p.2)%Q l → Forall (λ p : Z * Q, leb zero p.2 = true) l.
Proof.
  intros Hl. eapply Forall_impl; [exact Hl |]. intros p Hp. by apply bool_decide_eq_true.
Qed.

Lemma sum_over_nonneg_Q l : Forall (λ p : Z * Q, 0 <= p.2)%Q l → (0 <= sum_over l.*2)%Q.
Proof.
  intros Hl. pose proof (sum_over_nonneg l.*2 (nonneg_snd l (nonneg_Q l Hl))) as Hs.
  by apply bool_decide_eq_true in Hs.
Qed.

End ranking.

Section flows_ranking.
Context (fs : appdata Q) (k : kind) (key other : Edge Q → Z) (year grid_id : Z)
  (rows : list (Edge Q)).
Hypothesis Hread : read_edges fs k year = Ok rows.
Hypothesis Hnonneg : Forall (λ r, 0 <= num_total r)%Q rows.

Lemma incident_nonneg : Forall (λ p : Z * Q, 0 <= p.2)%Q (incident key other grid_id rows).
Proof.
  unfold incident. apply Forall_fmap, Forall_forall. intros r Hr. simpl.
  rewrite Forall_forall in Hnonneg. apply Hnonneg.
  by apply list_elem_of_filter in Hr as [_ ?].
Qed.

Lemma select_edges_eq (topk : Z) (cov : Q) :
  0 ≤ topk →
  select_edges fs k key other year grid_id topk cov =
  Ok (take (Z.to_nat topk)
        (if bool_decide (0 < clamp_cov cov)%Q
         then coverage_prefix (clamp_cov cov * sum_over (incident key other grid_id rows).*2)%Q
                0%Q (order_by_desc snd (incident key other grid_id rows))
         else order_by_desc snd (incident key other grid_id rows))).
Proof.
  intros Hk. unfold select_edges. rewrite Hread. cbn [mbind result_bind].
  fold (incident key other grid_id rows).
  change (ltb zero (clamp_cov cov)) with (bool_decide (0 < clamp_cov cov)%Q).
  case_bool_decide.
  - apply (coverage_query_prefix_num (H1 := Q_num_laws));
      [apply nonneg_Q, incident_nonneg | done].
  - unfold topk_query, limit. by rewrite bool_decide_eq_false_2 by lia.
Qed.

Lemma clamp_cov_range (cov : Q) : (0 <= clamp_cov cov <= 1)%Q.
Proof.
  unfold clamp_cov. cbn [ltb zero one Q_num Q_arith]. repeat case_bool_decide; lra.
Qed.

Lemma clamp_cov_mono (c c' : Q) : (c <= c')%Q → (clamp_cov c <= clamp_cov c')%Q.
Proof.
  unfold clamp_cov. cbn [ltb zero one Q_num Q_arith]. repeat case_bool_decide; lra.
Qed.

(** What a direction returns is always the front of the ranking of the
    grid's edges by descending flow: no edge that is left out carries more
    flow than an edge that is returned. *)
Theorem select_edges_ranked (topk : Z) (cov : Q) :
  0 ≤ topk →
  ∃ l rest,
    select_edges fs k key other year grid_id topk cov = Ok l ∧
    order_by_desc snd (incident key other grid_id rows) = l ++ rest ∧
    StronglySorted (λ x y : Z * Q, y.2 <= x.2)%Q l ∧
    Forall (λ x, Forall (λ y : Z * Q, y.2 <= x.2)%Q rest) l.
Proof.
  intros Hk. rewrite select_edges_eq by done.
  set (ranked := order_by_desc snd (incident key other grid_id rows)).
  set (l := take _ _).
  assert (l `prefix_of` ranked) as [rest Hrest].
  { unfold l. etrans; [apply prefix_take |].
    case_bool_decide; [apply coverage_prefix_prefix | done]. }
  exists l, rest. split; [done |]. split; [done |].
  pose proof (order_by_desc_StronglySorted (incident key other grid_id rows)) as Hs.
  fold ranked in Hs. rewrite Hrest in Hs. clear Hrest.
  induction l as [|x l IH]; [by repeat constructor |].
  rewrite <- app_comm_cons in Hs. apply StronglySorted_inv in Hs as [Hs Hx].
  apply Forall_app in Hx as [Hxl Hxr]. destruct (IH Hs) as [IH1 IH2].
  split; by constructor.
Qed.

(** A larger [topk] and a larger coverage extend the answer: the edges
    returned before are the front of the edges returned after. *)
Theorem select_edges_monotone (topk topk' : Z) (cov cov' : Q) :
  0 ≤ topk ≤ topk' → (0 < cov)%Q → (cov <= cov')%Q →
  ∃ l l',
    select_edges fs k key other year grid_id topk cov = Ok l ∧
    select_edges fs k key other year grid_id topk' cov' = Ok l' ∧
    l `prefix_of` l'.
Proof.
  intros Hk Hc Hcc. rewrite !select_edges_eq by lia.
  eexists _, _. split; [done |]. split; [done |].
  apply take_prefix_mono; [lia |].
  pose proof (clamp_cov_mono cov cov' Hcc) as Hm.
  assert (0 < clamp_cov cov)%Q
    by (unfold clamp_cov; cbn [ltb zero one Q_num Q_arith]; repeat case_bool_decide; lra).
  rewrite !bool_decide_eq_true_2 by lra.
  apply coverage_prefix_mono.
  pose proof (sum_over_nonneg_Q _ incident_nonneg) as Htot.
  apply Qmult_le_compat_r; done.
Qed.

End flows_ranking.

Lemma select_edges_ranked_witness :
  let rows := order_by_keys (λ e, [o_grid e]) flows_edges in
  ∃ l rest,
    select_edges flows_fs edges_by_o o_grid d_grid 2021 100 2 (9 # 10) = Ok l ∧
    order_by_desc snd (incident o_grid d_grid 100 rows) = l ++ rest ∧
    StronglySorted (λ x y : Z * Q, y.2 <= x.2)%Q l ∧
    Forall (λ x, Forall (λ y : Z * Q, y.2 <= x.2)%Q rest) l.
Proof.
  intros rows.
  assert (H1 : read_edges flows_fs edges_by_o 2021 = Ok rows) by reflexivity.
  assert (H2 : Forall (λ r, 0 <= num_total r)%Q rows)
    by (vm_compute; repeat constructor; discriminate).
  assert (H3 : 0 ≤ 2) by lia.
  exact (select_edges_ranked flows_fs edges_by_o o_grid d_grid 2021 100 rows H1 H2
           2 (9 # 10) H3).
Defined.

Lemma select_edges_monotone_witness :
  ∃ l l',
    select_edges flows_fs edges_by_o o_grid d_grid 2021 100 1 (1 # 2) = Ok l ∧
    select_edges flows_fs edges_by_o o_grid d_grid 2021 100 5 (9 # 10) = Ok l' ∧
    l `prefix_of` l'.
Proof.
  assert (H1 : read_edges flows_fs edges_by_o 2021
               = Ok (order_by_keys (λ e, [o_grid e]) flows_edges)) by reflexivity.
  assert (H2 : Forall (λ r, 0 <= num_total r)%Q (order_by_keys (λ e, [o_grid e]) flows_edges))
    by (vm_compute; repeat constructor; discriminate).
  assert (H3 : 0 ≤ 1 ≤ 5) by lia.
  assert (H4 : (0 < 1 # 2)%Q) by reflexivity.
  assert (H5 : (1 # 2 <= 9 # 10)%Q) by (by vm_compute).
  exact (select_edges_monotone flows_fs edges_by_o o_grid d_grid 2021 100 _ H1 H2
           1 5 (1 # 2) (9 # 10) H3 H4 H5).
Defined.

(** *** Directions *)

Section directions.
Context {A : Type} `{Num A} (eng : Engine) (fs : appdata A).

(** The two directions are independent.  A query for both directions
    returns the [out_edges] of the outbound query and the [in_edges] of the
    inbound query; a one-direction query leaves the other list empty; every
    returned edge has the queried grid at its own end, with the centre as
    its coordinates, and the metadata of the counterpart at the other end.
    Any other direction fails the assertion, whatever the files hold. *)
Theorem flows_for_grid_directions (year grid_id topk : Z) (cov : A) (direction : string) :
  (direction ∉ ["out"; "in"; "both"] →
   flows_for_grid eng fs year grid_id direction topk cov = Err AssertionError) ∧
  (∀ r, flows_for_grid eng fs year grid_id "both" topk cov = Ok r →
     ∃ ro ri,
       flows_for_grid eng fs year grid_id "out" topk cov = Ok ro ∧
       flows_for_grid eng fs year grid_id "in" topk cov = Ok ri ∧
       out_edges r = out_edges ro ∧ in_edges ro = [] ∧
       in_edges r = in_edges ri ∧ out_edges ri = []) ∧
  (∀ r, flows_for_grid eng fs year grid_id direction topk cov = Ok r →
     center r = meta_by_id eng !! grid_id ∧
     Forall (λ e, fe_o_grid e = grid_id ∧ fe_o e = center r ∧
                  is_Some (fe_d e) ∧ fe_d e = coord eng (fe_d_grid e)) (out_edges r) ∧
     Forall (λ e, fe_d_grid e = grid_id ∧ fe_d e = center r ∧
                  is_Some (fe_o e) ∧ fe_o e = coord eng (fe_o_grid e)) (in_edges r)).
Proof.
  split; [| split].
  - intros Hd. unfold flows_for_grid. by rewrite bool_decide_eq_true_2.
  - intros r. unfold flows_for_grid.
    rewrite !(bool_decide_eq_false_2 (_ ∉ _)) by (intros Hn; apply Hn; set_solver).
    rewrite !(bool_decide_eq_true_2 ("both" ∈ _)) by set_solver.
    rewrite (bool_decide_eq_true_2 ("out" ∈ ["out"; "both"])) by set_solver.
    rewrite (bool_decide_eq_false_2 ("out" ∈ ["in"; "both"])) by set_solver.
    rewrite (bool_decide_eq_false_2 ("in" ∈ ["out"; "both"])) by set_solver.
    rewrite (bool_decide_eq_true_2 ("in" ∈ ["in"; "both"])) by set_solver.
    destruct (select_edges fs edges_by_o _ _ _ _ _ _) as [out|]; [| done].
    cbn [mbind result_bind].
    destruct (select_edges fs edges_by_d _ _ _ _ _ _) as [inn|]; [| done].
    cbn [mbind result_bind]. intros [= <-]. by eexists _, _.
  - intros r. unfold flows_for_grid. case_bool_decide; [done |].
    destruct (if bool_decide (direction ∈ ["out"; "both"]) then _ else _) as [out|];
      [cbn [mbind result_bind] | done].
    destruct (if bool_decide (direction ∈ ["in"; "both"]) then _ else _) as [inn|];
      [cbn [mbind result_bind] | done].
    intros [= <-]. cbn [center out_edges in_edges]. split; [done |].
    split; apply Forall_forall; intros e [p [_ Hp]]%list_elem_of_omap;
      destruct (coord eng p.1) as [c|] eqn:Hc; cbn in Hp; try done;
      injection Hp as <-; cbn; rewrite Hc; eauto.
Qed.

End directions.

(** ** Grid metadata *)

Lemma load_metadata_fold (rows : list GridCell) (by_id : gmap Z GridCell) (g : Z) :
  foldl (λ by_id item, <[gc_grid_id item := item]> by_id) by_id rows !! g =
  match last (filter (λ m, gc_grid_id m = g) rows) with
  | Some m => Some m
  | None => by_id !! g
  end.
Proof.
  revert by_id. induction rows as [|m rows IH]; intros by_id; [done |].
  cbn [foldl]. rewrite IH, filter_cons.
  destruct (decide (gc_grid_id m = g)) as [Hg | Hg].
  - rewrite last_cons. destruct (last (filter _ rows)); [done |].
    by rewrite Hg, lookup_insert_eq.
  - destruct (last (filter _ rows)); [done |]. by rewrite lookup_insert_ne.
Qed.

(** Looking a grid up in the loaded metadata gives the last row of the
    file with that [grid_id]: a later duplicate replaces an earlier one,
    and an id without row is absent.  [coord], the lookup of the flows
    query, and [/api/meta/one] return that row. *)
Theorem load_metadata_lookup (rows : list GridCell) (g : Z) :
  let eng := load_metadata rows in
  meta_items eng = rows ∧
  meta_by_id eng !! g = last (filter (λ m, gc_grid_id m = g) rows) ∧
  (∀ m, meta_by_id eng !! g = Some m → gc_grid_id m = g ∧ m ∈ rows) ∧
  (is_Some (meta_by_id eng !! g) ↔ g ∈ gc_grid_id <$> rows) ∧
  coord eng g = meta_by_id eng !! g ∧
  api_meta_one eng g =
    (if bool_decide (g = 0) then MetaGridRequired
     else from_option MetaOne MetaNotFound (last (filter (λ m, gc_grid_id m = g) rows))).
Proof.
  intros eng.
  assert (Hlook : meta_by_id eng !! g = last (filter (λ m, gc_grid_id m = g) rows)).
  { unfold eng, load_metadata. cbn [meta_by_id]. rewrite load_metadata_fold.
    by destruct (last _). }
  assert (Hin : ∀ m, meta_by_id eng !! g = Some m → gc_grid_id m = g ∧ m ∈ rows).
  { intros m. rewrite Hlook, last_lookup. intros Hm%list_elem_of_lookup_2.
    by apply list_elem_of_filter in Hm. }
  split; [done |]. split; [done |]. split; [done |]. split; [| split].
  - split.
    + intros [m Hm]. destruct (Hin m Hm) as [<- ?]. by apply list_elem_of_fmap_2.
    + intros (m & -> & Hm)%list_elem_of_fmap. rewrite Hlook.
      destruct (filter (λ m', gc_grid_id m' = gc_grid_id m) rows) as [|x l] eqn:Hf.
      * assert (m ∈ filter (λ m', gc_grid_id m' = gc_grid_id m) rows) as Hmf
          by (by apply list_elem_of_filter).
        rewrite Hf in Hmf. by apply elem_of_nil in Hmf.
      * rewrite last_lookup. apply lookup_lt_is_Some. cbn. lia.
  - unfold coord. destruct (meta_by_id eng !! g) as [m|]; [| done].
    cbn. destruct (Hin m eq_refl) as [<- _]. by destruct m.
  - unfold api_meta_one. case_bool_decide; [done |]. rewrite Hlook.
    by destruct (last _).
Qed.

(** ** The label queue: answers and sequences of requests *)

Section queue_answers.
Implicit Types (f : option QueueState) (q : QueueState).

Lemma py_index_in_range (l : list Z) (i : Z) :
  0 ≤ i < Z.of_nat (length l) → Some <$> py_index l i = Ok (l !! Z.to_nat i).
Proof.
  intros Hi. destruct (py_index_nonneg l i Hi) as (x & -> & ->). done.
Qed.

(** One request on a file whose pointer is in range: the handler does not
    raise, it stores the index it answers, and [current] is the queue
    element at that index, absent exactly at the end of the queue. *)
Lemma run_op_ok f (op : queue_op) :
  queue_inv (_read_queue f) → op ≠ OpSet BodyNotObject →
  ∃ resp, (run_op f op).2 = Ok resp ∧
    (run_op f op).1 = Some {| queue := queue (_read_queue f); index := resp_index resp |} ∧
    0 ≤ resp_index resp ≤ Z.of_nat (length (queue (_read_queue f))) ∧
    resp_total resp = Z.of_nat (length (queue (_read_queue f))) ∧
    resp_current resp = queue (_read_queue f) !! Z.to_nat (resp_index resp) ∧
    (is_Some (resp_current resp) ↔
     resp_index resp < Z.of_nat (length (queue (_read_queue f)))) ∧
    (∀ b, resp_has_more resp = Some b → (b = true ↔ is_Some (resp_current resp))).
Proof.
  intros [Hlo Hhi] Hop. set (q := _read_queue f) in *.
  assert (Hcur : ∀ idx, 0 ≤ idx ≤ Z.of_nat (length (queue q)) →
            (if bool_decide (idx < Z.of_nat (length (queue q)))
             then Some <$> py_index (queue q) idx else Ok None)
            = Ok (queue q !! Z.to_nat idx)).
  { intros idx Hidx. case_bool_decide; [by apply py_index_in_range; lia |].
    f_equal. symmetry. apply lookup_ge_None. lia. }
  assert (Hsome : ∀ idx, 0 ≤ idx →
            is_Some (queue q !! Z.to_nat idx) ↔ idx < Z.of_nat (length (queue q))).
  { intros idx Hidx. rewrite lookup_lt_is_Some. lia. }
  destruct op as [| |[ri rg|]]; cbn [run_op]; [| | | done].
  - unfold api_label_queue_advance. fold q. cbv zeta. cbn [fst snd].
    set (idx := if bool_decide (index q < _) then index q + 1 else index q).
    assert (0 ≤ idx ≤ Z.of_nat (length (queue q))) as Hidx
      by (unfold idx; case_bool_decide; lia).
    rewrite (Hcur idx Hidx). cbn [mbind result_bind].
    eexists. split; [done |]. cbn. split; [done |]. split; [done |]. split; [done |].
    split; [done |]. split; [apply Hsome; lia |].
    intros b [= <-]. rewrite bool_decide_eq_true. symmetry. apply Hsome. lia.
  - unfold api_label_queue_back. fold q. cbv zeta. cbn [fst snd].
    set (idx := if bool_decide (index q > 0) then index q - 1 else index q).
    assert (0 ≤ idx ≤ Z.of_nat (length (queue q))) as Hidx
      by (unfold idx; case_bool_decide; lia).
    rewrite (Hcur idx Hidx). cbn [mbind result_bind].
    eexists. split; [done |]. cbn. split; [done |]. split; [done |]. split; [done |].
    split; [done |]. split; [apply Hsome; lia |].
    intros b [= <-]. rewrite bool_decide_eq_true. symmetry. apply Hsome. lia.
  - unfold api_label_queue_set. fold q. cbv zeta. cbn [fst snd].
    set (idx0 := default (index q) _).
    set (idx1 := if bool_decide (idx0 < 0) then 0 else idx0).
    set (idx := if bool_decide (idx1 > _) then _ else idx1).
    assert (0 ≤ idx ≤ Z.of_nat (length (queue q))) as Hidx
      by (unfold idx, idx1; repeat case_bool_decide; lia).
    rewrite (Hcur idx Hidx). cbn [mbind result_bind].
    eexists. split; [done |]. cbn. split; [done |]. split; [done |]. split; [done |].
    split; [done |]. split; [apply Hsome; lia |]. done.
Qed.

End queue_answers.

(** One request keeps the queue and a pointer in range. *)
Lemma run_op_inv (f : option QueueState) (op : queue_op) :
  queue_inv (_read_queue f) →
  answered (queue (_read_queue f)) op (run_op f op).2 ∧
  queue (_read_queue (run_op f op).1) = queue (_read_queue f) ∧
  queue_inv (_read_queue (run_op f op).1).
Proof.
  intros Hinv.
  assert (op = OpSet BodyNotObject ∨ op ≠ OpSet BodyNotObject) as [-> | Hop]
    by (destruct op as [| |[ri rg|]]; auto).
  { done. }
  destruct (run_op_ok f op Hinv Hop) as (resp & Hr & Hf & Hidx & Htot & Hcur & _).
  rewrite Hf. split; [| split; [done | unfold queue_inv; cbn; lia]].
  destruct op as [| |[ri rg|]]; [| | | done]; by exists resp.
Qed.

(** A sequence of pointer requests on a queue file whose pointer is in
    range raises only at a [set] request whose body is no JSON object
    ([AttributeError], with the file as it was); every other request is
    answered, with an index between [0] and the queue length and, as
    [current], the queue element at that index (none at the end of the
    queue); the queue itself is never changed and the pointer of the file
    stays in range. *)
Theorem queue_ops_answers (f : option QueueState) (ops : list queue_op) :
  queue_inv (_read_queue f) →
  Forall2 (answered (queue (_read_queue f))) ops (run_ops f ops).2 ∧
  queue (_read_queue (run_ops f ops).1) = queue (_read_queue f) ∧
  queue_inv (_read_queue (run_ops f ops).1) ∧
  ∀ f', (run_op f' (OpSet BodyNotObject)).1 = f'.
Proof.
  intros Hinv.
  assert (Forall2 (answered (queue (_read_queue f))) ops (run_ops f ops).2 ∧
          queue (_read_queue (run_ops f ops).1) = queue (_read_queue f) ∧
          queue_inv (_read_queue (run_ops f ops).1)) as (Hall & Hqueue & Hfinal).
  { revert f Hinv. induction ops as [|op ops IH]; intros f Hinv.
    { split; [constructor | split; [done | exact Hinv]]. }
    cbn [run_ops]. cbv zeta. cbn [fst snd].
    destruct (run_op_inv f op Hinv) as (Hans & Hq & Hinv').
    destruct (IH _ Hinv') as (Hall & Hqueue & Hfinal). rewrite Hq in Hall, Hqueue.
    split; [by constructor | done]. }
  done.
Qed.

Lemma queue_ops_answers_witness :
  let f := Some {| queue := [7; 8; 9]; index := 3 |} in
  let ops := [OpAdvance; OpBack; OpSet BodyNotObject; OpBack;
              OpSet (BodyObject None (Some (Some 9))); OpAdvance] in
  Forall2 (answered (queue (_read_queue f))) ops (run_ops f ops).2 ∧
  queue (_read_queue (run_ops f ops).1) = queue (_read_queue f) ∧
  queue_inv (_read_queue (run_ops f ops).1) ∧
  ∀ f', (run_op f' (OpSet BodyNotObject)).1 = f'.
Proof.
  intros f ops.
  assert (H1 : queue_inv (_read_queue f)) by (unfold queue_inv; cbn; lia).
  exact (queue_ops_answers f ops H1).
Defined.

(** [back] undoes [advance] and [advance] undoes [back], except at the
    ends of the queue, where [advance] (at the end) and [back] (at the
    start) change nothing. *)
Theorem advance_back_round_trip (q : QueueState) :
  queue_inv q →
  (index q < Z.of_nat (length (queue q)) →
   (api_label_queue_back (api_label_queue_advance (Some q)).1).1 = Some q) ∧
  (0 < index q →
   (api_label_queue_advance (api_label_queue_back (Some q)).1).1 = Some q) ∧
  (index q = Z.of_nat (length (queue q)) → (api_label_queue_advance (Some q)).1 = Some q) ∧
  (index q = 0 → (api_label_queue_back (Some q)).1 = Some q).
Proof.
  intros [Hlo Hhi]. destruct q as [l i]. cbn [queue index] in *.
  unfold api_label_queue_advance, api_label_queue_back. cbn.
  repeat split; intros Hi; f_equal; f_equal; repeat case_bool_decide; lia.
Qed.

Lemma advance_back_round_trip_witness :
  let q := {| queue := [7; 8; 9]; index := 1 |} in
  (index q < Z.of_nat (length (queue q)) →
   (api_label_queue_back (api_label_queue_advance (Some q)).1).1 = Some q) ∧
  (0 < index q →
   (api_label_queue_advance (api_label_queue_back (Some q)).1).1 = Some q) ∧
  (index q = Z.of_nat (length (queue q)) → (api_label_queue_advance (Some q)).1 = Some q) ∧
  (index q = 0 → (api_label_queue_back (Some q)).1 = Some q).
Proof.
  intros q.
  assert (H1 : queue_inv q) by (unfold queue_inv; cbn; lia).
  exact (advance_back_round_trip q H1).
Defined.

Lemma list_index_Some (gid : Z) (l : list Z) :
  gid ∈ l →
  ∃ i : nat, list_index gid l = Some (Z.of_nat i) ∧ l !! i = Some gid ∧
             ∀ j : nat, (j < i)%nat → l !! j ≠ Some gid.
Proof.
  intros Hin. unfold list_index.
  destruct (list_find (λ x, x = gid) l) as [[i x]|] eqn:Hf.
  - apply list_find_Some in Hf as (Hi & -> & Hbefore). exists i.
    split; [done |]. split; [done |]. intros j Hj Hjl. by eapply Hbefore.
  - apply list_find_None in Hf. rewrite Forall_forall in Hf. by destruct (Hf gid).
Qed.

Lemma list_index_None (gid : Z) (l : list Z) : gid ∉ l → list_index gid l = None.
Proof.
  intros Hnin. unfold list_index.
  destruct (list_find (λ x, x = gid) l) as [[i x]|] eqn:Hf; [| done].
  apply list_find_Some in Hf as (Hi & -> & _). destruct Hnin.
  by eapply list_elem_of_lookup_2.
Qed.

(** [set] with a [grid_id].  When the grid is in the queue the pointer
    moves to its first position and [current] is that grid, whatever index
    the request carries and whatever the file held.  When it is not in the
    (non-empty) queue, the index of the request is ignored and the stored
    pointer is kept, clamped to the queue. *)
Theorem set_by_grid_id (f : option QueueState) (req_index : option Z) (gid : Z) :
  let q := _read_queue f in
  (gid ∈ queue q →
   ∃ (i : nat) resp,
     api_label_queue_set f req_index (Some (Some gid)) =
       (Some {| queue := queue q; index := Z.of_nat i |}, Ok resp) ∧
     resp_index resp = Z.of_nat i ∧ resp_current resp = Some gid ∧
     queue q !! i = Some gid ∧ ∀ j : nat, (j < i)%nat → queue q !! j ≠ Some gid) ∧
  (gid ∉ queue q → queue q ≠ [] →
   (api_label_queue_set f req_index (Some (Some gid))).1 =
     Some {| queue := queue q;
             index := Z.min (Z.max 0 (index q)) (Z.of_nat (length (queue q))) |}).
Proof.
  intros q. split.
  - intros Hin. destruct (list_index_Some gid (queue q) Hin) as (i & Hli & Hi & Hfirst).
    assert (queue q ≠ []) as Hne by (intros Hnil; rewrite Hnil in Hin; by apply elem_of_nil in Hin).
    assert (i < length (queue q))%nat as Hlt by (by eapply lookup_lt_Some).
    unfold api_label_queue_set. fold q. cbv zeta.
    rewrite (bool_decide_eq_true_2 (queue q ≠ [])) by done.
    cbn [mbind option_bind default]. rewrite Hli. cbn [default].
    rewrite (bool_decide_eq_false_2 (Z.of_nat i < 0)) by lia.
    rewrite (bool_decide_eq_false_2 (Z.of_nat i > _)) by lia.
    rewrite (bool_decide_eq_true_2 (Z.of_nat i < _)) by lia.
    unfold id. rewrite py_index_in_range by lia. rewrite Nat2Z.id, Hi. cbn [mbind result_bind].
    eexists i, _. split; [done |]. by cbn.
  - intros Hnin Hne. unfold api_label_queue_set. fold q. cbv zeta. cbn [fst].
    rewrite (bool_decide_eq_true_2 (queue q ≠ [])) by done.
    cbn [mbind option_bind default]. rewrite list_index_None by done. cbn [default].
    do 2 f_equal. unfold id. repeat case_bool_decide; lia.
Qed.

(** ** The low-traffic filter: candidates and thresholds *)

Section low_ratio_facts.
Implicit Types (base : list ((Z * Z) * Q)) (gids : list Z) (lv : Q).

(** The rows of the view [zr] are keyed by the grids of [gids]. *)
Lemma low_ratio_rows_keys base gids lv (g : Z) :
  g ∈ (low_ratio_rows base gids lv).*1 ↔ g ∈ gids.
Proof.
  unfold low_ratio_rows. cbv zeta.
  rewrite <- !list_fmap_compose.
  rewrite (list_fmap_ext _ fst (group_sum _)) by (by intros _ [??] _).
  rewrite group_sum_elem_key, <- !list_fmap_compose.
  rewrite list_elem_of_fmap. split.
  - intros ([g' h] & -> & Hin). cbn.
    apply list_elem_of_bind in Hin as (g'' & Hin & Hg).
    apply list_elem_of_bind in Hin as (h' & Hin & _).
    apply list_elem_of_singleton in Hin. by injection Hin as -> ->.
  - intros Hg. exists (g, 0). split; [done |].
    apply list_elem_of_bind. exists g. split; [| done].
    apply list_elem_of_bind. exists 0. split; [left |].
    by apply (bool_decide_unpack _).
Qed.

Lemma low_ratio_rows_NoDup base gids lv : NoDup (low_ratio_rows base gids lv).*1.
Proof.
  unfold low_ratio_rows. cbv zeta. rewrite <- list_fmap_compose.
  rewrite (list_fmap_ext _ fst (group_sum _)) by (by intros _ [??] _).
  apply group_sum_NoDup.
Qed.

(** The low-hour count of a grid: the number of its rows of [full24] whose
    average is at most [lv]. *)
Lemma low_ratio_rows_value base gids lv (g : Z) (ratio : Q) :
  (g, ratio) ∈ low_ratio_rows base gids lv →
  ratio =
  (inject_Z (Zsum ((λ f : Z * Z, if bool_decide (default 0%Q (assoc f base) <= lv)%Q
                                  then 1%Z else 0%Z) <$>
                   filter (λ f : Z * Z, f.1 = g)
                     ((g' ← gids; h ← seqZ 0%Z 24%Z; [(g', h)]) : list (Z * Z))))
   / 24)%Q.
Proof.
  unfold low_ratio_rows. cbv zeta.
  intros ([g' n] & [= -> ->] & Hin)%list_elem_of_fmap. cbn [fst snd]. do 2 f_equal.
  apply assoc_elem_NoDup in Hin; [| apply group_sum_NoDup].
  unfold group_sum in Hin. rewrite assoc_group_sum_Z in Hin. cbv zeta in Hin.
  change (assoc g' []) with (@None Z) in Hin. cbv iota in Hin.
  case_decide; [done |]. injection Hin as <-. f_equal.
  rewrite <- list_fmap_compose.
  by rewrite (filter_fmap_comm _ (λ r : Z * Z, r.1 = g')), <- !list_fmap_compose.
Qed.

End low_ratio_facts.

Section bad_set_facts.
Context (fs : appdata Q) (pool : list Z) (filter_year : option Z).

(** What the filter saw when it flagged a grid. *)
Lemma bad_set_elem (low_value low_pct : option Q) (use_pool : bool) (g : Z) :
  g ∈ bad_set fs pool filter_year low_value low_pct use_pool →
  ∃ pct y table,
    low_pct = Some pct ∧ pool ≠ [] ∧ (0 < clamp_pct pct)%Q ∧
    chosen_year fs filter_year = Some y ∧ read_hourly fs y = Ok table ∧
    distinct_weeks table ≠ [] ∧
    g ∈ low_grids_sql table (distinct_weeks table) pool use_pool
          (clamp_low_value (default 0%Q low_value)) (clamp_pct pct).
Proof.
  unfold bad_set. destruct low_pct as [pct|]; simpl; [| by intros ?%elem_of_empty].
  case_bool_decide as Hp; [| by intros ?%elem_of_empty]. destruct Hp as [Hpool Hpct].
  destruct (chosen_year fs filter_year) as [y|] eqn:Hy; [| by intros ?%elem_of_empty].
  destruct (read_hourly fs y) as [table|] eqn:Ht; [| by intros ?%elem_of_empty].
  case_bool_decide as Hw; [| by intros ?%elem_of_empty].
  rewrite elem_of_list_to_set. intros Hg. exists pct, y, table. by repeat split.
Qed.

(** The filter can only flag candidates when the pool table is in use, and
    only grids with a row in the chosen hourly file when it is not; the
    pool it leaves is the pool without the flagged grids, in the same
    order. *)
Theorem bad_set_candidates (low_value low_pct : option Q) (use_pool : bool) :
  (∀ g, g ∈ bad_set fs pool filter_year low_value low_pct use_pool →
     if use_pool then g ∈ pool
     else ∃ y table r, chosen_year fs filter_year = Some y ∧ read_hourly fs y = Ok table ∧
                       r ∈ table ∧ h_grid_id r = g) ∧
  pool_after fs pool filter_year low_value low_pct use_pool `sublist_of` pool ∧
  (∀ g, g ∈ pool_after fs pool filter_year low_value low_pct use_pool ↔
        g ∈ pool ∧ g ∉ bad_set fs pool filter_year low_value low_pct use_pool).
Proof.
  split; [| split].
  - intros g (pct & y & table & _ & _ & _ & Hy & Ht & _ & Hg)%bad_set_elem.
    unfold low_grids_sql in Hg. cbv zeta in Hg.
    apply list_elem_of_fmap in Hg as ([g' ratio] & -> & [_ Hin]%list_elem_of_filter).
    apply (list_elem_of_fmap_2 fst) in Hin. cbn [fst] in *.
    destruct use_pool.
    + by rewrite low_ratio_rows_keys in Hin.
    + rewrite low_ratio_rows_keys, elem_of_remove_dups in Hin.
      apply list_elem_of_fmap in Hin as ([[g'' h] v] & -> & Hb). cbn [fst].
      apply (list_elem_of_fmap_2 fst) in Hb. unfold avg_by_grid_hour in Hb.
      rewrite <- list_fmap_compose in Hb.
      rewrite (list_fmap_ext _ fst (group_sum _)) in Hb by (by intros _ [??] _).
      rewrite group_sum_elem_key, <- !list_fmap_compose in Hb.
      apply list_elem_of_fmap in Hb as (r & Heq & [_ Hr]%list_elem_of_filter).
      cbn in Heq. injection Heq as -> ->. by exists y, table, r.
  - apply sublist_filter.
  - intros g. unfold pool_after. rewrite list_elem_of_filter. tauto.
Qed.

End bad_set_facts.

(** *** Raising [low_value] *)

Lemma Zsum_fmap_mono {B} (f f' : B → Z) (l : list B) :
  (∀ x, f x ≤ f' x) → Zsum (f <$> l) ≤ Zsum (f' <$> l).
Proof.
  intros Hf. induction l as [|x l IH]; [done |].
  rewrite !fmap_cons, !Zsum_cons. specialize (Hf x). lia.
Qed.

Lemma Qdiv24_mono (a b : Z) : a ≤ b → (inject_Z a / 24 <= inject_Z b / 24)%Q.
Proof.
  intros Hab. apply Qmult_le_compat_r; [by rewrite <- Zle_Qle | by vm_compute].
Qed.

Lemma low_ratio_rows_mono (base : list ((Z * Z) * Q)) (gids : list Z) (lv lv' : Q)
    (g : Z) (ratio : Q) :
  (lv <= lv')%Q → (g, ratio) ∈ low_ratio_rows base gids lv →
  ∃ ratio', (g, ratio') ∈ low_ratio_rows base gids lv' ∧ (ratio <= ratio')%Q.
Proof.
  intros Hlv Hin.
  assert (g ∈ (low_ratio_rows base gids lv').*1) as Hk.
  { rewrite low_ratio_rows_keys, <- (low_ratio_rows_keys base gids lv).
    by apply (list_elem_of_fmap_2 fst) in Hin. }
  apply list_elem_of_fmap in Hk as ([g' ratio'] & -> & Hin'). cbn [fst] in *.
  exists ratio'. split; [done |].
  rewrite (low_ratio_rows_value _ _ _ _ _ Hin), (low_ratio_rows_value _ _ _ _ _ Hin').
  apply Qdiv24_mono, Zsum_fmap_mono. intros f.
  repeat case_bool_decide; try lia. lra.
Qed.

Lemma clamp_low_value_mono (v v' : Q) :
  (v <= v')%Q → (clamp_low_value v <= clamp_low_value v')%Q.
Proof. intros Hv. unfold clamp_low_value. repeat case_bool_decide; lra. Qed.

(** A larger [low_value] calls more hours low: every grid flagged with
    [low_value = v] is flagged with every [v' >= v]. *)
Theorem bad_set_low_value_monotone (fs : appdata Q) (pool : list Z)
    (filter_year : option Z) (low_pct : option Q) (use_pool : bool) (v v' : Q) :
  (v <= v')%Q →
  bad_set fs pool filter_year (Some v) low_pct use_pool ⊆
  bad_set fs pool filter_year (Some v') low_pct use_pool.
Proof.
  intros Hv g Hg.
  apply bad_set_elem in Hg as (pct & y & table & -> & Hpool & Hpct & Hy & Ht & Hw & Hg).
  unfold bad_set. simpl. rewrite bool_decide_eq_true_2 by done.
  rewrite Hy, Ht. rewrite bool_decide_eq_true_2 by done.
  apply elem_of_list_to_set. revert Hg. unfold low_grids_sql. cbv zeta.
  simpl default. pose proof (clamp_low_value_mono v v' Hv) as Hc.
  set (lv := clamp_low_value v) in *. set (lv' := clamp_low_value v') in *.
  destruct use_pool.
  - intros ([g' ratio] & -> & [Hr Hin]%list_elem_of_filter)%list_elem_of_fmap.
    destruct (low_ratio_rows_mono _ _ lv lv' _ _ Hc Hin) as (ratio' & Hin' & Hle).
    apply (list_elem_of_fmap_2 fst _ (g', ratio')), list_elem_of_filter.
    split; [| done]. cbn [snd] in *. by eapply Qle_trans.
  - intros ([g' ratio] & -> & [Hr Hin]%list_elem_of_filter)%list_elem_of_fmap.
    destruct (low_ratio_rows_mono _ _ lv lv' _ _ Hc Hin) as (ratio' & Hin' & Hle).
    apply (list_elem_of_fmap_2 fst _ (g', ratio')), list_elem_of_filter.
    split; [| done]. cbn [snd] in *. by eapply Qle_trans.
Qed.

Lemma bad_set_low_value_monotone_witness :
  bad_set half_busy_fs [100; 200] None (Some 0%Q) (Some 60%Q) true ⊆
  bad_set half_busy_fs [100; 200] None (Some 5%Q) (Some 60%Q) true.
Proof.
  assert (H1 : (0 <= 5)%Q) by (by vm_compute).
  exact (bad_set_low_value_monotone half_busy_fs [100; 200] None (Some 60%Q) true 0 5 H1).
Defined.

(** ** [/api/low_filter_debug] and the filter *)

Section pool_join.
Context (pool : list Z) (g : Z).
Hypothesis Hnd : NoDup pool.
Hypothesis Hg : g ∈ pool.

(** A grid that occurs once in the pool has its 24 rows in [full24]. *)
Lemma full24_rows :
  filter (λ f : Z * Z, f.1 = g) (g' ← pool; h ← seqZ 0 24; [(g', h)]) =
  (λ h, (g, h)) <$> seqZ 0 24.
Proof.
  clear -Hnd Hg. induction pool as [|p l IH]; [by apply elem_of_nil in Hg |].
  apply NoDup_cons in Hnd as [Hp Hnd'].
  assert (Hrow : ∀ p' : Z, (seqZ 0 24 ≫= λ h : Z, [(p', h)]) = (λ h : Z, (p', h)) <$> seqZ 0 24).
  { intros p'. generalize (seqZ 0 24). intros hs.
    induction hs as [|h hs IHh]; [done |]. cbn. by rewrite <- IHh. }
  rewrite bind_cons, filter_app, Hrow.
  destruct (decide (p = g)) as [-> | Hne].
  - rewrite filter_all by (by intros f (h & -> & _)%list_elem_of_fmap).
    rewrite filter_none; [by rewrite app_nil_r |].
    intros [g' h] Hin Heq. cbn in Heq. subst g'.
    apply list_elem_of_bind in Hin as (p' & Hin & Hp').
    apply list_elem_of_bind in Hin as (h' & Hin & _).
    apply list_elem_of_singleton in Hin. by injection Hin as -> ->.
  - rewrite filter_none by (by intros f (h & -> & _)%list_elem_of_fmap).
    apply IH; [done |]. by apply elem_of_cons in Hg as [-> | ?].
Qed.

(** [base_raw JOIN pool] keeps each row of the grid once. *)
Lemma join_pool_rows {B} (grid : B → Z) (P : B → Prop) `{∀ x, Decision (P x)}
    (rows : list B) :
  (∀ x, P x → grid x = g) →
  filter P (br ← rows; p ← pool; if bool_decide (grid br = p) then [br] else []) =
  filter P rows.
Proof.
  intros HP. induction rows as [|br rows IH]; [done |].
  rewrite bind_cons, filter_app, IH, filter_cons. clear IH.
  destruct (decide (P br)) as [Hbr | Hbr].
  - specialize (HP br Hbr). rewrite HP.
    assert ((p ← pool; if bool_decide (g = p) then [br] else []) = [br]) as ->; [| by
      rewrite filter_cons_True by done].
    clear -Hnd Hg. induction pool as [|p l IHl]; [by apply elem_of_nil in Hg |].
    apply NoDup_cons in Hnd as [Hp Hnd']. rewrite bind_cons.
    case_bool_decide as Heq.
    + subst p. cbn. f_equal.
      clear -Hp. induction l as [|p l IHl]; [done |].
      rewrite bind_cons, bool_decide_eq_false_2; [apply IHl |].
      * intros ?. apply Hp. by right.
      * intros ->. apply Hp. left.
    + cbn. apply IHl; [done |]. apply elem_of_cons in Hg as [-> | ?]; done.
  - rewrite filter_none; [done |].
    intros x (p & Hx & _)%list_elem_of_bind.
    case_bool_decide; [| by apply elem_of_nil in Hx].
    by apply list_elem_of_singleton in Hx as ->.
Qed.

End pool_join.

Lemma assoc_fmap_values {K V W} `{EqDecision K} (f : V → W) (k : K) (rel : list (K * V)) :
  assoc k ((λ kv, (kv.1, f kv.2)) <$> rel) = f <$> assoc k rel.
Proof.
  unfold assoc. induction rel as [|[k' v] rel IH]; [done |].
  rewrite fmap_cons. cbn [find fst snd]. case_bool_decide; [done | apply IH].
Qed.

Lemma count_true_Zsum {B} (b : B → bool) (l : list B) :
  Z.of_nat (length (filter (λ x, b x = true) l)) = Zsum ((λ x, if b x then 1 else 0) <$> l).
Proof.
  induction l as [|x l IH]; [done |].
  rewrite filter_cons, fmap_cons, Zsum_cons.
  destruct (b x); [rewrite decide_True by done | rewrite decide_False by done];
    cbn [length]; lia.
Qed.

Lemma Zsum_indicator_range {B} (b : B → bool) (l : list B) :
  0 ≤ Zsum ((λ x, if b x then 1 else 0) <$> l) ≤ Z.of_nat (length l).
Proof.
  induction l as [|x l IH]; [done |].
  rewrite fmap_cons, Zsum_cons. cbn [length]. destruct (b x); lia.
Qed.

Section debug_agrees.
Context (table : list (HourlyRow Q)) (weeks pool : list Z) (g : Z) (lv : Q).
Hypothesis Hnd : NoDup pool.
Hypothesis Hg : g ∈ pool.

(** The averages the filter computes for the grid after the join with the
    pool are the averages the debug query computes. *)
Lemma pool_base_debug_base (h : Z) :
  assoc (g, h)
    (avg_by_grid_hour
       (br ← ((λ r, (h_grid_id r, h_hour r, h_total r)) <$>
              filter (λ r, h_week r ∈ weeks) table);
        p ← pool; if bool_decide (br.1.1 = p) then [br] else [])) =
  assoc h
    ((λ kv : Z * (Q * Z), (kv.1, (kv.2.1 / inject_Z kv.2.2)%Q)) <$>
     group_sum ((λ r : Z * Q, (r.1, (r.2, 1))) <$>
                ((λ r, (h_hour r, h_total r)) <$>
                 filter (λ r, h_week r ∈ weeks ∧ h_grid_id r = g) table))).
Proof.
  unfold avg_by_grid_hour.
  rewrite (assoc_fmap_values (λ v : Q * Z, (v.1 / inject_Z v.2)%Q) (g, h)).
  rewrite (assoc_fmap_values (λ v : Q * Z, (v.1 / inject_Z v.2)%Q) h).
  f_equal. rewrite !assoc_group_sum. f_equal.
  rewrite !filter_fmap_comm, <- !list_fmap_compose.
  rewrite (join_pool_rows pool g Hnd Hg (λ br : Z * Z * Q, br.1.1)
             (λ br : Z * Z * Q, (br.1.1, br.1.2) = (g, h)))
    by (by intros [[??]?] [= ? ?]).
  rewrite filter_fmap_comm, <- !list_fmap_compose, !list_filter_filter.
  erewrite list_filter_iff; [apply list_fmap_ext; by intros ???|].
  intros r. cbn. split; [intros [[= ? ?] ?] | intros [? [? ?]]]; subst; tauto.
Qed.

(** The ratio of the grid in the view [zr] is the ratio the debug endpoint
    reports. *)
Lemma pool_ratio_debug_ratio (ratio : Q) :
  (g, ratio) ∈
    low_ratio_rows
      (avg_by_grid_hour
         (br ← ((λ r, (h_grid_id r, h_hour r, h_total r)) <$>
                filter (λ r, h_week r ∈ weeks) table);
          p ← pool; if bool_decide (br.1.1 = p) then [br] else []))
      pool lv →
  ratio =
  (inject_Z (Z.of_nat (length (filter (λ r : Z * Q * bool, r.2 = true)
                                 (debug_hours table weeks g lv)))) / 24)%Q.
Proof.
  intros Hin. rewrite (low_ratio_rows_value _ _ _ _ _ Hin). do 2 f_equal.
  rewrite (full24_rows pool g Hnd Hg), <- list_fmap_compose.
  rewrite (count_true_Zsum snd). unfold debug_hours. cbv zeta.
  rewrite <- list_fmap_compose. apply (f_equal Zsum), list_fmap_ext.
  intros _ h _. cbn [compose fst snd]. by rewrite pool_base_debug_base.
Qed.

End debug_agrees.

Lemma clamp_pct_Qeq (p : Q) : (0 < p)%Q → (p <= 100)%Q → (clamp_pct p == p)%Q.
Proof. intros ??. unfold clamp_pct. repeat case_bool_decide; lra. Qed.

Lemma clamp_low_value_id (v : Q) : (0 <= v)%Q → clamp_low_value v = v.
Proof. intros ?. unfold clamp_low_value. case_bool_decide; [lra | done]. Qed.

Lemma debug_hours_length table weeks g lv : length (debug_hours table weeks g lv) = 24%nat.
Proof. unfold debug_hours. cbv zeta. by rewrite length_fmap, length_seqZ. Qed.

(** The debug endpoint explains the filter.  For a candidate of a pool
    without repetitions, [low_pct] in [(0, 100]] and [low_value >= 0]: when
    the endpoint answers, [decision_exclude] tells whether the filter of
    [/api/label_queue/start] flags the grid (with the pool table in use);
    [ratio] is [le_count / 24] over the 24 hours it lists; and when it
    answers with an error the filter flags nothing. *)
Theorem low_filter_debug_agrees (fs : appdata Q) (pool : list Z) (year : option Z)
    (g : Z) (lv pct : Q) :
  NoDup pool → g ∈ pool → (0 < pct)%Q → (pct <= 100)%Q → (0 <= lv)%Q →
  match api_low_filter_debug fs g year lv pct with
  | DebugOk y ratio le_count decision hours =>
      (decision = true ↔ g ∈ bad_set fs pool year (Some lv) (Some pct) true) ∧
      length hours = 24%nat ∧ 0 ≤ le_count ≤ 24 ∧
      ratio = (inject_Z le_count / 24)%Q ∧
      le_count = Z.of_nat (length (filter (λ r : Z * Q * bool, r.2 = true) hours)) ∧
      Forall (λ r : Z * Q * bool, r.2 = bool_decide (r.1.2 <= lv)%Q) hours
  | _ => g ∉ bad_set fs pool year (Some lv) (Some pct) true
  end.
Proof.
  intros Hnd Hg Hpct Hpct100 Hlv.
  unfold api_low_filter_debug, bad_set. cbv zeta.
  cbn [fmap option_fmap option_map from_option id].
  assert (pool ≠ []) as Hpool by (intros ->; by apply elem_of_nil in Hg).
  pose proof (clamp_pct_Qeq pct Hpct Hpct100) as Hcp.
  rewrite (bool_decide_eq_true_2 (_ ∧ _)) by (split; [done | lra]).
  rewrite (clamp_low_value_id lv Hlv).
  destruct (chosen_year fs year) as [y|]; [| apply not_elem_of_empty].
  destruct (read_hourly fs y) as [table|]; [| apply not_elem_of_empty].
  case_bool_decide as Hw.
  { rewrite bool_decide_eq_false_2 by (by intros ?). apply not_elem_of_empty. }
  rewrite (bool_decide_eq_true_2 (distinct_weeks table ≠ [])) by done.
  set (weeks := distinct_weeks table) in *.
  set (hours := debug_hours table weeks g lv).
  pose proof (debug_hours_length table weeks g lv) as Hlen. fold hours in Hlen.
  rewrite (bool_decide_eq_true_2 (hours ≠ [])) by (intros Hnil; by rewrite Hnil in Hlen).
  rewrite (bool_decide_eq_true_2 (0 < pct)%Q) by done.
  split; [| split; [done | split; [| split; [done | split; [done |]]]]].
  - rewrite bool_decide_eq_true, elem_of_list_to_set.
    unfold low_grids_sql. cbv zeta. set (zr := low_ratio_rows _ _ _).
    assert (∃ ratio, (g, ratio) ∈ zr) as [ratio Hin].
    { assert (g ∈ zr.*1) as ([g' ratio] & -> & Hin)%list_elem_of_fmap
        by (by apply low_ratio_rows_keys). by exists ratio. }
    pose proof (pool_ratio_debug_ratio table weeks pool g lv Hnd Hg ratio Hin) as Hratio.
    fold hours in Hratio. rewrite <- Hratio. split.
    + intros Hle. apply (list_elem_of_fmap_2 fst _ (g, ratio)), list_elem_of_filter.
      split; [| done]. cbn [snd]. rewrite Hcp. done.
    + intros ([g' ratio'] & -> & [Hle Hin']%list_elem_of_filter)%list_elem_of_fmap.
      cbn [fst snd] in *. rewrite Hcp in Hle.
      assert (ratio' = ratio) as <-; [| done].
      apply assoc_elem_NoDup in Hin, Hin'; try apply low_ratio_rows_NoDup. congruence.
  - rewrite (count_true_Zsum snd).
    pose proof (Zsum_indicator_range snd hours) as Hr. rewrite Hlen in Hr. lia.
  - unfold hours, debug_hours. cbv zeta. apply Forall_fmap, Forall_forall. by intros h _.
Qed.

Lemma low_filter_debug_agrees_witness :
  match api_low_filter_debug half_busy_fs 100 None 0 50 with
  | DebugOk y ratio le_count decision hours =>
      (decision = true ↔ 100 ∈ bad_set half_busy_fs [100; 200] None (Some 0%Q) (Some 50%Q) true) ∧
      length hours = 24%nat ∧ 0 ≤ le_count ≤ 24 ∧
      ratio = (inject_Z le_count / 24)%Q ∧
      le_count = Z.of_nat (length (filter (λ r : Z * Q * bool, r.2 = true) hours)) ∧
      Forall (λ r : Z * Q * bool, r.2 = bool_decide (r.1.2 <= 0)%Q) hours
  | _ => 100 ∉ bad_set half_busy_fs [100; 200] None (Some 0%Q) (Some 50%Q) true
  end.
Proof.
  assert (H1 : NoDup [100; 200]) by (by apply (bool_decide_unpack _)).
  assert (H2 : 100 ∈ [100; 200]) by left.
  assert (H3 : (0 < 50)%Q) by reflexivity.
  assert (H4 : (50 <= 100)%Q) by (by vm_compute).
  assert (H5 : (0 <= 0)%Q) by (by vm_compute).
  exact (low_filter_debug_agrees half_busy_fs [100; 200] None 100 0 50 H1 H2 H3 H4 H5).
Defined.

(** ** [/api/label_queue/start] *)

Lemma if_chain_Some {B} (b1 b2 b3 b4 : bool) (x g : B) :
  (if b1 then None else if b2 then None else if b3 then None
   else if b4 then None else Some x) = Some g →
  g = x ∧ b1 = false ∧ b2 = false ∧ b3 = false ∧ b4 = false.
Proof. destruct b1, b2, b3, b4; try done. by intros [= ->]. Qed.

Section queue_start.
Context `{PyRuntime}.
Context (eng : Engine) (fs : appdata Q) (labeled : gset Z).

Lemma _unlabeled_grid_ids_elem (city area keyword : string) (g : Z) :
  g ∈ _unlabeled_grid_ids eng labeled city area keyword →
  (g ∉ labeled) ∧
  ∃ m, m ∈ meta_items eng ∧ gc_grid_id m = g ∧
       (city ≠ "" → gc_city_name m = city) ∧ (area ≠ "" → gc_area_name m = area).
Proof.
  unfold _unlabeled_grid_ids. cbv zeta. intros (m & Hm & Hg)%list_elem_of_omap.
  apply if_chain_Some in Hg as (-> & Hl%bool_decide_eq_false & Hc%bool_decide_eq_false &
                                Ha%bool_decide_eq_false & _).
  split; [done |]. exists m. split; [done |]. split; [done |].
  split; intros ?; destruct (decide (gc_city_name m = city)),
    (decide (gc_area_name m = area)); tauto.
Qed.

Lemma _unlabeled_grid_ids_NoDup (city area keyword : string) :
  NoDup (gc_grid_id <$> meta_items eng) →
  NoDup (_unlabeled_grid_ids eng labeled city area keyword).
Proof.
  unfold _unlabeled_grid_ids. cbv zeta. generalize (meta_items eng). intros items.
  induction items as [|m items IH]; [constructor |].
  rewrite fmap_cons. intros [Hm Hnd]%NoDup_cons. cbn [omap list_omap].
  destruct (if bool_decide (gc_grid_id m ∈ labeled) then _ else _) as [g|] eqn:Hg;
    [| by apply IH].
  assert (g = gc_grid_id m) as ->.
  { by apply if_chain_Some in Hg as [-> _]. }
  constructor; [| by apply IH].
  intros (m' & Hm' & Hg')%list_elem_of_omap. apply Hm.
  assert (gc_grid_id m = gc_grid_id m') as ->; [| by apply list_elem_of_fmap_2].
  by apply if_chain_Some in Hg' as [-> _].
Qed.

(** The queue a start request writes.  Its pointer is at [0]; it holds
    [max(1, count)] grids, or all candidates when there are fewer, so at
    least one grid whenever there is a candidate, even for [count <= 0];
    every grid of the queue is in the metadata, passes the name filters,
    has no label and was not flagged by the low-traffic filter; and without
    repeated ids in the metadata no grid is queued twice. *)
Theorem queue_start_properties (count : Z) (city area keyword : string)
    (low_pct zero_pct low_value : option Q) (filter_year : option Z) (use_pool : bool) :
  (∀ l, shuffle l ≡ₚ l) →
  let q := api_label_queue_start eng fs labeled count city area keyword
             low_pct zero_pct low_value filter_year use_pool in
  let unlabeled := _unlabeled_grid_ids eng labeled city area keyword in
  let pct := match low_pct with Some p => Some p | None => zero_pct end in
  let candidates := pool_after fs unlabeled filter_year low_value pct use_pool in
  index q = 0 ∧
  length (queue q) = (Z.to_nat (Z.max 1 count) `min` length candidates)%nat ∧
  (queue q = [] ↔ candidates = []) ∧
  queue q ⊆+ candidates ∧
  (∀ g, g ∈ queue q →
     (g ∉ labeled) ∧
     (g ∉ bad_set fs unlabeled filter_year low_value pct use_pool) ∧
     ∃ m, m ∈ meta_items eng ∧ gc_grid_id m = g ∧
          (city ≠ "" → gc_city_name m = city) ∧ (area ≠ "" → gc_area_name m = area)) ∧
  (NoDup (gc_grid_id <$> meta_items eng) → NoDup (queue q)).
Proof.
  intros Hperm q unlabeled pct candidates.
  assert (Hq : queue q = take (Z.to_nat (Z.max 1 count)) (shuffle candidates) ∧ index q = 0).
  { unfold q, api_label_queue_start. cbv zeta. fold unlabeled pct candidates.
    case_bool_decide as Hc; [| done]. cbn [queue index]. split; [| done].
    rewrite Hc. pose proof (Hperm []) as Hnil. apply Permutation_nil_r in Hnil.
    rewrite Hnil. by rewrite take_nil. }
  destruct Hq as [Hq Hi].
  assert (Hsub : queue q ⊆+ candidates).
  { rewrite Hq. etrans; [apply sublist_submseteq, sublist_take |].
    by rewrite (Hperm candidates). }
  assert (Hlen : length (queue q) = (Z.to_nat (Z.max 1 count) `min` length candidates)%nat).
  { by rewrite Hq, length_take, (Hperm candidates). }
  assert (Helem : ∀ g, g ∈ queue q → g ∈ candidates).
  { intros g Hg. by eapply elem_of_submseteq. }
  split; [done |]. split; [done |]. split; [| split; [done | split]].
  - split.
    + intros Hnil. rewrite Hnil in Hlen. cbn in Hlen.
      destruct candidates; [done |]. cbn in Hlen. lia.
    + intros Hnil. rewrite Hnil in Hsub. by apply submseteq_nil_r in Hsub.
  - intros g Hg%Helem. unfold candidates, pool_after in Hg.
    apply list_elem_of_filter in Hg as [Hbad Hg].
    apply _unlabeled_grid_ids_elem in Hg as [Hl Hm]. done.
  - intros Hnd. rewrite Hq.
    apply (sublist_NoDup _ (shuffle candidates)); [| apply sublist_take].
    rewrite (Hperm candidates).
    unfold candidates, pool_after. by apply NoDup_filter, _unlabeled_grid_ids_NoDup.
Qed.

End queue_start.

Lemma queue_start_properties_witness :
  let q := api_label_queue_start (H := sample_runtime) flows_meta half_busy_fs {[200]} 0
             "" "" "" (Some 60%Q) None (Some 0%Q) None true in
  let unlabeled := _unlabeled_grid_ids (H := sample_runtime) flows_meta {[200]} "" "" "" in
  let candidates := pool_after half_busy_fs unlabeled None (Some 0%Q) (Some 60%Q) true in
  index q = 0 ∧
  length (queue q) = (Z.to_nat (Z.max 1 0) `min` length candidates)%nat ∧
  (queue q = [] ↔ candidates = []) ∧
  queue q ⊆+ candidates ∧
  (∀ g, g ∈ queue q →
     (g ∉ ({[200]} : gset Z)) ∧
     (g ∉ bad_set half_busy_fs unlabeled None (Some 0%Q) (Some 60%Q) true) ∧
     ∃ m, m ∈ meta_items flows_meta ∧ gc_grid_id m = g ∧
          ("" ≠ "" → gc_city_name m = "") ∧ ("" ≠ "" → gc_area_name m = "")) ∧
  (NoDup (gc_grid_id <$> meta_items flows_meta) → NoDup (queue q)).
Proof.
  assert (H1 : ∀ l : list Z, shuffle (PyRuntime := sample_runtime) l ≡ₚ l)
    by (intros l; apply reverse_Permutation).
  exact (queue_start_properties (H := sample_runtime) flows_meta half_busy_fs {[200]} 0
           "" "" "" (Some 60%Q) None (Some 0%Q) None true H1).
Defined.

(** With the metadata of the grids 100, 200 and 300, grid 200 labelled, and
    the hourly file in which grid 100 is busy half of the day: grid 300 has
    no hourly rows and is flagged, and a request with [count = 0] queues the
    one remaining candidate. *)
Example queue_start_example :
  api_label_queue_start (H := sample_runtime) flows_meta half_busy_fs {[200]} 0
    "" "" "" (Some 60%Q) None (Some 0%Q) None true
  = {| queue := [100]; index := 0 |} ∧
  api_label_queue_start (H := sample_runtime) flows_meta half_busy_fs {[200]} 5
    "" "" "" None None None None true
  = {| queue := [300; 100]; index := 0 |} ∧
  api_label_queue_start (H := sample_runtime) flows_meta half_busy_fs {[100; 200; 300]} 5
    "" "" "" None None None None true
  = {| queue := []; index := 0 |}.
Proof. split_and!; by vm_compute. Qed.

(** ** Column detection *)

(** [pick] returns the first candidate that is a column of the file; the
    default only when no candidate is. *)
Lemma pick_spec (cols cands : list string) (default : string) :
  (∃ before c after, cands = before ++ c :: after ∧ c ∈ cols ∧
     Forall (λ c', c' ∉ cols) before ∧ pick cols cands default = c) ∨
  (Forall (λ c', c' ∉ cols) cands ∧ pick cols cands default = default).
Proof.
  unfold pick. induction cands as [|c cands IH]; [by right |].
  cbn [find]. case_bool_decide as Hc.
  - left. exists [], c, cands. by repeat split.
  - destruct IH as [(before & c' & after & -> & Hc' & Hb & Hp) | [Hall Hp]].
    + left. exists (c :: before), c', after. repeat split; [done | by constructor | done].
    + right. split; [by constructor | done].
Qed.

Lemma pick_in_cols (cols cands : list string) (default : string) :
  default ∈ cands →
  (pick cols cands default ∈ cols ↔ ∃ c, c ∈ cands ∧ c ∈ cols).
Proof.
  intros Hd. destruct (pick_spec cols cands default)
    as [(before & c & after & -> & Hc & Hb & ->) | [Hall ->]].
  - split; [| done]. intros _. exists c. split; [| done].
    apply elem_of_app. right. left.
  - rewrite Forall_forall in Hall. split.
    + intros Hin. by destruct (Hall default Hd).
    + intros (c & Hc & Hin). by destruct (Hall c Hc).
Qed.

Lemma pick_first (cols : list string) (c : string) (cands : list string) (default : string) :
  c ∈ cols → pick cols (c :: cands) default = c.
Proof. intros Hc. unfold pick. cbn [find]. by rewrite bool_decide_eq_true_2. Qed.

(** The detected mapping.  Each canonical column is mapped to a column of
    the file exactly when the file has one of its candidate names, and then
    to the first of them in the order tried; a file that has the five
    canonical names is mapped to them, whatever other columns it has. *)
Theorem detect_cols_spec `{PyRuntime} (header : list string) :
  let cols := str_strip <$> header in
  let m := detect_cols header in
  (cm_date_dt m ∈ cols ↔ ∃ c, c ∈ date_dt_cands ∧ c ∈ cols) ∧
  (cm_time_ m ∈ cols ↔ ∃ c, c ∈ time__cands ∧ c ∈ cols) ∧
  (cm_o_grid m ∈ cols ↔ ∃ c, c ∈ o_grid_cands ∧ c ∈ cols) ∧
  (cm_d_grid m ∈ cols ↔ ∃ c, c ∈ d_grid_cands ∧ c ∈ cols) ∧
  (cm_num_total m ∈ cols ↔ ∃ c, c ∈ num_total_cands ∧ c ∈ cols) ∧
  (cm_date_dt m ∈ date_dt_cands ∧ cm_time_ m ∈ time__cands ∧ cm_o_grid m ∈ o_grid_cands ∧
   cm_d_grid m ∈ d_grid_cands ∧ cm_num_total m ∈ num_total_cands) ∧
  ("date_dt" ∈ cols → "time_" ∈ cols → "o_grid" ∈ cols → "d_grid" ∈ cols →
   "num_total" ∈ cols →
   m = {| cm_date_dt := "date_dt"; cm_time_ := "time_"; cm_o_grid := "o_grid";
          cm_d_grid := "d_grid"; cm_num_total := "num_total" |}) ∧
  ("o_grid" ∉ cols → "o_grid_500" ∈ cols → cm_o_grid m = "o_grid_500").
Proof.
  intros cols m. unfold m, detect_cols. fold cols. cbn [cm_date_dt cm_time_ cm_o_grid
    cm_d_grid cm_num_total].
  assert (Hmem : ∀ cands default, default ∈ cands → pick cols cands default ∈ cands).
  { intros cands default Hd. destruct (pick_spec cols cands default)
      as [(before & c & after & -> & _ & _ & ->) | [_ ->]]; [| done].
    apply elem_of_app. right. left. }
  split_and!.
  - apply pick_in_cols. by apply (bool_decide_unpack _).
  - apply pick_in_cols. by apply (bool_decide_unpack _).
  - apply pick_in_cols. by apply (bool_decide_unpack _).
  - apply pick_in_cols. by apply (bool_decide_unpack _).
  - apply pick_in_cols. by apply (bool_decide_unpack _).
  - apply Hmem. by apply (bool_decide_unpack _).
  - apply Hmem. by apply (bool_decide_unpack _).
  - apply Hmem. by apply (bool_decide_unpack _).
  - apply Hmem. by apply (bool_decide_unpack _).
  - apply Hmem. by apply (bool_decide_unpack _).
  - intros H1 H2 H3 H4 H5. unfold date_dt_cands, time__cands, o_grid_cands, d_grid_cands,
      num_total_cands. by rewrite !pick_first.
  - intros Hno Hyes. unfold pick, o_grid_cands. cbn [find].
    rewrite bool_decide_eq_false_2 by done. by rewrite bool_decide_eq_true_2.
Qed.

(** A header in the older naming is mapped column by column; a header
    without any name for the flow column is mapped to the default
    [num_total], which the file does not have. *)
Example detect_cols_example :
  detect_cols (H := sample_runtime) ["date"; "hour"; "o_grid_500"; "d_grid_500"; "flow"] =
    {| cm_date_dt := "date"; cm_time_ := "hour"; cm_o_grid := "o_grid_500";
       cm_d_grid := "d_grid_500"; cm_num_total := "flow" |} ∧
  cm_num_total (detect_cols (H := sample_runtime) ["date_dt"; "time"; "o"; "d"; "n"]) =
    "num_total".
Proof. split; by vm_compute. Qed.

(** ** [/api/hourly] and the engine *)

Section hourly_engine.
Context (fs : appdata Q) (grid_id : Z).

(** What the loop of [hourly_series_for_grid] does without assuming that
    the files can be read: it raises only on a year whose file exists. *)
Lemma hourly_series_loop_spec (years : list Z) (out : gmap Z HourlySeries) :
  match hourly_series_loop fs grid_id years out with
  | Ok out' =>
      ∀ y, (y ∈ years → exists_ fs hourly y = true → is_Some (out' !! y)) ∧
           (y ∉ years ∨ exists_ fs hourly y = false → out' !! y = out !! y)
  | Err _ => ∃ y, y ∈ years ∧ exists_ fs hourly y = true
  end.
Proof.
  revert out. induction years as [|y0 years IH]; intros out; cbn [hourly_series_loop].
  - intros y. split; [by intros ?%elem_of_nil | done].
  - destruct (exists_ fs hourly y0) eqn:He; cbn [negb].
    + destruct (read_hourly fs y0) as [table|e]; cbn [mbind result_bind];
        [| exists y0; split; [left | done]].
      specialize (IH (<[y0 := hourly_year table grid_id]> out)).
      destruct (hourly_series_loop _ _ _ _) as [out'|e].
      * intros y. destruct (IH y) as [Hin Hnot]. split.
        -- intros [-> | Hy]%elem_of_cons Hex; [| by apply Hin].
           destruct (decide (y0 ∈ years)) as [Hy0 | Hy0]; [by apply Hin |].
           rewrite Hnot by (by left). rewrite lookup_insert_eq. by eexists.
        -- intros Hy. rewrite Hnot.
           ++ apply lookup_insert_ne. intros <-. destruct Hy as [Hy | Hy]; [| congruence].
              apply Hy. left.
           ++ destruct Hy as [Hy | Hy]; [left | by right]. intros ?. apply Hy. by right.
      * destruct IH as (y & Hy & Hex). exists y. split; [by right | done].
    + specialize (IH out). destruct (hourly_series_loop _ _ _ _) as [out'|e].
      * intros y. destruct (IH y) as [Hin Hnot]. split.
        -- intros [-> | Hy]%elem_of_cons Hex; [congruence | by apply Hin].
        -- intros Hy. apply Hnot. destruct Hy as [Hy | Hy]; [left | by right].
           intros ?. apply Hy. by right.
      * destruct IH as (y & Hy & Hex). exists y. split; [by right | done].
Qed.

(** The loop of the handler, when the engine method raises. *)
Lemma api_hourly_loop_Err (e : error) (years : list Z) (out : gmap Z HourlySeries) :
  hourly_series_for_grid fs grid_id [] = Err e →
  (∃ y, y ∈ years ∧ exists_ fs hourly y = true) →
  api_hourly_loop fs grid_id years out = Err e.
Proof.
  intros He. revert out. induction years as [|y0 years IH]; intros out (y & Hy & Hex).
  - by apply elem_of_nil in Hy.
  - cbn [api_hourly_loop]. destruct (exists_ fs hourly y0) eqn:Hex0.
    + by rewrite He.
    + apply IH. exists y. split; [| done].
      apply elem_of_cons in Hy as [-> | Hy]; [congruence | done].
Qed.

(** The loop of the handler, when the engine method returns [series]. *)
Lemma api_hourly_loop_series (series : gmap Z HourlySeries) (years : list Z)
    (out : gmap Z HourlySeries) :
  hourly_series_for_grid fs grid_id [] = Ok series →
  (∀ y, y ∈ years → exists_ fs hourly y = true → is_Some (series !! y)) →
  ∃ out', api_hourly_loop fs grid_id years out = Ok out' ∧
    ∀ y, out' !! y = if decide (y ∈ years ∧ exists_ fs hourly y = true)
                     then series !! y else out !! y.
Proof.
  intros Hs. revert out. induction years as [|y0 years IH]; intros out Hkeys.
  - exists out. split; [done |]. intros y. rewrite decide_False; [done |].
    by intros [?%elem_of_nil _].
  - cbn [api_hourly_loop]. destruct (exists_ fs hourly y0) eqn:Hex0.
    + rewrite Hs. cbn [mbind result_bind].
      destruct (Hkeys y0) as [s Hs0]; [left | done |]. rewrite Hs0. cbn [mbind result_bind].
      destruct (IH (<[y0 := s]> out)) as (out' & -> & Hout').
      { intros y ??. apply Hkeys; [by right | done]. }
      exists out'. split; [done |]. intros y. rewrite Hout'.
      destruct (decide (y ∈ years ∧ _)) as [[Hy Hex] | Hn].
      * rewrite decide_True; [done |]. split; [by right | done].
      * destruct (decide (y = y0)) as [-> | Hne].
        -- rewrite lookup_insert_eq, decide_True; [done |]. split; [left | done].
        -- rewrite lookup_insert_ne by done.
           rewrite decide_False; [done |]. intros [[-> | ?]%elem_of_cons ?]; tauto.
    + destruct (IH out) as (out' & -> & Hout').
      { intros y ??. apply Hkeys; [by right | done]. }
      exists out'. split; [done |]. intros y. rewrite Hout'.
      destruct (decide (y ∈ years ∧ _)) as [[Hy Hex] | Hn].
      * rewrite decide_True; [done |]. split; [by right | done].
      * rewrite decide_False; [done |].
        intros [[-> | ?]%elem_of_cons ?]; [congruence | tauto].
Qed.

End hourly_engine.

(** [/api/hourly] answers with what [hourly_series_for_grid] returns for
    the configured years: the same map of series when the engine method
    returns, the same exception when it raises (an hourly file exists and
    cannot be read), and 400 without asking the engine for [grid_id = 0].
    Asking the engine once per year changes nothing. *)
Theorem api_hourly_engine (fs : appdata Q) (grid_id : Z) :
  api_hourly fs grid_id =
  if bool_decide (grid_id = 0) then HourlyGridRequired
  else match hourly_series_for_grid fs grid_id [] with
       | Ok series => HourlyOk series
       | Err e => HourlyUnhandled e
       end.
Proof.
  unfold api_hourly. case_bool_decide; [done |].
  pose proof (hourly_series_loop_spec fs grid_id YEARS ∅) as Hspec.
  destruct (hourly_series_for_grid fs grid_id []) as [series|e] eqn:Hs.
  - unfold hourly_series_for_grid in Hs. rewrite bool_decide_eq_true_2 in Hs by done.
    rewrite Hs in Hspec.
    destruct (api_hourly_loop_series fs grid_id series YEARS ∅) as (out' & -> & Hout').
    { unfold hourly_series_for_grid. by rewrite bool_decide_eq_true_2. }
    { intros y Hy Hex. by apply Hspec. }
    f_equal. apply map_eq. intros y. rewrite Hout'.
    case_decide as Hy; [done |]. destruct (Hspec y) as [_ Hnot].
    rewrite Hnot; [done |].
    destruct (decide (y ∈ YEARS)); [right | by left].
    destruct (exists_ fs hourly y); [| done]. exfalso. by apply Hy.
  - rewrite (api_hourly_loop_Err fs grid_id e); [done | done |].
    unfold hourly_series_for_grid in Hs. rewrite bool_decide_eq_true_2 in Hs by done.
    by rewrite Hs in Hspec.
Qed.

(** ** Simplification of boundary rings *)

Section rdp_facts.
Context `{PyMath}.

Local Abbreviation far_step a b :=
  (λ (acc : Q * nat) (ip : nat * point),
     let d := dist ip.2 a b in
     if bool_decide (acc.1 < d)%Q then (d, ip.1) else acc).

(** The loop keeps the greatest distance seen and the index where it was
    seen first. *)
Lemma far_loop_spec (a b : point) (l : list (nat * point)) (acc : Q * nat) :
  let acc' := foldl (far_step a b) acc l in
  (acc.1 <= acc'.1)%Q ∧
  Forall (λ ip, dist ip.2 a b <= acc'.1)%Q l ∧
  (acc' = acc ∨ (acc.1 < acc'.1)%Q ∧ acc'.2 ∈ l.*1).
Proof.
  cbv zeta. revert acc. induction l as [|ip l IH]; intros acc; cbn [foldl].
  - split; [lra |]. split; [constructor | by left].
  - destruct (IH (far_step a b acc ip)) as (Hle & Hall & Hor).
    cbv beta zeta in *. rewrite fmap_cons. case_bool_decide as Hd; cbn [fst snd] in *.
    + split; [lra |]. split; [constructor; [lra | done] |].
      right. destruct Hor as [-> | [Hlt Hin]]; cbn [fst snd].
      * split; [done | left].
      * split; [lra | by right].
    + split; [done |]. split; [constructor; [lra | done] |].
      destruct Hor as [-> | [Hlt Hin]]; [by left |].
      right. split; [done | by right].
Qed.

Lemma zip_seq_app (mid : list point) (b : point) :
  zip (seq 1 (length (mid ++ [b]) - 1)) (mid ++ [b]) = zip (seq 1 (length mid)) mid.
Proof.
  rewrite length_app. cbn [length]. replace (length mid + 1 - 1)%nat with (length mid) by lia.
  generalize 1%nat. induction mid as [|p mid IH]; intros n; [done |].
  cbn. by rewrite IH.
Qed.

Lemma farthest_spec (a b : point) (mid : list point) :
  let '(dmax, idx) := farthest (a :: mid ++ [b]) in
  (0 <= dmax)%Q ∧
  Forall (λ p, dist p a b <= dmax)%Q mid ∧
  ((0 < dmax)%Q → (1 ≤ idx ≤ length mid)%nat).
Proof.
  unfold farthest. rewrite last_snoc. cbn [default]. rewrite zip_seq_app.
  pose proof (far_loop_spec a b (zip (seq 1 (length mid)) mid) (0%Q, 0%nat)) as Hs.
  cbv zeta in Hs. destruct (foldl _ _ _) as [dmax idx]. cbn [fst snd] in Hs.
  destruct Hs as (Hle & Hall & Hor). split; [done |]. split.
  - apply Forall_forall. intros p Hp.
    apply list_elem_of_lookup in Hp as [i Hi].
    rewrite Forall_forall in Hall. apply (Hall (S i, p)).
    apply list_elem_of_lookup. exists i. apply lookup_zip_with_Some.
    exists (S i), p. split; [done |]. split; [| done].
    apply lookup_seq. split; [lia |]. by eapply lookup_lt_Some.
  - intros Hpos. destruct Hor as [[= -> ->] | [_ Hin]]; [lra |].
    rewrite fst_zip in Hin by (rewrite length_seq; lia).
    apply elem_of_seq in Hin. lia.
Qed.

Lemma farthest_nonneg (pts : list point) : (0 <= (farthest pts).1)%Q.
Proof.
  destruct pts as [|a rest]; [cbn; lra |]. unfold farthest.
  by destruct (far_loop_spec (default a (last rest)) (default a (last rest))
                 (zip (seq 1 (length rest - 1)) rest) (0%Q, 0%nat)) as (Hle & _);
    destruct (far_loop_spec a (default a (last rest))
                 (zip (seq 1 (length rest - 1)) rest) (0%Q, 0%nat)) as (Hle' & _).
Qed.

(** The recursion on a line of at least two points. *)
Lemma rdp_rec_spec (epsilon : Q) (depth : nat) (a b : point) (mid : list point) :
  (0 <= epsilon)%Q → (length mid < depth)%nat →
  ∃ mid', rdp_rec depth epsilon (a :: mid ++ [b]) = Some (a :: mid' ++ [b]) ∧
          mid' `sublist_of` mid ∧
          within_tolerance epsilon (a :: mid ++ [b]) (a :: mid' ++ [b]).
Proof.
  intros Heps. revert a b mid.
  induction depth as [|depth IH]; intros a b mid Hlen; [lia |].
  cbn [rdp_rec]. pose proof (farthest_spec a b mid) as Hf.
  destruct (farthest (a :: mid ++ [b])) as [dmax idx].
  destruct Hf as (Hnn & Hall & Hidx). case_bool_decide as Hd.
  - destruct Hidx as [Hi1 Hi2]; [lra |].
    destruct (lookup_lt_is_Some_2 mid (idx - 1)) as [x Hx]; [lia |].
    pose proof (take_drop_middle mid (idx - 1) x Hx) as Hsplit.
    set (m1 := take (idx - 1) mid) in *. set (m2 := drop (S (idx - 1)) mid) in *.
    assert (Hl1 : length m1 = (idx - 1)%nat) by (unfold m1; rewrite length_take; lia).
    assert (Hlm : length mid = (length m1 + S (length m2))%nat)
      by (rewrite <- Hsplit, length_app; done).
    assert (Ht : take (S idx) (a :: mid ++ [b]) = a :: m1 ++ [x]).
    { rewrite <- Hsplit. cbn [take]. f_equal.
      replace idx with (length m1 + 1)%nat at 1 by lia.
      rewrite <- app_assoc. rewrite take_app_add'; [| done].
      cbn [app take]. by rewrite take_0. }
    assert (Hdr : drop idx (a :: mid ++ [b]) = x :: m2 ++ [b]).
    { rewrite <- Hsplit. replace idx with (S (length m1)) at 1 by lia.
      cbn [drop]. rewrite <- app_assoc. rewrite drop_app_length. done. }
    rewrite Ht, Hdr.
    destruct (IH a x m1) as (m1' & -> & Hs1 & Hw1); [lia |].
    destruct (IH x b m2) as (m2' & -> & Hs2 & Hw2); [lia |].
    cbn [mbind option_bind].
    exists (m1' ++ x :: m2'). split; [| split].
    + f_equal. rewrite app_comm_cons, removelast_last.
      cbn [app]. by rewrite <- app_assoc.
    + rewrite <- Hsplit. apply sublist_app; [done | by apply sublist_skip].
    + rewrite <- Hsplit. rewrite <- !app_assoc. cbn [app].
      apply (wt_split epsilon (a :: m1) (a :: m1') x (m2 ++ [b]) (m2' ++ [b])); done.
  - exists []. rewrite last_snoc. cbn [default app]. split; [done |].
    split; [apply sublist_nil_l |].
    constructor. eapply Forall_impl; [done |]. cbv beta. intros p Hp.
    assert (¬ (epsilon < dmax)%Q) as Hd' by done. lra.
Qed.

Lemma rdp_rec_negative (epsilon : Q) (depth : nat) (pts : list point) :
  (epsilon < 0)%Q → rdp_rec depth epsilon pts = None.
Proof.
  intros Heps. revert pts. induction depth as [|depth IH]; intros pts; [done |].
  cbn [rdp_rec]. pose proof (farthest_nonneg pts) as Hnn.
  destruct (farthest pts) as [dmax idx]. cbn [fst] in Hnn.
  assert (epsilon < dmax)%Q as Hd by lra.
  rewrite (bool_decide_eq_true_2 _ Hd), (IH (take (S idx) pts)). reflexivity.
Qed.

(** With a tolerance that is not negative, and as many nested calls
    available as the line has points, [_rdp] returns.  The result keeps the
    first and the last point and a selection of the points between them, in
    their order, and every point left out is within the tolerance of the
    chord of the run it was in. *)
Theorem rdp_simplifies (depth : nat) (points : list point) (epsilon : Q) :
  (0 <= epsilon)%Q → (length points ≤ depth)%nat →
  ∃ res, _rdp depth points epsilon = Some res ∧
         res `sublist_of` points ∧
         head res = head points ∧ last res = last points ∧
         (3 ≤ length points → 2 ≤ length res)%nat ∧
         (3 ≤ length points → within_tolerance epsilon points res)%nat.
Proof.
  intros Heps Hlen. unfold _rdp. case_bool_decide as Hshort.
  - exists points. repeat split; try done; lia.
  - destruct points as [|a rest]; [cbn in Hshort; lia |].
    destruct (exists_last (l := rest)) as (mid & b & ->); [intros ->; cbn in Hshort; lia |].
    rewrite length_cons, length_app in Hlen. cbn [length] in Hlen.
    destruct (rdp_rec_spec epsilon depth a b mid Heps) as (mid' & -> & Hsub & Hw); [lia |].
    exists (a :: mid' ++ [b]). split; [done |].
    split; [by apply sublist_skip, sublist_app |].
    split; [done |]. split; [by rewrite !last_cons, !last_snoc |].
    split; [| done]. intros _. rewrite length_cons, length_app. cbn [length]. lia.
Qed.

(** With a negative tolerance [_rdp] returns no line of three or more
    points, whatever the depth available: the recursion does not end. *)
Theorem rdp_negative_tolerance (depth : nat) (points : list point) (epsilon : Q) :
  (epsilon < 0)%Q → (3 ≤ length points)%nat → _rdp depth points epsilon = None.
Proof.
  intros Heps Hlen. unfold _rdp.
  rewrite bool_decide_eq_false_2 by lia. by apply rdp_rec_negative.
Qed.

End rdp_facts.

Lemma rdp_simplifies_witness :
  ∃ res, @_rdp sample_math 5 sample_ring 1 = Some res ∧
         res `sublist_of` sample_ring ∧
         head res = head sample_ring ∧ last res = last sample_ring ∧
         (3 ≤ length sample_ring → 2 ≤ length res)%nat ∧
         (3 ≤ length sample_ring → @within_tolerance sample_math 1 sample_ring res)%nat.
Proof.
  assert (H1 : (0 <= 1)%Q) by lra.
  assert (H2 : (length sample_ring ≤ 5)%nat) by (cbn; lia).
  exact (@rdp_simplifies sample_math 5 sample_ring 1 H1 H2).
Defined.

Example rdp_example :
  @_rdp sample_math 5 sample_ring 1 = Some [(0, 0); (2, 3); (4, 0)]%Q.
Proof. vm_compute. reflexivity. Qed.

Lemma rdp_negative_tolerance_witness :
  @_rdp sample_math 100 sample_ring (-1) = None.
Proof.
  assert (H1 : (-1 < 0)%Q) by lra.
  assert (H2 : (3 ≤ length sample_ring)%nat) by (cbn; lia).
  exact (@rdp_negative_tolerance sample_math 100 sample_ring (-1) H1 H2).
Defined.
